(** * web-call-app: call signaling and peer-connection orchestration

    A shallow embedding of [src/lib/webrtc.ts] (class [WebRTCService]) and of
    [src/contexts/CallContext.tsx] (the [CallProvider] operations), together
    with the properties of the design document that concern them.

    The TypeScript code is imperative and asynchronous.  It is modelled here
    in a state-and-exception monad over one record, [World], that holds

    - the browser objects the code manipulates (media tracks and
      [RTCPeerConnection]s, both kept in heaps because the code shares them
      by reference; the console; pending [setTimeout] callbacks),
    - the fields of the [WebRTCService] instance,
    - the React state of [CallProvider],
    - the Firestore documents used as signaling channel.

    Every handler runs to completion before the next one starts: the
    interleavings that [await] permits inside one handler are not modelled. *)

From stdpp Require Import gmap strings list fin_maps.

Open Scope string_scope.
Open Scope list_scope.
Open Scope stdpp_scope.

(* ===================================================================== *)
(** * Browser platform: tracks and peer connections *)
(* ===================================================================== *)

(** The browser API is not part of the repository.  The definitions of this
    section follow the W3C WebRTC interface as far as the code observes it:
    the signaling-state table of [setLocalDescription] and
    [setRemoteDescription], [close], [addTrack], [addIceCandidate].  The
    content of session descriptions and candidates is opaque. *)

Inductive TrackKind := audio_track | video_track.
Inductive TrackReadyState := live | track_ended.

Record MediaStreamTrack := {
  kind : TrackKind;
  enabled : bool;
  readyState : TrackReadyState
}.

(** Tracks and peer connections are JavaScript objects shared by reference:
    they live in heaps indexed by [nat], and a [MediaStream] is the list of
    the references of its tracks. *)

Inductive SignalingState :=
  | stable | have_local_offer | have_remote_offer
  | have_local_pranswer | have_remote_pranswer | sig_closed.

Inductive ConnectionState :=
  | conn_new | connecting | connected | disconnected | failed | conn_closed.

Inductive SdpType := offer | pranswer | answer | rollback.

Record Description := { dtype : SdpType; sdp : string }.

Record RTCPeerConnection := {
  signalingState : SignalingState;
  connectionState : ConnectionState;
  localDescription : option Description;
  remoteDescription : option Description;
  senders : list nat;            (* the track of each RTCRtpSender *)
  remoteCandidates : list string (* candidates given to addIceCandidate *)
}.

#[global] Instance TrackKind_eq_dec : EqDecision TrackKind.
Proof. solve_decision. Defined.
#[global] Instance TrackReadyState_eq_dec : EqDecision TrackReadyState.
Proof. solve_decision. Defined.
#[global] Instance SignalingState_eq_dec : EqDecision SignalingState.
Proof. solve_decision. Defined.
#[global] Instance ConnectionState_eq_dec : EqDecision ConnectionState.
Proof. solve_decision. Defined.
#[global] Instance SdpType_eq_dec : EqDecision SdpType.
Proof. solve_decision. Defined.

(** JavaScript exceptions: [name] and [message] of the thrown object. *)
Record Err := mkErr { err_name : string; err_message : string }.

Definition JsError (msg : string) : Err := mkErr "Error" msg.
Definition DOMException (name : string) : Err := mkErr name name.
Definition FirebaseError (code : string) : Err := mkErr "FirebaseError" code.
Definition TypeError : Err := mkErr "TypeError" "undefined reference".

Definition signalingState_name (s : SignalingState) : string :=
  match s with
  | stable => "stable"
  | have_local_offer => "have-local-offer"
  | have_remote_offer => "have-remote-offer"
  | have_local_pranswer => "have-local-pranswer"
  | have_remote_pranswer => "have-remote-pranswer"
  | sig_closed => "closed"
  end.

(** [new RTCPeerConnection(config)] *)
Definition pc_new : RTCPeerConnection :=
  {| signalingState := stable; connectionState := conn_new;
     localDescription := None; remoteDescription := None;
     senders := []; remoteCandidates := [] |}.

(** [pc.close()]: no effect on a closed connection. *)
Definition pc_close (pc : RTCPeerConnection) : RTCPeerConnection :=
  {| signalingState := sig_closed; connectionState := conn_closed;
     localDescription := localDescription pc;
     remoteDescription := remoteDescription pc;
     senders := senders pc; remoteCandidates := remoteCandidates pc |}.

(** [pc.addTrack(track, stream)]: a second sender for the same track is
    refused with [InvalidAccessError], a closed connection with
    [InvalidStateError]. *)
Definition pc_addTrack (t : nat) (pc : RTCPeerConnection) : Err + RTCPeerConnection :=
  if decide (signalingState pc = sig_closed) then inl (DOMException "InvalidStateError")
  else if decide (t ∈ senders pc) then inl (DOMException "InvalidAccessError")
  else inr {| signalingState := signalingState pc; connectionState := connectionState pc;
              localDescription := localDescription pc;
              remoteDescription := remoteDescription pc;
              senders := senders pc ++ [t]; remoteCandidates := remoteCandidates pc |}.

(** The signaling-state table: the state reached from [s] when a
    description of type [ty] is set as local ([remote = false]) or remote
    ([remote = true]) description; [None] where the platform rejects the
    call with [InvalidStateError].  A remote offer on a connection whose own
    offer is pending is accepted: the platform rolls the local offer back
    first. *)
Definition next_signalingState (remote : bool) (ty : SdpType) (s : SignalingState)
  : option SignalingState :=
  match remote, ty, s with
  | false, offer, (stable | have_local_offer) => Some have_local_offer
  | false, answer, (have_remote_offer | have_local_pranswer) => Some stable
  | false, pranswer, (have_remote_offer | have_local_pranswer) => Some have_local_pranswer
  | false, rollback, have_local_offer => Some stable
  | true, offer, (stable | have_remote_offer | have_local_offer) => Some have_remote_offer
  | true, answer, (have_local_offer | have_remote_pranswer) => Some stable
  | true, pranswer, (have_local_offer | have_remote_pranswer) => Some have_remote_pranswer
  | true, rollback, have_remote_offer => Some stable
  | _, _, _ => None
  end.

Definition pc_setLocalDescription (d : Description) (pc : RTCPeerConnection)
  : Err + RTCPeerConnection :=
  match next_signalingState false (dtype d) (signalingState pc) with
  | None => inl (DOMException "InvalidStateError")
  | Some s' =>
      inr {| signalingState := s'; connectionState := connectionState pc;
             localDescription := if decide (dtype d = rollback) then None else Some d;
             remoteDescription := remoteDescription pc;
             senders := senders pc; remoteCandidates := remoteCandidates pc |}
  end.

(** [pc.setRemoteDescription(d)].  The rollback that precedes a remote
    offer in [have-local-offer] discards the pending local offer, as a
    rollback set as local description does. *)
Definition pc_setRemoteDescription (d : Description) (pc : RTCPeerConnection)
  : Err + RTCPeerConnection :=
  match next_signalingState true (dtype d) (signalingState pc) with
  | None => inl (DOMException "InvalidStateError")
  | Some s' =>
      let implicitRollback :=
        bool_decide (dtype d = offer /\ signalingState pc = have_local_offer) in
      inr {| signalingState := s'; connectionState := connectionState pc;
             localDescription := if implicitRollback then None else localDescription pc;
             remoteDescription := if decide (dtype d = rollback) then None else Some d;
             senders := senders pc; remoteCandidates := remoteCandidates pc |}
  end.

(** [pc.addIceCandidate(c)]: rejected with [InvalidStateError] on a closed
    connection and while there is no remote description. *)
Definition pc_addIceCandidate (c : string) (pc : RTCPeerConnection)
  : Err + RTCPeerConnection :=
  if decide (signalingState pc = sig_closed) then inl (DOMException "InvalidStateError")
  else match remoteDescription pc with
       | None => inl (DOMException "InvalidStateError")
       | Some _ =>
           inr {| signalingState := signalingState pc;
                  connectionState := connectionState pc;
                  localDescription := localDescription pc;
                  remoteDescription := remoteDescription pc;
                  senders := senders pc;
                  remoteCandidates := remoteCandidates pc ++ [c] |}
       end.

(** [track.stop()] *)
Definition track_stop (t : MediaStreamTrack) : MediaStreamTrack :=
  {| kind := kind t; enabled := enabled t; readyState := track_ended |}.

Definition track_setEnabled (b : bool) (t : MediaStreamTrack) : MediaStreamTrack :=
  {| kind := kind t; enabled := b; readyState := readyState t |}.

(** [pc.createOffer(options)] and [pc.createAnswer()]: the description text
    is chosen by the platform ([gen]). *)
Definition pc_createOffer (gen : SdpType -> string) (pc : RTCPeerConnection)
  : Err + Description :=
  if decide (signalingState pc = sig_closed) then inl (DOMException "InvalidStateError")
  else inr {| dtype := offer; sdp := gen offer |}.

Definition pc_createAnswer (gen : SdpType -> string) (pc : RTCPeerConnection)
  : Err + Description :=
  match signalingState pc with
  | have_remote_offer | have_local_pranswer => inr {| dtype := answer; sdp := gen answer |}
  | _ => inl (DOMException "InvalidStateError")
  end.

(* ===================================================================== *)
(** * Signaling channel: the Firestore documents *)
(* ===================================================================== *)

Inductive CallType := voice | video.
Inductive CallStatus := ringing | active | ended | missed.

#[global] Instance CallType_eq_dec : EqDecision CallType.
Proof. solve_decision. Defined.
#[global] Instance CallStatus_eq_dec : EqDecision CallStatus.
Proof. solve_decision. Defined.

(** A JavaScript value that may be [undefined] or [null]. *)
Inductive JsOpt (A : Type) := jundefined | jnull | jval (a : A).
Arguments jundefined {A}.
Arguments jnull {A}.
Arguments jval {A} a.

Record User := { uid : string; displayName : string; photoURL : string }.

(** [calls/{callId}] *)
Record CallDoc := mkCallDoc {
  callerId : string;
  callerName : string;
  callerPhoto : string;
  receiverId : JsOpt string;
  participants : list string;
  type : CallType;
  status : CallStatus;
  isGroupCall : bool;
  createdAt : Z;
  startedAt : option Z;
  endedAt : option Z
}.

(** [calls/{callId}/offers/{uid}] and [calls/{callId}/answers/{uid}] *)
Record SignalDoc := {
  description : Description;
  fromUserId : string;
  toUserId : string;
  timestamp : Z
}.

(** The documents of the channel.  The candidate documents
    ([calls/{callId}/candidates]) are represented by what they cause, the
    delivery of a candidate to [handleIceCandidate]. *)
Record Firestore := mkFirestore {
  calls : gmap string CallDoc;
  offers : gmap (string * string) SignalDoc;
  answers : gmap (string * string) SignalDoc;
  users : gmap string User
}.

(** The local copy of a call document: [{ id: doc.id, ...doc.data() }]. *)
Record Call := { id : string; data : CallDoc }.

Inductive Path :=
  | CallPath (callId : string)
  | OfferPath (callId receiver : string)
  | AnswerPath (callId answerer : string).

(** What the surroundings decide during one handler: whether the browser
    offers media capture, the outcome of [getUserMedia], the text of
    generated descriptions, [Timestamp.now()], the identifier Firestore
    chooses for a new document, which writes the channel accepts, and the
    Firestore setting [ignoreUndefinedProperties] (set in [lib/firebase.ts],
    which is not among the sources). *)
Record Env := {
  hasMediaDevices : bool;
  secureContext : bool;
  gumError : option Err;
  sdpGen : SdpType -> string;
  now : Z;
  autoId : string;
  writeOk : Path -> bool;
  ignoreUndefinedProperties : bool
}.

(* ===================================================================== *)
(** * The state of one client *)
(* ===================================================================== *)

(** The type [PeerConnection] of [@/types]: an entry of the service's
    connection table. *)
Record PeerConnection := {
  pc_userId : string;
  connection : nat;
  stream : option (list nat)
}.

Inductive Level := log | warn | error.
Inductive Output := Console (lvl : Level) (msg : string) | Alert (msg : string).

(** Callbacks waiting in [setTimeout]. *)
Inductive Task := ActivateCall (callRef : string).
Record Timer := { delay : Z; task : Task }.

(** The React state [callState]; [cs_] marks the fields whose name the
    service uses as well. *)
Record CallState := mkCallState {
  cs_callId : option string;
  isInCall : bool;
  isCalling : bool;
  isReceivingCall : bool;
  callType : option CallType;
  cs_localStream : option (list nat);
  remoteStreams : gmap string (list nat);
  cs_participants : list (option User);
  isMuted : bool;
  isVideoOff : bool
}.

(** [webRTCService] tells whether the provider holds a service instance
    (it does once a user is signed in); the fields of the instance are
    [peerConnections] to [unsubscribes].  An entry of [unsubscribes] stands
    for the listener on the candidates of one call sent by one remote
    participant. *)
Record World := mkWorld {
  (* browser *)
  trackHeap : gmap nat MediaStreamTrack;
  pcHeap : gmap nat RTCPeerConnection;
  trace : list Output;
  timers : list Timer;
  (* WebRTCService *)
  peerConnections : gmap string PeerConnection;
  localStream : option (list nat);
  callId : option string;
  userId : string;
  unsubscribes : list (string * string);
  (* CallProvider *)
  user : option User;
  webRTCService : bool;
  callState : CallState;
  incomingCall : option Call;
  (* signaling channel *)
  db : Firestore
}.

Definition set_trackHeap (f : gmap nat MediaStreamTrack -> gmap nat MediaStreamTrack)
  (w : World) : World :=
  mkWorld (f (trackHeap w)) (pcHeap w) (trace w) (timers w) (peerConnections w)
    (localStream w) (callId w) (userId w) (unsubscribes w) (user w)
    (webRTCService w) (callState w) (incomingCall w) (db w).

Definition set_pcHeap (f : gmap nat RTCPeerConnection -> gmap nat RTCPeerConnection)
  (w : World) : World :=
  mkWorld (trackHeap w) (f (pcHeap w)) (trace w) (timers w) (peerConnections w)
    (localStream w) (callId w) (userId w) (unsubscribes w) (user w)
    (webRTCService w) (callState w) (incomingCall w) (db w).

Definition set_trace (f : list Output -> list Output) (w : World) : World :=
  mkWorld (trackHeap w) (pcHeap w) (f (trace w)) (timers w) (peerConnections w)
    (localStream w) (callId w) (userId w) (unsubscribes w) (user w)
    (webRTCService w) (callState w) (incomingCall w) (db w).

Definition set_timers (f : list Timer -> list Timer) (w : World) : World :=
  mkWorld (trackHeap w) (pcHeap w) (trace w) (f (timers w)) (peerConnections w)
    (localStream w) (callId w) (userId w) (unsubscribes w) (user w)
    (webRTCService w) (callState w) (incomingCall w) (db w).

Definition set_peerConnections
  (f : gmap string PeerConnection -> gmap string PeerConnection) (w : World) : World :=
  mkWorld (trackHeap w) (pcHeap w) (trace w) (timers w) (f (peerConnections w))
    (localStream w) (callId w) (userId w) (unsubscribes w) (user w)
    (webRTCService w) (callState w) (incomingCall w) (db w).

Definition set_localStream (v : option (list nat)) (w : World) : World :=
  mkWorld (trackHeap w) (pcHeap w) (trace w) (timers w) (peerConnections w)
    v (callId w) (userId w) (unsubscribes w) (user w)
    (webRTCService w) (callState w) (incomingCall w) (db w).

Definition set_callId (v : option string) (w : World) : World :=
  mkWorld (trackHeap w) (pcHeap w) (trace w) (timers w) (peerConnections w)
    (localStream w) v (userId w) (unsubscribes w) (user w)
    (webRTCService w) (callState w) (incomingCall w) (db w).

Definition set_unsubscribes (f : list (string * string) -> list (string * string))
  (w : World) : World :=
  mkWorld (trackHeap w) (pcHeap w) (trace w) (timers w) (peerConnections w)
    (localStream w) (callId w) (userId w) (f (unsubscribes w)) (user w)
    (webRTCService w) (callState w) (incomingCall w) (db w).

Definition set_callState (f : CallState -> CallState) (w : World) : World :=
  mkWorld (trackHeap w) (pcHeap w) (trace w) (timers w) (peerConnections w)
    (localStream w) (callId w) (userId w) (unsubscribes w) (user w)
    (webRTCService w) (f (callState w)) (incomingCall w) (db w).

Definition set_incomingCall (v : option Call) (w : World) : World :=
  mkWorld (trackHeap w) (pcHeap w) (trace w) (timers w) (peerConnections w)
    (localStream w) (callId w) (userId w) (unsubscribes w) (user w)
    (webRTCService w) (callState w) v (db w).

Definition set_db (f : Firestore -> Firestore) (w : World) : World :=
  mkWorld (trackHeap w) (pcHeap w) (trace w) (timers w) (peerConnections w)
    (localStream w) (callId w) (userId w) (unsubscribes w) (user w)
    (webRTCService w) (callState w) (incomingCall w) (f (db w)).

(* ===================================================================== *)
(** * The monad of handlers: state and exceptions *)
(* ===================================================================== *)

Inductive Res (A : Type) := Ok (a : A) | Throw (e : Err).
Arguments Ok {A} a.
Arguments Throw {A} e.

Definition M (A : Type) : Type := World -> Res A * World.

Definition ret {A} (a : A) : M A := fun w => (Ok a, w).

Definition bind {A B} (m : M A) (k : A -> M B) : M B :=
  fun w => match m w with
           | (Ok a, w') => k a w'
           | (Throw e, w') => (Throw e, w')
           end.

Definition throw {A} (e : Err) : M A := fun w => (Throw e, w).

(** [try { m } catch (e) { h e }]: the effects of [m] up to the exception
    stay. *)
Definition try_catch {A} (m : M A) (h : Err -> M A) : M A :=
  fun w => match m w with
           | (Throw e, w') => h e w'
           | r => r
           end.

Definition gets {A} (f : World -> A) : M A := fun w => (Ok (f w), w).
Definition modify (f : World -> World) : M unit := fun w => (Ok tt, f w).

Declare Scope js_scope.
Delimit Scope js_scope with js.
Notation "x <- m ;; k" := (bind m (fun x => k))
  (at level 100, m at next level, right associativity) : js_scope.
Notation "m ;;; k" := (bind m (fun _ => k))
  (at level 100, right associativity) : js_scope.
Open Scope js_scope.

(** [for (const x of l) { body x }] and [l.forEach(body)] *)
Fixpoint forEach {A} (l : list A) (body : A -> M unit) : M unit :=
  match l with
  | [] => ret tt
  | x :: l' => body x ;;; forEach l' body
  end.

(** [await Promise.all(l.map(f))] *)
Fixpoint mapM {A B} (f : A -> M B) (l : list A) : M (list B) :=
  match l with
  | [] => ret []
  | x :: l' => y <- f x ;; ys <- mapM f l' ;; ret (y :: ys)
  end.

Definition console (lvl : Level) (msg : string) : M unit :=
  modify (set_trace (fun t => t ++ [Console lvl msg])).

Definition alert (msg : string) : M unit :=
  modify (set_trace (fun t => t ++ [Alert msg])).

(** Calling a method of the connection object behind [ref]. *)
Definition deref (ref : nat) : M RTCPeerConnection :=
  fun w => match pcHeap w !! ref with
           | Some pc => (Ok pc, w)
           | None => (Throw TypeError, w)
           end.

Definition pc_call (ref : nat) (op : RTCPeerConnection -> Err + RTCPeerConnection)
  : M unit :=
  pc <- deref ref ;;
  match op pc with
  | inl e => throw e
  | inr pc' => modify (set_pcHeap <[ref := pc']>)
  end.

Definition pc_query {A} (ref : nat) (op : RTCPeerConnection -> Err + A) : M A :=
  pc <- deref ref ;;
  match op pc with
  | inl e => throw e
  | inr a => ret a
  end.

(* ===================================================================== *)
(** * [WebRTCService] (lib/webrtc.ts) *)
(* ===================================================================== *)

Definition alloc_track (k : TrackKind) : M nat :=
  fun w =>
    let r := fresh (dom (trackHeap w)) in
    (Ok r, set_trackHeap <[r := {| kind := k; enabled := true; readyState := live |}]> w).

(** [navigator.mediaDevices.getUserMedia(constraints)]: an audio track and,
    unless [video: false] was asked for, a video track. *)
Definition getUserMedia (e : Env) (audioOnly : bool) : M (list nat) :=
  match gumError e with
  | Some err => throw err
  | None =>
      a <- alloc_track audio_track ;;
      if audioOnly then ret [a]
      else v <- alloc_track video_track ;; ret [a; v]
  end.

(** [stream.getTracks().forEach(track => track.stop())] *)
Definition stopTracks (tracks : list nat) : M unit :=
  forEach tracks (fun t => modify (set_trackHeap (alter track_stop t))).

Definition name_in (err : Err) (names : list string) : bool :=
  bool_decide (err_name err ∈ names).

Definition initializeLocalStream (e : Env) (audioOnly : bool) : M (list nat) :=
  try_catch
    ((if hasMediaDevices e then ret tt
      else throw (JsError "Your browser does not support camera/microphone access. Please use a modern browser like Chrome, Firefox, or Safari.")) ;;;
     (if secureContext e then ret tt
      else throw (JsError "Camera and microphone access requires HTTPS. Please use https:// or test on localhost.")) ;;;
     old <- gets localStream ;;
     (match old with
      | Some ts => stopTracks ts
      | None => ret tt
      end) ;;;
     s <- getUserMedia e audioOnly ;;
     modify (set_localStream (Some s)) ;;;
     ret s)
    (fun err =>
       console error "Error accessing media devices:" ;;;
       if name_in err ["NotAllowedError"; "PermissionDeniedError"] then
         throw (JsError "Camera/microphone access was denied. Please allow access in your browser settings and try again.")
       else if name_in err ["NotFoundError"; "DevicesNotFoundError"] then
         throw (JsError "No camera or microphone found. Please connect a camera/microphone and try again.")
       else if name_in err ["NotReadableError"; "TrackStartError"] then
         throw (JsError "Camera or microphone is already in use by another application. Please close other apps and try again.")
       else if name_in err ["OverconstrainedError"] then
         throw (JsError "Camera/microphone settings are not supported by your device. Trying with basic settings...")
       else if name_in err ["SecurityError"] then
         throw (JsError "Security error: WebRTC requires HTTPS. Please access the app using https:// or localhost.")
       else if bool_decide (err_message err ≠ "") then throw err
       else throw (JsError "Failed to access camera/microphone. Please check your browser permissions and try again.")).

Definition closePeerConnection (userId : string) : M unit :=
  peerConnectionData <- gets (fun w => peerConnections w !! userId) ;;
  match peerConnectionData with
  | Some d =>
      modify (set_pcHeap (alter pc_close (connection d))) ;;;
      modify (set_peerConnections (delete userId)) ;;;
      console log ("Closed peer connection for " +:+ userId)
  | None => ret tt
  end.

Definition kind_name (k : option TrackKind) : string :=
  match k with
  | Some audio_track => "audio"
  | Some video_track => "video"
  | None => "undefined"
  end.

(** The body of [localStream.getTracks().forEach(track => ...)] in
    [createPeerConnection]. *)
Definition attachTrack (ref : nat) (track : nat) : M unit :=
  try_catch
    (pc <- deref ref ;;
     let trackAlreadyAdded := bool_decide (track ∈ senders pc) in
     if trackAlreadyAdded then ret tt
     else
       pc_call ref (pc_addTrack track) ;;;
       k <- gets (fun w => kind <$> trackHeap w !! track) ;;
       console log ("Added " +:+ kind_name k +:+ " track to peer connection"))
    (fun _ => console error "Error adding track:").

(** [createPeerConnection] from [new RTCPeerConnection(ICE_SERVERS)] on:
    the path taken when no open connection is found. *)
Definition newPeerConnection (remoteUserId : string) : M nat :=
  ref <- gets (fun w => fresh (dom (pcHeap w))) ;;
  modify (set_pcHeap <[ref := pc_new]>) ;;;
  ls <- gets localStream ;;
  (match ls with
   | Some tracks => forEach tracks (attachTrack ref)
   | None => ret tt
   end) ;;;
  modify (set_peerConnections
            <[remoteUserId := {| pc_userId := remoteUserId; connection := ref;
                                 stream := None |}]>) ;;;
  ret ref.

Definition createPeerConnection (remoteUserId : string) : M nat :=
  existing <- gets (fun w => peerConnections w !! remoteUserId) ;;
  match existing with
  | Some ex =>
      pc <- deref (connection ex) ;;
      if bool_decide (connectionState pc ≠ conn_closed) then
        console log ("Using existing peer connection for " +:+ remoteUserId) ;;;
        ret (connection ex)
      else
        closePeerConnection remoteUserId ;;;
        newPeerConnection remoteUserId
  | None => newPeerConnection remoteUserId
  end.

Definition createOffer (e : Env) (remoteUserId : string) : M Description :=
  peerConnection <- createPeerConnection remoteUserId ;;
  try_catch
    (o <- pc_query peerConnection (pc_createOffer (sdpGen e)) ;;
     pc_call peerConnection (pc_setLocalDescription o) ;;;
     ret o)
    (fun err => console error "Error creating offer:" ;;; throw err).

Definition createAnswer (e : Env) (remoteUserId : string) (o : Description)
  : M Description :=
  peerConnection <- createPeerConnection remoteUserId ;;
  try_catch
    (pc_call peerConnection (pc_setRemoteDescription o) ;;;
     a <- pc_query peerConnection (pc_createAnswer (sdpGen e)) ;;
     pc_call peerConnection (pc_setLocalDescription a) ;;;
     ret a)
    (fun err => console error "Error creating answer:" ;;; throw err).

Definition handleAnswer (remoteUserId : string) (a : Description) : M unit :=
  peerConnectionData <- gets (fun w => peerConnections w !! remoteUserId) ;;
  match peerConnectionData with
  | None => console error ("No peer connection found for " +:+ remoteUserId)
  | Some d =>
      let peerConnection := connection d in
      try_catch
        (pc <- deref peerConnection ;;
         if bool_decide (signalingState pc = have_local_offer) then
           pc_call peerConnection (pc_setRemoteDescription a)
         else
           console warn ("Cannot set remote description in state: "
                         +:+ signalingState_name (signalingState pc)))
        (fun _ => console error "Error handling answer:")
  end.

Definition handleIceCandidate (remoteUserId : string) (candidate : string) : M unit :=
  peerConnectionData <- gets (fun w => peerConnections w !! remoteUserId) ;;
  match peerConnectionData with
  | None => console error ("No peer connection found for " +:+ remoteUserId)
  | Some d =>
      let peerConnection := connection d in
      try_catch
        (pc <- deref peerConnection ;;
         if bool_decide (is_Some (remoteDescription pc)) then
           pc_call peerConnection (pc_addIceCandidate candidate)
         else ret tt)
        (fun _ => console error "Error adding ICE candidate:")
  end.

(** Installs [peerConnection.ontrack]; the handler itself runs only when the
    remote side sends media, which is outside this model. *)
Definition setupRemoteStreamListener (remoteUserId : string) : M unit :=
  peerConnectionData <- gets (fun w => peerConnections w !! remoteUserId) ;;
  match peerConnectionData with
  | None => console error ("No peer connection found for " +:+ remoteUserId)
  | Some _ => ret tt
  end.

(** Subscribes to the candidates sent by [remoteUserId] and keeps the
    handle in [unsubscribes]. *)
Definition listenForCandidates (callId remoteUserId : string) : M unit :=
  modify (set_unsubscribes (fun l => l ++ [(callId, remoteUserId)])).

Definition setCallId (callId : string) : M unit := modify (set_callId (Some callId)).

Definition toggleTracks (k : TrackKind) (en : bool) : M unit :=
  ls <- gets localStream ;;
  match ls with
  | Some tracks =>
      forEach tracks (fun t =>
        modify (set_trackHeap
                  (alter (fun tr => if decide (kind tr = k) then track_setEnabled en tr
                                    else tr) t)))
  | None => ret tt
  end.

Definition toggleAudio (en : bool) : M unit := toggleTracks audio_track en.
Definition toggleVideo (en : bool) : M unit := toggleTracks video_track en.

Definition cleanup : M unit :=
  ls <- gets localStream ;;
  (match ls with
   | Some tracks => stopTracks tracks ;;; modify (set_localStream None)
   | None => ret tt
   end) ;;;
  pcs <- gets peerConnections ;;
  forEach (map_to_list pcs)
    (fun entry => modify (set_pcHeap (alter pc_close (connection entry.2)))) ;;;
  modify (set_peerConnections (fun _ => ∅)) ;;;
  modify (set_unsubscribes (fun _ => [])) ;;;
  modify (set_callId None).

(** [peerConnection.onconnectionstatechange]: the transport reports a new
    state for the connection to [remoteUserId]. *)
Definition onconnectionstatechange (remoteUserId : string) (ref : nat)
  (s : ConnectionState) : M unit :=
  modify (set_pcHeap (alter (fun pc =>
    {| signalingState := signalingState pc; connectionState := s;
       localDescription := localDescription pc;
       remoteDescription := remoteDescription pc;
       senders := senders pc; remoteCandidates := remoteCandidates pc |}) ref)) ;;;
  console log ("Connection state for " +:+ remoteUserId) ;;;
  if bool_decide (s = disconnected ∨ s = failed) then closePeerConnection remoteUserId
  else ret tt.

(* ===================================================================== *)
(** * Firestore operations used by [CallProvider] *)
(* ===================================================================== *)

Definition set_calls (f : gmap string CallDoc -> gmap string CallDoc) (d : Firestore)
  : Firestore :=
  mkFirestore (f (calls d)) (offers d) (answers d) (users d).

Definition set_offers
  (f : gmap (string * string) SignalDoc -> gmap (string * string) SignalDoc)
  (d : Firestore) : Firestore :=
  mkFirestore (calls d) (f (offers d)) (answers d) (users d).

Definition set_answers
  (f : gmap (string * string) SignalDoc -> gmap (string * string) SignalDoc)
  (d : Firestore) : Firestore :=
  mkFirestore (calls d) (offers d) (f (answers d)) (users d).

(** [setDoc(doc(db, 'calls', id), data)]: Firestore refuses a field whose
    value is [undefined] unless [ignoreUndefinedProperties] is set, in which
    case the field is left out. *)
Definition setDoc_call (e : Env) (callId : string) (d : CallDoc) : M unit :=
  match receiverId d, ignoreUndefinedProperties e with
  | jundefined, false => throw (FirebaseError "invalid-argument")
  | _, _ =>
      if writeOk e (CallPath callId) then modify (set_db (set_calls <[callId := d]>))
      else throw (FirebaseError "permission-denied")
  end.

Definition setDoc_offer (e : Env) (callId receiver : string) (d : SignalDoc) : M unit :=
  if writeOk e (OfferPath callId receiver) then
    modify (set_db (set_offers <[(callId, receiver) := d]>))
  else throw (FirebaseError "permission-denied").

Definition setDoc_answer (e : Env) (callId answerer : string) (d : SignalDoc) : M unit :=
  if writeOk e (AnswerPath callId answerer) then
    modify (set_db (set_answers <[(callId, answerer) := d]>))
  else throw (FirebaseError "permission-denied").

(** [updateDoc(doc(db, 'calls', id), fields)]: fails when the document does
    not exist. *)
Definition updateDoc_call (e : Env) (callId : string) (f : CallDoc -> CallDoc) : M unit :=
  fun w =>
    if writeOk e (CallPath callId) then
      match calls (db w) !! callId with
      | Some d => (Ok tt, set_db (set_calls <[callId := f d]>) w)
      | None => (Throw (FirebaseError "not-found"), w)
      end
    else (Throw (FirebaseError "permission-denied"), w).

(** [{ status: s, startedAt: t }] and [{ status: s, endedAt: t }] *)
Definition started (s : CallStatus) (t : Z) (d : CallDoc) : CallDoc :=
  mkCallDoc (callerId d) (callerName d) (callerPhoto d) (receiverId d) (participants d)
    (type d) s (isGroupCall d) (createdAt d) (Some t) (endedAt d).

Definition finished (s : CallStatus) (t : Z) (d : CallDoc) : CallDoc :=
  mkCallDoc (callerId d) (callerName d) (callerPhoto d) (receiverId d) (participants d)
    (type d) s (isGroupCall d) (createdAt d) (startedAt d) (Some t).

(** [(await getDoc(doc(db, 'users', id))).data() as User] *)
Definition getUser (userId : string) : M (option User) :=
  gets (fun w => users (db w) !! userId).

(* ===================================================================== *)
(** * [CallProvider] (contexts/CallContext.tsx) *)
(* ===================================================================== *)

Definition MAX_PARTICIPANTS : nat := 5.

Definition initialCallState : CallState :=
  mkCallState None false false false None None ∅ [] false false.

Definition setCallState (f : CallState -> CallState) : M unit := modify (set_callState f).
Definition setIncomingCall (c : option Call) : M unit := modify (set_incomingCall c).

(** The callback given to [setTimeout]. *)
Definition runTask (e : Env) (t : Task) : M unit :=
  match t with
  | ActivateCall callRef => updateDoc_call e callRef (started active (now e))
  end.

Definition setTimeout (t : Task) (ms : Z) : M unit :=
  modify (set_timers (fun l => l ++ [{| delay := ms; task := t |}])).

(** The [n]-th pending timer fires: it leaves the timer list and its
    callback runs. *)
Definition fireTimer (e : Env) (n : nat) : M unit :=
  ts <- gets timers ;;
  match ts !! n with
  | Some t => modify (set_timers (fun l => take n l ++ drop (S n) l)) ;;; runTask e (task t)
  | None => ret tt
  end.

(** The body of [for (const receiverId of receiverIds)] in [startCall]. *)
Definition offer_to (e : Env) (callId : string) (user : User) (receiverId : string)
  : M unit :=
  o <- createOffer e receiverId ;;
  setDoc_offer e callId receiverId
    {| description := o; fromUserId := uid user; toUserId := receiverId;
       timestamp := now e |} ;;;
  listenForCandidates callId receiverId ;;;
  setupRemoteStreamListener receiverId.

(** The listener on [answers] that [startCall] registers is the handler
    [handleAnswer], run once per answer document (see [Action]). *)
Definition startCall (e : Env) (receiverIds : list string) (ty : CallType) : M unit :=
  u <- gets user ;;
  ready <- gets webRTCService ;;
  match u, ready with
  | Some user, true =>
      if bool_decide (MAX_PARTICIPANTS < length receiverIds + 1) then
        alert "Maximum 5 participants allowed in a group call"
      else
        try_catch
          (setCallState (fun prev =>
             mkCallState (cs_callId prev) (isInCall prev) true (isReceivingCall prev)
               (Some ty) (cs_localStream prev) (remoteStreams prev)
               (cs_participants prev) (isMuted prev) (isVideoOff prev)) ;;;
           localStream <- initializeLocalStream e (bool_decide (ty = voice)) ;;
           let callId := autoId e in
           let participants := uid user :: receiverIds in
           let isGroupCall := bool_decide (1 < length receiverIds) in
           setDoc_call e callId
             {| callerId := uid user;
                callerName := displayName user;
                callerPhoto := photoURL user;
                receiverId := if isGroupCall then jnull
                              else match receiverIds with
                                   | r :: _ => jval r
                                   | [] => jundefined
                                   end;
                participants := participants;
                type := ty;
                status := ringing;
                isGroupCall := isGroupCall;
                createdAt := now e;
                startedAt := None;
                endedAt := None |} ;;;
           setCallId callId ;;;
           forEach receiverIds (offer_to e callId user) ;;;
           participantDetails <- mapM getUser receiverIds ;;
           setCallState (fun prev =>
             mkCallState (Some callId) true false (isReceivingCall prev)
               (callType prev) (Some localStream) (remoteStreams prev)
               participantDetails (isMuted prev) (isVideoOff prev)) ;;;
           setTimeout (ActivateCall callId) 2000)
          (fun err =>
             console error "Error starting call:" ;;;
             setCallState (fun prev =>
               mkCallState (cs_callId prev) (isInCall prev) false (isReceivingCall prev)
                 (callType prev) (cs_localStream prev) (remoteStreams prev)
                 (cs_participants prev) (isMuted prev) (isVideoOff prev)) ;;;
             throw err)
  | _, _ => ret tt
  end.

Definition answerCall (e : Env) (callId : string) : M unit :=
  u <- gets user ;;
  ready <- gets webRTCService ;;
  ic <- gets incomingCall ;;
  match u, ready, ic with
  | Some user, true, Some incomingCall =>
      try_catch
        (localStream <- initializeLocalStream e
                          (bool_decide (type (data incomingCall) = voice)) ;;
         setCallId callId ;;;
         offerDoc <- gets (fun w => offers (db w) !! (callId, uid user)) ;;
         (match offerDoc with
          | Some offerData =>
              let callerId := fromUserId offerData in
              a <- createAnswer e callerId (description offerData) ;;
              setDoc_answer e callId (uid user)
                {| description := a; fromUserId := uid user; toUserId := callerId;
                   timestamp := now e |} ;;;
              listenForCandidates callId callerId ;;;
              setupRemoteStreamListener callerId
          | None => ret tt
          end) ;;;
         updateDoc_call e callId (started active (now e)) ;;;
         participantDetails <-
           mapM getUser (filter (fun i => i ≠ uid user) (participants (data incomingCall))) ;;
         setCallState (fun prev =>
           mkCallState (Some callId) true (isCalling prev) false
             (Some (type (data incomingCall))) (Some localStream) (remoteStreams prev)
             participantDetails (isMuted prev) (isVideoOff prev)) ;;;
         setIncomingCall None)
        (fun err => console error "Error answering call:" ;;; throw err)
  | _, _, _ => ret tt
  end.

Definition clearReceiving : M unit :=
  setCallState (fun prev =>
    mkCallState (cs_callId prev) (isInCall prev) (isCalling prev) false
      (callType prev) (cs_localStream prev) (remoteStreams prev)
      (cs_participants prev) (isMuted prev) (isVideoOff prev)).

Definition declineCall (e : Env) : M unit :=
  ic <- gets incomingCall ;;
  match ic with
  | None => ret tt
  | Some incomingCall =>
      try_catch
        (updateDoc_call e (id incomingCall) (finished missed (now e)) ;;;
         setIncomingCall None ;;;
         clearReceiving)
        (fun _ => console error "Error declining call:")
  end.

Definition endCall (e : Env) : M unit :=
  cid <- gets (fun w => cs_callId (callState w)) ;;
  ready <- gets webRTCService ;;
  match cid, ready with
  | Some callId, true =>
      try_catch
        (updateDoc_call e callId (finished ended (now e)) ;;;
         cleanup ;;;
         setCallState (fun _ => initialCallState) ;;;
         setIncomingCall None)
        (fun _ => console error "Error ending call:")
  | _, _ => ret tt
  end.

Definition toggleMute : M unit :=
  ready <- gets webRTCService ;;
  if ready then
    newMutedState <- gets (fun w => negb (isMuted (callState w))) ;;
    toggleAudio (negb newMutedState) ;;;
    setCallState (fun prev =>
      mkCallState (cs_callId prev) (isInCall prev) (isCalling prev) (isReceivingCall prev)
        (callType prev) (cs_localStream prev) (remoteStreams prev)
        (cs_participants prev) newMutedState (isVideoOff prev))
  else ret tt.

(** [toggleVideo] of [CallProvider] (the service has a method of the same
    name). *)
Definition toggleVideoOff : M unit :=
  ready <- gets webRTCService ;;
  if ready then
    newVideoState <- gets (fun w => negb (isVideoOff (callState w))) ;;
    toggleVideo (negb newVideoState) ;;;
    setCallState (fun prev =>
      mkCallState (cs_callId prev) (isInCall prev) (isCalling prev) (isReceivingCall prev)
        (callType prev) (cs_localStream prev) (remoteStreams prev)
        (cs_participants prev) (isMuted prev) newVideoState)
  else ret tt.

(** The listener on [calls] with [participants array-contains uid] and
    [status == 'ringing']: one function per kind of change. *)
Definition onCallAdded (e : Env) (callData : Call) : M unit :=
  u <- gets user ;;
  match u with
  | None => ret tt
  | Some user =>
      if bool_decide (60000 < now e - createdAt (data callData))%Z then
        try_catch
          (updateDoc_call e (id callData) (finished missed (now e)))
          (fun _ => console error "Error cleaning up stale call:")
      else
        inCall <- gets (fun w => isInCall (callState w)) ;;
        if bool_decide (callerId (data callData) ≠ uid user) && negb inCall then
          setIncomingCall (Some callData) ;;;
          setCallState (fun prev =>
            mkCallState (cs_callId prev) (isInCall prev) (isCalling prev) true
              (callType prev) (cs_localStream prev) (remoteStreams prev)
              (cs_participants prev) (isMuted prev) (isVideoOff prev))
        else ret tt
  end.

Definition onCallModified (callData : CallDoc) : M unit :=
  if bool_decide (status callData = ended ∨ status callData = missed) then
    setIncomingCall None ;;; clearReceiving
  else ret tt.

Definition onCallRemoved (docId : string) : M unit :=
  ic <- gets incomingCall ;;
  if bool_decide (id <$> ic = Some docId) then setIncomingCall None ;;; clearReceiving
  else ret tt.

(** The handlers of a client: the operations of [CallProvider], the firing
    of a timer, the deliveries of the listeners on the channel (calls,
    answers, candidates), the transport reporting a connection state, and
    the unmounting of the provider.  Media events ([ontrack]) and the
    candidates the browser gathers ([onicecandidate]) are not part of the
    model. *)
Inductive Action :=
  | DoStartCall (receiverIds : list string) (ty : CallType)
  | DoAnswerCall (callId : string)
  | DoDeclineCall
  | DoEndCall
  | DoToggleMute
  | DoToggleVideo
  | DoFireTimer (n : nat)
  | DoCallAdded (c : Call)
  | DoCallModified (c : CallDoc)
  | DoCallRemoved (docId : string)
  | DoHandleAnswer (remoteUserId : string) (a : Description)
  | DoHandleIceCandidate (remoteUserId : string) (candidate : string)
  | DoConnectionStateChange (remoteUserId : string) (ref : nat) (s : ConnectionState)
  | DoUnmount.

Definition perform (e : Env) (a : Action) : M unit :=
  match a with
  | DoStartCall receiverIds ty => startCall e receiverIds ty
  | DoAnswerCall callId => answerCall e callId
  | DoDeclineCall => declineCall e
  | DoEndCall => endCall e
  | DoToggleMute => toggleMute
  | DoToggleVideo => toggleVideoOff
  | DoFireTimer n => fireTimer e n
  | DoCallAdded c => onCallAdded e c
  | DoCallModified c => onCallModified c
  | DoCallRemoved docId => onCallRemoved docId
  | DoHandleAnswer r a => handleAnswer r a
  | DoHandleIceCandidate r c => handleIceCandidate r c
  | DoConnectionStateChange r ref s => onconnectionstatechange r ref s
  | DoUnmount => cleanup
  end.


(* ===================================================================== *)
(** * The callers: [Dashboard] and [IncomingCallNotification] *)
(* ===================================================================== *)

(** A call of an [async] function whose promise is dropped: the caller goes
    on whether the callee returns or throws. *)
Definition not_awaited {A} (m : M A) : M unit := fun w => (Ok tt, (m w).2).

(** The state of the [Dashboard] component. *)
Record Dashboard := mkDashboard {
  onlineUsers : list User;
  selectedUsers : list string;
  showGroupCallModal : bool
}.

(** The listener on the online users: everyone but the signed-in user. *)
Definition onlineUsersSnapshot (self : User) (docs : list User) : list User :=
  filter (fun userData => uid userData ≠ uid self) docs.

Definition toggleUserSelection (userId : string) (prev : list string) : list string :=
  if bool_decide (userId ∈ prev) then filter (fun i => i ≠ userId) prev
  else prev ++ [userId].

Definition handleOneToOneCall (e : Env) (receiverId : string) (ty : CallType) : M unit :=
  not_awaited (startCall e [receiverId] ty).

(** [handleGroupCall] returns the state of the component it leaves. *)
Definition handleGroupCall (e : Env) (ty : CallType) (d : Dashboard) : M Dashboard :=
  if bool_decide (length (selectedUsers d) = 0) then
    alert "Please select at least one user" ;;; ret d
  else if bool_decide (4 < length (selectedUsers d)) then
    alert "Maximum 4 users can be selected for a group call" ;;; ret d
  else
    not_awaited (startCall e (selectedUsers d) ty) ;;;
    ret (mkDashboard (onlineUsers d) [] false).

(** [handleAnswer] and [handleDecline] of [IncomingCallNotification]; the
    component renders nothing, and so offers neither, without an incoming
    call. *)
Definition notification_handleAnswer (e : Env) : M unit :=
  ic <- gets incomingCall ;;
  match ic with
  | None => ret tt
  | Some incomingCall =>
      try_catch (answerCall e (id incomingCall))
        (fun _ =>
           console error "Error answering call:" ;;;
           alert "Failed to answer call. Please try again.")
  end.

Definition notification_handleDecline (e : Env) : M unit :=
  ic <- gets incomingCall ;;
  match ic with
  | None => ret tt
  | Some _ => try_catch (declineCall e) (fun _ => console error "Error declining call:")
  end.

(* ===================================================================== *)
(** * [CallUI] (components/call/CallUI.tsx) *)
(* ===================================================================== *)

(** [participants.find(p => p.uid === userId)]: the callback reads [uid] of
    each participant up to the first match, and fails on an undefined
    one. *)
Fixpoint find_participant (userId : string) (participants : list (option User))
  : Err + option User :=
  match participants with
  | [] => inr None
  | None :: _ => inl TypeError
  | Some p :: rest =>
      if decide (uid p = userId) then inr (Some p) else find_participant userId rest
  end.

(** [participants[0]?.displayName || 'Unknown'] *)
Definition nameOrUnknown (p : option User) : string :=
  match p with
  | Some p => if decide (displayName p = "") then "Unknown" else displayName p
  | None => "Unknown"
  end.

(** The header of the call screen: [Group Call (n participants)], or the
    name of the other participant with [Calling...] or [Connected]. *)
Inductive CallHeader :=
  | GroupCallHeader (count : nat)
  | PeerHeader (name : string) (calling : bool).

(** Rendering [CallUI]: nothing ([null]) unless in a call or calling;
    otherwise the header, provided the body renders.  The body is modelled
    as far as it can fail: the grid of a video call looks the user of every
    remote stream up with [participants.find], and the avatars of a voice
    call read [participant.uid] of every participant.  The markup is not
    modelled. *)
Definition CallUI (cs : CallState) : Err + option CallHeader :=
  if negb (isInCall cs) && negb (isCalling cs) then inr None
  else
    let participants := cs_participants cs in
    let isGroupCall := bool_decide (1 < length participants) in
    let header :=
      if isGroupCall then GroupCallHeader (length participants + 1)
      else PeerHeader (nameOrUnknown (default None (head participants))) (isCalling cs) in
    let bodyRenders :=
      if decide (callType cs = Some video) then
        forallb (fun entry =>
                   match find_participant entry.1 participants with
                   | inl _ => false
                   | inr _ => true
                   end)
                (map_to_list (remoteStreams cs))
      else forallb (fun participant => bool_decide (is_Some participant)) participants in
    if bodyRenders then inr (Some header) else inl TypeError.

(* ===================================================================== *)
(** * Vocabulary of the statements *)
(* ===================================================================== *)

(** The world after one more line of output. *)
Definition said (o : Output) (w : World) : World := set_trace (fun t => t ++ [o]) w.

(** A handler keeps an invariant of the world, whether it returns or
    throws. *)
Definition preserves {A} (I : World -> Prop) (m : M A) : Prop :=
  forall w, I w -> I (m w).2.

(** What lies outside [WebRTCService] and the browser objects it handles:
    the channel, the pending timers and the state of [CallProvider]. *)
Definition outside (w : World)
  : Firestore * list Timer * CallState * option Call * option User * bool :=
  (db w, timers w, callState w, incomingCall w, user w, webRTCService w).

(** What the service and the browser hold besides connections: unchanged
    by the creation of connections and offers. *)
Definition beside_links (w : World) :=
  (outside w, localStream w, trackHeap w).

(** What creating connections and publishing offers leaves alone. *)
Definition kept (w : World) :=
  (calls (db w), answers (db w), users (db w), timers w, callState w, incomingCall w,
   user w, webRTCService w, localStream w, trackHeap w).

(** Capture is available and the channel accepts the writes. *)
Definition good_env (e : Env) : Prop :=
  hasMediaDevices e = true /\ secureContext e = true /\ gumError e = None /\
  forall p, writeOk e p = true.

(** ** Connections *)

(** The connection [pc] after the remote description [a] of type answer
    was applied to it. *)
Definition answered (a : Description) (pc : RTCPeerConnection) : RTCPeerConnection :=
  {| signalingState := stable; connectionState := connectionState pc;
     localDescription := localDescription pc; remoteDescription := Some a;
     senders := senders pc; remoteCandidates := remoteCandidates pc |}.

(** The connection [pc] after the candidates [cs] were added to it. *)
Definition received (cs : list string) (pc : RTCPeerConnection) : RTCPeerConnection :=
  {| signalingState := signalingState pc; connectionState := connectionState pc;
     localDescription := localDescription pc; remoteDescription := remoteDescription pc;
     senders := senders pc; remoteCandidates := remoteCandidates pc ++ cs |}.

(** The connection [pc] after [setLocalDescription(o)] with an offer. *)
Definition offered (o : Description) (pc : RTCPeerConnection) : RTCPeerConnection :=
  {| signalingState := have_local_offer; connectionState := connectionState pc;
     localDescription := Some o; remoteDescription := remoteDescription pc;
     senders := senders pc; remoteCandidates := remoteCandidates pc |}.

(** The sender list after the loop of [createPeerConnection] went through
    [tracks], starting from the senders [ss]. *)
Definition attach (tracks : list nat) (ss : list nat) : list nat :=
  foldl (fun s t => if bool_decide (t ∈ s) then s else s ++ [t]) ss tracks.

Definition with_senders (ss : list nat) (pc : RTCPeerConnection) : RTCPeerConnection :=
  {| signalingState := signalingState pc; connectionState := connectionState pc;
     localDescription := localDescription pc; remoteDescription := remoteDescription pc;
     senders := ss; remoteCandidates := remoteCandidates pc |}.

(** The connection a receiver holds after [createAnswer] on a new
    connection: the remote offer [o] and the local answer [a] are set, and
    the tracks of the local stream are attached. *)
Definition answering (o a : Description) (tracks : list nat) : RTCPeerConnection :=
  {| signalingState := stable; connectionState := conn_new;
     localDescription := Some a; remoteDescription := Some o;
     senders := attach tracks []; remoteCandidates := [] |}.

(** The table entry [createPeerConnection] stores. *)
Definition entry (remoteUserId : string) (ref : nat) : PeerConnection :=
  {| pc_userId := remoteUserId; connection := ref; stream := None |}.

(** The two states of a connection agree on whether it is closed, as they
    do on every connection the platform hands out. *)
Definition coherent (pc : RTCPeerConnection) : Prop :=
  connectionState pc = conn_closed <-> signalingState pc = sig_closed.

(** A connection on which [createOffer] goes through: it is closed (and
    will be replaced), or its signaling state accepts a local offer. *)
Definition offerable_pc (pc : RTCPeerConnection) : Prop :=
  connectionState pc = conn_closed \/
  signalingState pc = stable \/ signalingState pc = have_local_offer.

Definition ready_to_offer (w : World) : Prop :=
  forall r d, peerConnections w !! r = Some d ->
    exists pc, pcHeap w !! connection d = Some pc /\ offerable_pc pc.

(** The heap after [close()] on the connection of every entry of the
    table, and after [stop()] on every track of a stream. *)
Definition close_all (entries : list (string * PeerConnection))
  (h : gmap nat RTCPeerConnection) : gmap nat RTCPeerConnection :=
  foldl (fun h entry => alter pc_close (connection entry.2) h) h entries.

Definition stop_all (tracks : list nat) (h : gmap nat MediaStreamTrack)
  : gmap nat MediaStreamTrack :=
  foldl (fun h t => alter track_stop t h) h tracks.

(** ** Documents *)

(** The documents [startCall] and [answerCall] write. *)
Definition new_call_doc (e : Env) (u : User) (receiverIds : list string) (ty : CallType)
  : CallDoc :=
  {| callerId := uid u; callerName := displayName u; callerPhoto := photoURL u;
     receiverId := if bool_decide (1 < length receiverIds) then jnull
                   else match receiverIds with
                        | r :: _ => jval r
                        | [] => jundefined
                        end;
     participants := uid u :: receiverIds;
     type := ty; status := ringing;
     isGroupCall := bool_decide (1 < length receiverIds);
     createdAt := now e; startedAt := None; endedAt := None |}.

Definition offer_doc (e : Env) (u : User) (receiver : string) (o : Description)
  : SignalDoc :=
  {| description := o; fromUserId := uid u; toUserId := receiver; timestamp := now e |}.

Definition answer_doc (e : Env) (u : User) (caller : string) (a : Description)
  : SignalDoc :=
  {| description := a; fromUserId := uid u; toUserId := caller; timestamp := now e |}.

(** The invariant of session records, on the stored participant list. *)
Definition session_ok (d : CallDoc) : Prop :=
  2 <= length (participants d) <= 5 /\
  isGroupCall d = bool_decide (2 < length (participants d)).

Definition channel_ok (d : Firestore) : Prop :=
  forall callId doc, calls d !! callId = Some doc -> session_ok doc.

(** The number of distinct participants of a session record. *)
Definition distinct_participants (d : CallDoc) : nat :=
  size (list_to_set (participants d) : gset string).


(* ===================================================================== *)
(** * Scenarios *)
(* ===================================================================== *)

(** Concrete users, environments and worlds on which the handlers are run
    in the examples below. *)

Definition alice : User := {| uid := "alice"; displayName := "Alice"; photoURL := "" |}.
Definition bob : User := {| uid := "bob"; displayName := "Bob"; photoURL := "" |}.

Definition sdp_text (t : SdpType) : string :=
  match t with
  | offer => "v=0 offer"
  | answer => "v=0 answer"
  | pranswer => "v=0 pranswer"
  | rollback => ""
  end.

(** Capture works and the channel accepts every write. *)
Definition env_ok (t : Z) : Env :=
  {| hasMediaDevices := true; secureContext := true; gumError := None;
     sdpGen := sdp_text; now := t; autoId := "call-1";
     writeOk := fun _ => true; ignoreUndefinedProperties := false |}.

(** The channel rejects writes to the call document. *)
Definition env_rejecting (t : Z) : Env :=
  {| hasMediaDevices := true; secureContext := true; gumError := None;
     sdpGen := sdp_text; now := t; autoId := "call-2";
     writeOk := fun p => match p with CallPath _ => false | _ => true end;
     ignoreUndefinedProperties := false |}.

Definition db_users : Firestore :=
  mkFirestore ∅ ∅ ∅ (<["alice" := alice]> (<["bob" := bob]> ∅)).

(** A signed-in client that is not in a call. *)
Definition idle (u : User) (d : Firestore) : World :=
  mkWorld ∅ ∅ [] [] ∅ None None (uid u) [] (Some u) true initialCallState None d.

(** Alice has started a video call to Bob; Bob has not answered yet. *)
Definition w_ringing : World :=
  (startCall (env_ok 1000) ["bob"] video (idle alice db_users)).2.

(** Alice's table entry for Bob and the connection behind it while the call
    is ringing. *)
Definition link_bob : PeerConnection :=
  {| pc_userId := "bob"; connection := 0; stream := None |}.

Definition pc_offered : RTCPeerConnection :=
  {| signalingState := have_local_offer; connectionState := conn_new;
     localDescription := Some {| dtype := offer; sdp := "v=0 offer" |};
     remoteDescription := None; senders := [0; 1]; remoteCandidates := [] |}.

Definition answer_bob : Description := {| dtype := answer; sdp := "v=0 answer" |}.

(** Alice's client after Bob's answer arrived. *)
Definition w_answered : World := (handleAnswer "bob" answer_bob w_ringing).2.

(** The same, when a component that obtained the connection through
    [getPeerConnection] has closed it: the entry is closed but still in
    the table. *)
Definition w_stale : World := set_pcHeap (alter pc_close 0) w_answered.

(** Alice's client during the call with Bob: his answer has been applied
    and the ring timer has fired, so the session is active. *)
Definition w_active : World := (fireTimer (env_ok 3000) 0 w_answered).2.

(** The record of Alice's call to Bob, as Bob's client received it. *)
Definition call_to_bob : Call :=
  {| id := "call-1"; data := new_call_doc (env_ok 1000) alice ["bob"] video |}.

(** Bob's client still shows Alice's call, which she has ended meanwhile. *)
Definition bob_late : World :=
  set_incomingCall (Some call_to_bob)
    (idle bob (db (endCall (env_ok 1500) w_ringing).2)).

(** Alice's client after Bob declined her call. *)
Definition alice_declined : World :=
  set_db (fun _ => db (declineCall (env_ok 1500)
                         (set_incomingCall (Some call_to_bob)
                            (idle bob (db w_ringing)))).2)
    w_ringing.


(** Alice has started a group call to Bob and Carol. *)
Definition w_group : World :=
  (startCall (env_ok 1000) ["bob"; "carol"] video (idle alice db_users)).2.

Definition group_call : Call :=
  {| id := "call-1";
     data := new_call_doc (env_ok 1000) alice ["bob"; "carol"] video |}.

(** Bob's client when it has been told of Alice's group call. *)
Definition bob_ringing : World :=
  set_incomingCall (Some group_call) (idle bob (db w_group)).

(* ===================================================================== *)
(** * Further vocabulary and scenarios *)
(* ===================================================================== *)

(** A track as [getUserMedia] hands it out. *)
Definition new_track (k : TrackKind) : MediaStreamTrack :=
  {| kind := k; enabled := true; readyState := live |}.

(** The stream [getUserMedia] returns and the track heap it leaves. *)
Definition acquire (audioOnly : bool) (h : gmap nat MediaStreamTrack)
  : list nat * gmap nat MediaStreamTrack :=
  let a := fresh (dom h) in
  let h1 := <[a := new_track audio_track]> h in
  if audioOnly then ([a], h1)
  else let v := fresh (dom h1) in ([a; v], <[v := new_track video_track]> h1).

(** Capture cannot work in the environment [e]. *)
Definition no_media (e : Env) : Prop :=
  hasMediaDevices e = false \/ secureContext e = false \/ is_Some (gumError e).

(** The user has denied access to camera and microphone. *)
Definition env_denied (t : Z) : Env :=
  {| hasMediaDevices := true; secureContext := true;
     gumError := Some (DOMException "NotAllowedError");
     sdpGen := sdp_text; now := t; autoId := "call-3";
     writeOk := fun _ => true; ignoreUndefinedProperties := false |}.

(** The page is not served over HTTPS. *)
Definition env_insecure (t : Z) : Env :=
  {| hasMediaDevices := true; secureContext := false; gumError := None;
     sdpGen := sdp_text; now := t; autoId := "call-3";
     writeOk := fun _ => true; ignoreUndefinedProperties := false |}.

(** Bob's client shows Alice's call, which is still ringing. *)
Definition bob_invited : World :=
  set_callState (fun _ => mkCallState None false false true None None ∅ [] false false)
    (set_incomingCall (Some call_to_bob) (idle bob (db w_ringing))).

(** The track heap after [toggleAudio] or [toggleVideo] went through the
    tracks of the local stream. *)
Definition set_enabled_if (k : TrackKind) (en : bool) (tr : MediaStreamTrack)
  : MediaStreamTrack :=
  if decide (kind tr = k) then track_setEnabled en tr else tr.

Definition toggle_all (k : TrackKind) (en : bool) (tracks : list nat)
  (h : gmap nat MediaStreamTrack) : gmap nat MediaStreamTrack :=
  foldl (fun h t => alter (set_enabled_if k en) t h) h tracks.

(** Bob's client shows Alice's call when her client has written the
    session record but not yet the offer. *)
Definition bob_early : World := set_db (set_offers (fun _ => ∅)) bob_invited.

(** Carol, a third user. *)
Definition carol : User := {| uid := "carol"; displayName := "Carol"; photoURL := "" |}.

(** The channel accepts the session record but rejects the offers. *)
Definition env_no_offers (t : Z) : Env :=
  {| hasMediaDevices := true; secureContext := true; gumError := None;
     sdpGen := sdp_text; now := t; autoId := "call-4";
     writeOk := fun p => match p with OfferPath _ _ => false | _ => true end;
     ignoreUndefinedProperties := false |}.

(** A second environment in which everything works; the calls started in
    it get another identifier. *)
Definition env_other (t : Z) : Env :=
  {| hasMediaDevices := true; secureContext := true; gumError := None;
     sdpGen := sdp_text; now := t; autoId := "call-5";
     writeOk := fun _ => true; ignoreUndefinedProperties := false |}.

(** Alice has called Bob, and Bob, before his client showed her call, has
    called Alice: each side has an offer of its own pending.  Bob's client
    now shows Alice's call. *)
Definition bob_calling_too : World :=
  set_incomingCall (Some call_to_bob)
    (startCall (env_other 1100) ["alice"] video (idle bob (db w_ringing))).2.

(** The connection [pc] after it took the remote offer [o] and the local
    answer [a]. *)
Definition answering_on (o a : Description) (pc : RTCPeerConnection) : RTCPeerConnection :=
  {| signalingState := stable; connectionState := connectionState pc;
     localDescription := Some a; remoteDescription := Some o;
     senders := senders pc; remoteCandidates := remoteCandidates pc |}.

(** Every entry of the connection table is filed under the user it is for
    and names a connection that exists, and no two entries name the same
    connection. *)
Definition links_ok (w : World) : Prop :=
  (forall r d, peerConnections w !! r = Some d ->
     pc_userId d = r /\ is_Some (pcHeap w !! connection d)) /\
  (forall r r' d d', peerConnections w !! r = Some d -> peerConnections w !! r' = Some d' ->
     connection d = connection d' -> r = r').

(** A client after a sequence of handlers, each in an environment of its
    own. *)
Definition client_after (steps : list (Env * Action)) (w : World) : World :=
  foldl (fun w step => (perform step.1 step.2 w).2) w steps.

(** The selection of the group-call dialog after the users [clicks] were
    clicked one after the other, from an empty selection. *)
Definition selection_after (clicks : list string) : list string :=
  foldl (fun prev userId => toggleUserSelection userId prev) [] clicks.

(** How often [userId] was clicked. *)
Definition clicks_on (userId : string) (clicks : list string) : nat :=
  length (filter (fun i => i = userId) clicks).


(* ===================================================================== *)
(** * Reasoning about handlers *)
(* ===================================================================== *)

Lemma bind_ok {A B} (m : M A) (k : A -> M B) w a w' :
  m w = (Ok a, w') -> bind m k w = k a w'.
Proof. intros H. unfold bind. by rewrite H. Qed.

Lemma bind_throw {A B} (m : M A) (k : A -> M B) w e w' :
  m w = (Throw e, w') -> bind m k w = (Throw e, w').
Proof. intros H. unfold bind. by rewrite H. Qed.

Lemma try_catch_ok {A} (m : M A) h w a w' :
  m w = (Ok a, w') -> try_catch m h w = (Ok a, w').
Proof. intros H. unfold try_catch. by rewrite H. Qed.

Lemma try_catch_throw {A} (m : M A) h w e w' :
  m w = (Throw e, w') -> try_catch m h w = h e w'.
Proof. intros H. unfold try_catch. by rewrite H. Qed.

Lemma deref_ok w ref pc : pcHeap w !! ref = Some pc -> deref ref w = (Ok pc, w).
Proof. intros H. unfold deref. by rewrite H. Qed.

Lemma pc_call_ok w ref op pc pc' :
  pcHeap w !! ref = Some pc -> op pc = inr pc' ->
  pc_call ref op w = (Ok tt, set_pcHeap <[ref := pc']> w).
Proof.
  intros H Hop. unfold pc_call. rewrite (bind_ok _ _ _ _ _ (deref_ok _ _ _ H)).
  by rewrite Hop.
Qed.

Lemma World_eta w :
  mkWorld (trackHeap w) (pcHeap w) (trace w) (timers w) (peerConnections w)
    (localStream w) (callId w) (userId w) (unsubscribes w) (user w)
    (webRTCService w) (callState w) (incomingCall w) (db w) = w.
Proof. by destruct w. Qed.

(** Running the first step of a handler. *)
Lemma bind_ret {A B} (a : A) (k : A -> M B) w : bind (ret a) k w = k a w.
Proof. reflexivity. Qed.

Lemma bind_gets {A B} (f : World -> A) (k : A -> M B) w : bind (gets f) k w = k (f w) w.
Proof. reflexivity. Qed.

Lemma bind_modify {B} f (k : unit -> M B) w : bind (modify f) k w = k tt (f w).
Proof. reflexivity. Qed.

Lemma modify_run f w : modify f w = (Ok tt, f w).
Proof. reflexivity. Qed.

Ltac run_step :=
  first [ rewrite bind_ret | rewrite bind_gets | rewrite bind_modify ]; cbv beta.

(* ===================================================================== *)
(** * Unknown remote participants *)
(* ===================================================================== *)

(** C10.  For a remote participant that has no entry in the connection
    table, [handleAnswer], [handleIceCandidate] and [closePeerConnection]
    return normally; the first two only print an error on the console, the
    third changes nothing at all.  In particular the connection table and
    the state of every connection are as before. *)
Theorem unknown_remote_is_ignored (w : World) (remoteUserId : string)
    (a : Description) (candidate : string) :
  peerConnections w !! remoteUserId = None ->
  let note := Console error ("No peer connection found for " +:+ remoteUserId) in
  handleAnswer remoteUserId a w = (Ok tt, said note w) /\
  handleIceCandidate remoteUserId candidate w = (Ok tt, said note w) /\
  closePeerConnection remoteUserId w = (Ok tt, w) /\
  peerConnections (said note w) = peerConnections w /\
  pcHeap (said note w) = pcHeap w.
Proof.
  intros Hnone note. split_and!.
  - unfold handleAnswer. run_step. by rewrite Hnone.
  - unfold handleIceCandidate. run_step. by rewrite Hnone.
  - unfold closePeerConnection. run_step. by rewrite Hnone.
  - reflexivity.
  - reflexivity.
Qed.

Lemma unknown_remote_is_ignored_witness :
  peerConnections w_ringing !! "carol" = None /\
  closePeerConnection "carol" w_ringing = (Ok tt, w_ringing).
Proof.
  assert (H : peerConnections w_ringing !! "carol" = None) by (vm_compute; reflexivity).
  split; [exact H|].
  exact (proj1 (proj2 (proj2 (unknown_remote_is_ignored w_ringing "carol" answer_bob "c" H)))).
Defined.

(* ===================================================================== *)
(** * Answers *)
(* ===================================================================== *)

Lemma handleAnswer_other_state w remoteUserId d pc a :
  peerConnections w !! remoteUserId = Some d ->
  pcHeap w !! connection d = Some pc ->
  signalingState pc ≠ have_local_offer ->
  handleAnswer remoteUserId a w
  = (Ok tt, said (Console warn ("Cannot set remote description in state: "
                                +:+ signalingState_name (signalingState pc))) w).
Proof.
  intros Hd Hpc Hs. unfold handleAnswer, bind at 1, gets. rewrite Hd. cbn zeta.
  apply try_catch_ok. rewrite (bind_ok _ _ _ _ _ (deref_ok _ _ _ Hpc)).
  by rewrite bool_decide_eq_false_2.
Qed.

Lemma handleAnswer_applies w remoteUserId d pc a :
  peerConnections w !! remoteUserId = Some d ->
  pcHeap w !! connection d = Some pc ->
  signalingState pc = have_local_offer -> dtype a = answer ->
  handleAnswer remoteUserId a w
  = (Ok tt, set_pcHeap <[connection d := answered a pc]> w).
Proof.
  intros Hd Hpc Hs Ha. unfold handleAnswer, bind at 1, gets. rewrite Hd. cbn zeta.
  apply try_catch_ok. rewrite (bind_ok _ _ _ _ _ (deref_ok _ _ _ Hpc)).
  rewrite bool_decide_eq_true_2 by done.
  apply (pc_call_ok _ _ _ pc); [done|].
  unfold pc_setRemoteDescription, answered. rewrite Ha, Hs. cbn.
  by rewrite decide_False.
Qed.

Lemma handleAnswer_never_throws w remoteUserId a :
  (handleAnswer remoteUserId a w).1 = Ok tt.
Proof.
  unfold handleAnswer, bind at 1, gets.
  destruct (peerConnections w !! remoteUserId) as [d|]; [|done]. cbn zeta.
  unfold try_catch, bind, deref.
  destruct (pcHeap w !! connection d) as [pc|] eqn:Hpc; [|done].
  case_bool_decide; [|done].
  unfold pc_call, bind, deref. rewrite Hpc.
  by destruct (pc_setRemoteDescription a pc).
Qed.

(** C3.  [handleAnswer] never raises.  For a link whose signaling state is
    not [have-local-offer] it only prints a warning: the connection table,
    the connection (state and descriptions) and everything else stay as they
    are.  For a link in [have-local-offer] an answer is applied: the
    connection becomes [stable] with the answer as remote description.  A
    second [handleAnswer] right after that, with any description, is again
    only a warning, so the state is the one the first application left. *)
Theorem handleAnswer_only_in_have_local_offer (w : World) (remoteUserId : string)
    (d : PeerConnection) (pc : RTCPeerConnection) (a : Description) :
  peerConnections w !! remoteUserId = Some d ->
  pcHeap w !! connection d = Some pc ->
  (handleAnswer remoteUserId a w).1 = Ok tt /\
  (signalingState pc ≠ have_local_offer ->
     handleAnswer remoteUserId a w
     = (Ok tt, said (Console warn ("Cannot set remote description in state: "
                                   +:+ signalingState_name (signalingState pc))) w)) /\
  (signalingState pc = have_local_offer -> dtype a = answer ->
     let w1 := set_pcHeap <[connection d := answered a pc]> w in
     handleAnswer remoteUserId a w = (Ok tt, w1) /\
     signalingState (answered a pc) = stable /\
     remoteDescription (answered a pc) = Some a /\
     forall a' : Description,
       handleAnswer remoteUserId a' w1
       = (Ok tt, said (Console warn "Cannot set remote description in state: stable") w1)).
Proof.
  intros Hd Hpc. split_and!.
  - apply handleAnswer_never_throws.
  - intros Hs. by apply (handleAnswer_other_state w remoteUserId d pc).
  - intros Hs Ha w1. split_and!; try done.
    + subst w1. by apply (handleAnswer_applies w remoteUserId d pc).
    + intros a'.
      apply (handleAnswer_other_state w1 remoteUserId d (answered a pc)); try done.
      subst w1. cbn. apply lookup_insert_eq.
Qed.

Lemma handleAnswer_only_in_have_local_offer_witness :
  signalingState (answered answer_bob pc_offered) = stable /\
  handleAnswer "bob" answer_bob w_answered
  = (Ok tt, said (Console warn "Cannot set remote description in state: stable") w_answered).
Proof.
  assert (Hd : peerConnections w_ringing !! "bob" = Some link_bob)
    by (vm_compute; reflexivity).
  assert (Hpc : pcHeap w_ringing !! connection link_bob = Some pc_offered)
    by (vm_compute; reflexivity).
  destruct (handleAnswer_only_in_have_local_offer w_ringing "bob" link_bob pc_offered
              answer_bob Hd Hpc) as (_ & _ & Happ).
  destruct (Happ eq_refl eq_refl) as (H1 & Hst & _ & _).
  split; [exact Hst|].
  assert (Hd' : peerConnections w_answered !! "bob" = Some link_bob)
    by (vm_compute; reflexivity).
  assert (Hpc' : pcHeap w_answered !! connection link_bob
                 = Some (answered answer_bob pc_offered))
    by (vm_compute; reflexivity).
  destruct (handleAnswer_only_in_have_local_offer w_answered "bob" link_bob
              (answered answer_bob pc_offered) answer_bob Hd' Hpc') as (_ & Hno & _).
  apply Hno. discriminate.
Defined.

(* ===================================================================== *)
(** * Candidates *)
(* ===================================================================== *)

Lemma handleIceCandidate_without_description w remoteUserId d pc c :
  peerConnections w !! remoteUserId = Some d ->
  pcHeap w !! connection d = Some pc ->
  remoteDescription pc = None ->
  handleIceCandidate remoteUserId c w = (Ok tt, w).
Proof.
  intros Hd Hpc Hr. unfold handleIceCandidate, bind at 1, gets. rewrite Hd. cbn zeta.
  apply try_catch_ok. rewrite (bind_ok _ _ _ _ _ (deref_ok _ _ _ Hpc)).
  rewrite Hr. by rewrite bool_decide_eq_false_2 by (by intros [? ?]).
Qed.

Lemma handleIceCandidate_with_description w remoteUserId d pc c :
  peerConnections w !! remoteUserId = Some d ->
  pcHeap w !! connection d = Some pc ->
  is_Some (remoteDescription pc) -> signalingState pc ≠ sig_closed ->
  handleIceCandidate remoteUserId c w
  = (Ok tt, set_pcHeap <[connection d := received [c] pc]> w).
Proof.
  intros Hd Hpc Hr Hs. unfold handleIceCandidate, bind at 1, gets. rewrite Hd. cbn zeta.
  apply try_catch_ok. rewrite (bind_ok _ _ _ _ _ (deref_ok _ _ _ Hpc)).
  rewrite bool_decide_eq_true_2 by done.
  apply (pc_call_ok _ _ _ pc); [done|].
  unfold pc_addIceCandidate, received. rewrite decide_False by done.
  by destruct Hr as [x ->].
Qed.

Lemma received_nil pc : received [] pc = pc.
Proof. destruct pc. unfold received. cbn. by rewrite app_nil_r. Qed.

Lemma received_app cs cs' pc : received cs' (received cs pc) = received (cs ++ cs') pc.
Proof. unfold received. cbn. by rewrite app_assoc. Qed.

Lemma set_pcHeap_id w ref pc :
  pcHeap w !! ref = Some pc -> set_pcHeap <[ref := pc]> w = w.
Proof. intros H. unfold set_pcHeap. rewrite insert_id by done. apply World_eta. Qed.

Lemma set_pcHeap_twice w ref pc pc' :
  set_pcHeap <[ref := pc']> (set_pcHeap <[ref := pc]> w) = set_pcHeap <[ref := pc']> w.
Proof. unfold set_pcHeap. cbn. by rewrite insert_insert_eq. Qed.

Lemma candidates_in_order w remoteUserId d pc cs :
  peerConnections w !! remoteUserId = Some d ->
  pcHeap w !! connection d = Some pc ->
  is_Some (remoteDescription pc) -> signalingState pc ≠ sig_closed ->
  forEach cs (handleIceCandidate remoteUserId) w
  = (Ok tt, set_pcHeap <[connection d := received cs pc]> w).
Proof.
  revert w pc. induction cs as [|c cs IH]; intros w pc Hd Hpc Hr Hs.
  - cbn. rewrite received_nil. by rewrite set_pcHeap_id.
  - cbn [forEach].
    rewrite (bind_ok _ _ _ _ _
               (handleIceCandidate_with_description _ _ _ _ c Hd Hpc Hr Hs)).
    rewrite (IH _ (received [c] pc)); try done.
    + by rewrite set_pcHeap_twice, received_app.
    + cbn. apply lookup_insert_eq.
Qed.

(** C1, as the code has it.  A candidate that [handleIceCandidate] receives
    while the link has no remote description is discarded: the handler
    returns normally and the world is exactly as before, so the candidate is
    stored nowhere and nothing can apply it later.  Candidates received once
    a remote description is set (on a connection that is not closed) are
    added to the connection at once, in the order received. *)
Theorem candidates_before_remote_description_are_discarded (w : World)
    (remoteUserId : string) (d : PeerConnection) (pc : RTCPeerConnection) :
  peerConnections w !! remoteUserId = Some d ->
  pcHeap w !! connection d = Some pc ->
  (remoteDescription pc = None ->
     forall c : string, handleIceCandidate remoteUserId c w = (Ok tt, w)) /\
  (is_Some (remoteDescription pc) -> signalingState pc ≠ sig_closed ->
     forall cs : list string,
       forEach cs (handleIceCandidate remoteUserId) w
       = (Ok tt, set_pcHeap <[connection d := received cs pc]> w)).
Proof.
  intros Hd Hpc. split.
  - intros Hr c. by apply (handleIceCandidate_without_description _ _ d pc).
  - intros Hr Hs cs. by apply candidates_in_order.
Qed.

Lemma candidates_before_remote_description_are_discarded_witness :
  handleIceCandidate "bob" "candidate:1" w_ringing = (Ok tt, w_ringing) /\
  forEach ["candidate:1"; "candidate:2"] (handleIceCandidate "bob") w_answered
  = (Ok tt, set_pcHeap <[0 := received ["candidate:1"; "candidate:2"]
                                  (answered answer_bob pc_offered)]> w_answered).
Proof.
  assert (Hd : peerConnections w_ringing !! "bob" = Some link_bob)
    by (vm_compute; reflexivity).
  assert (Hpc : pcHeap w_ringing !! connection link_bob = Some pc_offered)
    by (vm_compute; reflexivity).
  assert (Hd' : peerConnections w_answered !! "bob" = Some link_bob)
    by (vm_compute; reflexivity).
  assert (Hpc' : pcHeap w_answered !! connection link_bob
                 = Some (answered answer_bob pc_offered))
    by (vm_compute; reflexivity).
  split.
  - exact (proj1 (candidates_before_remote_description_are_discarded
                    w_ringing "bob" link_bob pc_offered Hd Hpc) eq_refl "candidate:1").
  - refine (proj2 (candidates_before_remote_description_are_discarded
                     w_answered "bob" link_bob _ Hd' Hpc') _ _ _).
    + by eexists.
    + discriminate.
Defined.

(** C1, as the design document states it, fails: the candidate Alice
    receives from Bob before his answer leaves her client unchanged, and
    after the answer has been applied the connection has a remote
    description but no candidate. *)
Lemma early_candidate_is_lost :
  let w1 := (handleIceCandidate "bob" "candidate:1" w_ringing).2 in
  let w2 := (handleAnswer "bob" answer_bob w1).2 in
  w1 = w_ringing /\
  (remoteDescription <$> pcHeap w2 !! 0) = Some (Some answer_bob) /\
  (remoteCandidates <$> pcHeap w2 !! 0) = Some [] /\
  ~ (exists pc, pcHeap w2 !! 0 = Some pc /\ "candidate:1" ∈ remoteCandidates pc).
Proof.
  cbv zeta.
  assert (H1 : (handleIceCandidate "bob" "candidate:1" w_ringing).2 = w_ringing)
    by (vm_compute; reflexivity).
  rewrite H1.
  assert (H2 : pcHeap (handleAnswer "bob" answer_bob w_ringing).2 !! 0
               = Some (answered answer_bob pc_offered)) by (vm_compute; reflexivity).
  rewrite H2. split_and!; [reflexivity..|].
  intros (pc & Hpc & Hin). injection Hpc as <-. cbn in Hin. by apply elem_of_nil in Hin.
Qed.

(* ===================================================================== *)
(** * Creating and reusing connections *)
(* ===================================================================== *)

Lemma attach_cons t tracks ss :
  attach (t :: tracks) ss = attach tracks (if bool_decide (t ∈ ss) then ss else ss ++ [t]).
Proof. reflexivity. Qed.

Lemma attach_NoDup tracks ss : NoDup ss -> NoDup (attach tracks ss).
Proof.
  revert ss. induction tracks as [|t tracks IH]; intros ss Hss; [done|].
  rewrite attach_cons. apply IH. case_bool_decide; [done|].
  apply NoDup_app. split_and!; [done| |apply NoDup_singleton].
  intros x Hx Hx'. apply list_elem_of_singleton in Hx'. by subst.
Qed.

Lemma attach_elem_of tracks ss x : x ∈ attach tracks ss <-> x ∈ ss \/ x ∈ tracks.
Proof.
  revert ss. induction tracks as [|t tracks IH]; intros ss.
  - cbn. split; [by left|]. intros [?|H]; [done|]. by apply elem_of_nil in H.
  - rewrite attach_cons, IH. case_bool_decide; set_solver.
Qed.

Lemma attachTrack_spec w ref pc t :
  pcHeap w !! ref = Some pc -> signalingState pc ≠ sig_closed ->
  exists tr,
    attachTrack ref t w
    = (Ok tt, set_trace (fun _ => tr)
                (set_pcHeap <[ref := with_senders (attach [t] (senders pc)) pc]> w)).
Proof.
  intros Hpc Hs. unfold attachTrack. cbn [attach foldl].
  destruct (bool_decide (t ∈ senders pc)) eqn:Hin.
  - exists (trace w). erewrite try_catch_ok.
    2:{ rewrite (bind_ok _ _ _ _ _ (deref_ok _ _ _ Hpc)). cbn zeta. by rewrite Hin. }
    f_equal. unfold set_trace, set_pcHeap. cbn.
    rewrite insert_id; [by rewrite World_eta|].
    rewrite Hpc. f_equal. by destruct pc.
  - eexists. erewrite try_catch_ok; [reflexivity|].
    rewrite (bind_ok _ _ _ _ _ (deref_ok _ _ _ Hpc)). cbn zeta. rewrite Hin.
    erewrite bind_ok.
    2:{ apply (pc_call_ok _ _ _ pc); [done|]. unfold pc_addTrack.
        rewrite decide_False by done.
        apply bool_decide_eq_false in Hin. by rewrite decide_False by done. }
    unfold bind, gets, console, modify. cbn. reflexivity.
Qed.

Lemma forEach_attachTrack w ref pc tracks :
  pcHeap w !! ref = Some pc -> signalingState pc ≠ sig_closed ->
  exists tr,
    forEach tracks (attachTrack ref) w
    = (Ok tt, set_trace (fun _ => tr)
                (set_pcHeap <[ref := with_senders (attach tracks (senders pc)) pc]> w)).
Proof.
  revert w pc. induction tracks as [|t tracks IH]; intros w pc Hpc Hs.
  - exists (trace w). cbn. f_equal. unfold set_trace, set_pcHeap. cbn.
    rewrite insert_id; [by rewrite World_eta|]. rewrite Hpc. f_equal. by destruct pc.
  - destruct (attachTrack_spec w ref pc t Hpc Hs) as [tr1 H1].
    cbn [forEach]. rewrite (bind_ok _ _ _ _ _ H1).
    edestruct (IH (set_trace (fun _ => tr1)
                     (set_pcHeap <[ref := with_senders (attach [t] (senders pc)) pc]> w))
                 (with_senders (attach [t] (senders pc)) pc)) as [tr2 H2].
    { cbn. apply lookup_insert_eq. }
    { done. }
    exists tr2. rewrite H2. f_equal. unfold set_trace, set_pcHeap. cbn.
    by rewrite insert_insert_eq.
Qed.

Lemma newPeerConnection_spec w remoteUserId :
  let ref := fresh (dom (pcHeap w)) in
  let tracks := default [] (localStream w) in
  exists tr,
    newPeerConnection remoteUserId w
    = (Ok ref,
       set_trace (fun _ => tr)
         (set_peerConnections <[remoteUserId := entry remoteUserId ref]>
            (set_pcHeap <[ref := with_senders (attach tracks []) pc_new]> w))).
Proof.
  intros ref tracks. unfold newPeerConnection.
  unfold bind at 1, gets. fold ref. unfold bind at 1, modify. unfold bind at 1.
  cbn [localStream set_pcHeap].
  destruct (localStream w) as [ts|] eqn:Hls.
  - edestruct (forEach_attachTrack (set_pcHeap <[ref := pc_new]> w) ref pc_new ts)
      as [tr Htr].
    { cbn. apply lookup_insert_eq. }
    { done. }
    exists tr. rewrite (bind_ok _ _ _ _ _ Htr).
    unfold bind, ret. cbn. f_equal. subst tracks. cbn.
    unfold set_trace, set_peerConnections, set_pcHeap, entry. cbn.
    by rewrite insert_insert_eq.
  - exists (trace w). unfold bind, ret. cbn. f_equal.
Qed.

Lemma fresh_ref_new (w : World) ref pc :
  pcHeap w !! ref = Some pc -> fresh (dom (pcHeap w)) ≠ ref.
Proof.
  intros H Heq. apply (is_fresh (dom (pcHeap w))). rewrite Heq.
  apply elem_of_dom. by eexists.
Qed.

Lemma createPeerConnection_reuse w remoteUserId d pc :
  peerConnections w !! remoteUserId = Some d ->
  pcHeap w !! connection d = Some pc ->
  connectionState pc ≠ conn_closed ->
  createPeerConnection remoteUserId w
  = (Ok (connection d),
     said (Console log ("Using existing peer connection for " +:+ remoteUserId)) w).
Proof.
  intros Hd Hpc Hc. unfold createPeerConnection, bind at 1, gets. rewrite Hd.
  rewrite (bind_ok _ _ _ _ _ (deref_ok _ _ _ Hpc)).
  by rewrite bool_decide_eq_true_2.
Qed.

Lemma closePeerConnection_spec w remoteUserId d :
  peerConnections w !! remoteUserId = Some d ->
  closePeerConnection remoteUserId w
  = (Ok tt, said (Console log ("Closed peer connection for " +:+ remoteUserId))
              (set_peerConnections (delete remoteUserId)
                 (set_pcHeap (alter pc_close (connection d)) w))).
Proof. intros Hd. unfold closePeerConnection, bind at 1, gets. by rewrite Hd. Qed.

Lemma createPeerConnection_replace w remoteUserId d pc :
  peerConnections w !! remoteUserId = Some d ->
  pcHeap w !! connection d = Some pc ->
  connectionState pc = conn_closed ->
  let ref := fresh (dom (pcHeap w)) in
  let pc' := with_senders (attach (default [] (localStream w)) []) pc_new in
  exists tr,
    createPeerConnection remoteUserId w
    = (Ok ref,
       set_trace (fun _ => tr)
         (set_peerConnections (fun m => <[remoteUserId := entry remoteUserId ref]>
                                          (delete remoteUserId m))
            (set_pcHeap (fun h => <[ref := pc']> (alter pc_close (connection d) h)) w))).
Proof.
  intros Hd Hpc Hc ref pc'. unfold createPeerConnection, bind at 1, gets. rewrite Hd.
  rewrite (bind_ok _ _ _ _ _ (deref_ok _ _ _ Hpc)).
  rewrite bool_decide_eq_false_2 by (by intros ?).
  rewrite (bind_ok _ _ _ _ _ (closePeerConnection_spec _ _ _ Hd)). cbv beta.
  match goal with |- exists _, newPeerConnection _ ?w1 = _ =>
    destruct (newPeerConnection_spec w1 remoteUserId) as [tr Htr] end.
  exists tr. rewrite Htr. cbn [pcHeap said set_trace set_peerConnections set_pcHeap
                                 localStream].
  rewrite dom_alter_L. fold ref. reflexivity.
Qed.

(** The platform keeps the two states of a connection in agreement. *)
Lemma platform_keeps_coherent :
  coherent pc_new /\
  (forall pc, coherent (pc_close pc)) /\
  (forall d pc pc', pc_setLocalDescription d pc = inr pc' -> coherent pc -> coherent pc') /\
  (forall d pc pc', pc_setRemoteDescription d pc = inr pc' -> coherent pc -> coherent pc') /\
  (forall t pc pc', pc_addTrack t pc = inr pc' -> coherent pc -> coherent pc') /\
  (forall c pc pc', pc_addIceCandidate c pc = inr pc' -> coherent pc -> coherent pc').
Proof.
  assert (Hnext : forall remote ty s s',
            next_signalingState remote ty s = Some s' -> s <> sig_closed /\ s' <> sig_closed).
  { intros [] [] [] s' [= <-]; by split. }
  unfold coherent. split_and!.
  - by split.
  - by split.
  - intros d pc pc'. unfold pc_setLocalDescription.
    destruct (next_signalingState _ _ _) as [s'|] eqn:Hs; [|done].
    intros [= <-] Hpc. cbn. destruct (Hnext _ _ _ _ Hs). naive_solver.
  - intros d pc pc'. unfold pc_setRemoteDescription.
    destruct (next_signalingState _ _ _) as [s'|] eqn:Hs; [|done].
    intros [= <-] Hpc. cbn. destruct (Hnext _ _ _ _ Hs). naive_solver.
  - intros t pc pc'. unfold pc_addTrack. repeat case_decide; [done..|].
    by intros [= <-].
  - intros c pc pc'. unfold pc_addIceCandidate. case_decide; [done|].
    destruct (remoteDescription pc); [|done]. by intros [= <-].
Qed.

(** C7.  While the table holds a connection for [remoteUserId] that is not
    closed, [createPeerConnection] returns that very connection and changes
    nothing but the console: the connection, and with it its senders, is as
    it was.  The code reads the connection state; on a connection whose two
    states agree this is the case exactly when the signaling state is not
    closed.  When the connection held is closed, the entry is dropped and a
    new connection object takes its place; its senders are the tracks of the
    local stream, each exactly once; asking again returns the new connection
    and changes nothing. *)
Theorem createPeerConnection_is_idempotent (w : World) (remoteUserId : string)
    (d : PeerConnection) (pc : RTCPeerConnection) :
  peerConnections w !! remoteUserId = Some d ->
  pcHeap w !! connection d = Some pc ->
  let note := Console log ("Using existing peer connection for " +:+ remoteUserId) in
  (connectionState pc ≠ conn_closed ->
     createPeerConnection remoteUserId w = (Ok (connection d), said note w) /\
     peerConnections (said note w) !! remoteUserId = Some d /\
     pcHeap (said note w) !! connection d = Some pc) /\
  (coherent pc -> signalingState pc ≠ sig_closed ->
     createPeerConnection remoteUserId w = (Ok (connection d), said note w)) /\
  (connectionState pc = conn_closed ->
     let ref := fresh (dom (pcHeap w)) in
     exists (w' : World) (pc' : RTCPeerConnection),
       createPeerConnection remoteUserId w = (Ok ref, w') /\
       ref ≠ connection d /\
       peerConnections w' = <[remoteUserId := entry remoteUserId ref]> (peerConnections w) /\
       pcHeap w' = <[ref := pc']> (<[connection d := pc_close pc]> (pcHeap w)) /\
       signalingState pc' = stable /\ connectionState pc' = conn_new /\
       NoDup (senders pc') /\
       (forall t, t ∈ senders pc' <-> t ∈ default [] (localStream w)) /\
       trackHeap w' = trackHeap w /\ localStream w' = localStream w /\
       createPeerConnection remoteUserId w' = (Ok ref, said note w')).
Proof.
  intros Hd Hpc note. split_and!.
  - intros Hc. split_and!; [|exact Hd|exact Hpc].
    by apply (createPeerConnection_reuse w remoteUserId d pc).
  - intros Hco Hs. apply (createPeerConnection_reuse w remoteUserId d pc); [done..|].
    intros Hc. by apply Hs, Hco.
  - intros Hc ref.
    destruct (createPeerConnection_replace w remoteUserId d pc Hd Hpc Hc) as [tr Hrun].
    cbv zeta in Hrun. fold ref in Hrun.
    set (pc' := with_senders (attach (default [] (localStream w)) []) pc_new) in *.
    eexists _, pc'. split; [exact Hrun|].
    assert (Hne : ref ≠ connection d) by (by apply (fresh_ref_new w _ pc)).
    split_and!.
    + exact Hne.
    + cbn. apply insert_delete_eq.
    + cbn. f_equal. apply map_eq. intros i. rewrite lookup_alter, lookup_insert.
      destruct (decide (connection d = i)) as [<-|]; [by rewrite Hpc|done].
    + reflexivity.
    + reflexivity.
    + apply attach_NoDup, NoDup_nil_2.
    + intros t. subst pc'. cbn. rewrite attach_elem_of. set_solver.
    + reflexivity.
    + reflexivity.
    + apply (createPeerConnection_reuse _ remoteUserId (entry remoteUserId ref) pc').
      * cbn. apply lookup_insert_eq.
      * cbn. apply lookup_insert_eq.
      * discriminate.
Qed.

Lemma createPeerConnection_is_idempotent_witness :
  createPeerConnection "bob" w_answered
  = (Ok 0, said (Console log "Using existing peer connection for bob") w_answered) /\
  exists w', createPeerConnection "bob" w_stale = (Ok (fresh (dom (pcHeap w_stale))), w').
Proof.
  assert (Hd : peerConnections w_answered !! "bob" = Some link_bob).
  { vm_compute. reflexivity. }
  assert (Hpc : pcHeap w_answered !! connection link_bob
                = Some (answered answer_bob pc_offered)).
  { vm_compute. reflexivity. }
  assert (Hd' : peerConnections w_stale !! "bob" = Some link_bob).
  { vm_compute. reflexivity. }
  assert (Hpc' : pcHeap w_stale !! connection link_bob
                 = Some (pc_close (answered answer_bob pc_offered))).
  { vm_compute. reflexivity. }
  split.
  - refine (proj1 (proj2 (createPeerConnection_is_idempotent w_answered "bob" link_bob
                            _ Hd Hpc)) _ _).
    + split; discriminate.
    + discriminate.
  - destruct (proj2 (proj2 (createPeerConnection_is_idempotent w_stale "bob" link_bob
                              _ Hd' Hpc')) eq_refl) as (w' & pc' & Hrun & _).
    exists w'. exact Hrun.
Defined.

(* ===================================================================== *)
(** * Invariants of handlers *)
(* ===================================================================== *)

Section preserves.
Context (I : World -> Prop).

Lemma preserves_ret {A} (a : A) : preserves I (ret a).
Proof. by intros w H. Qed.

Lemma preserves_throw {A} e : preserves I (@throw A e).
Proof. by intros w H. Qed.

Lemma preserves_gets {A} (f : World -> A) : preserves I (gets f).
Proof. by intros w H. Qed.

Lemma preserves_modify f : (forall w, I w -> I (f w)) -> preserves I (modify f).
Proof. intros Hf w H. by apply Hf. Qed.

Lemma preserves_bind {A B} (m : M A) (k : A -> M B) :
  preserves I m -> (forall a, preserves I (k a)) -> preserves I (bind m k).
Proof.
  intros Hm Hk w H. unfold bind. specialize (Hm w H).
  destruct (m w) as [[a|e] w']; cbn in *; [by apply Hk|done].
Qed.

Lemma preserves_try_catch {A} (m : M A) h :
  preserves I m -> (forall e, preserves I (h e)) -> preserves I (try_catch m h).
Proof.
  intros Hm Hh w H. unfold try_catch. specialize (Hm w H).
  destruct (m w) as [[a|e] w']; cbn in *; [done|by apply Hh].
Qed.

Lemma preserves_forEach {A} (l : list A) body :
  (forall x, preserves I (body x)) -> preserves I (forEach l body).
Proof.
  intros Hb. induction l as [|x l IH]; cbn [forEach].
  - apply preserves_ret.
  - apply preserves_bind; [apply Hb|done].
Qed.

Lemma preserves_mapM {A B} (f : A -> M B) (l : list A) :
  (forall x, preserves I (f x)) -> preserves I (mapM f l).
Proof.
  intros Hf. induction l as [|x l IH]; cbn [mapM].
  - apply preserves_ret.
  - apply preserves_bind; [apply Hf|]. intros y.
    apply preserves_bind; [done|]. intros ys. apply preserves_ret.
Qed.

Lemma preserves_deref ref : preserves I (deref ref).
Proof. intros w H. unfold deref. by destruct (pcHeap w !! ref). Qed.
End preserves.

Create HintDb preserves.

(** One step through the structure of a handler.  What remains are the
    state changes, to be shown harmless for the invariant at hand. *)
Ltac preserves_step :=
  lazymatch goal with
  | |- preserves _ (bind _ _) => apply preserves_bind; [|intros ?]
  | |- preserves _ (try_catch _ _) => apply preserves_try_catch; [|intros ?]
  | |- preserves _ (ret _) => apply preserves_ret
  | |- preserves _ (throw _) => apply preserves_throw
  | |- preserves _ (gets _) => apply preserves_gets
  | |- preserves _ (deref _) => apply preserves_deref
  | |- preserves _ (forEach _ _) => apply preserves_forEach; intros ?
  | |- preserves _ (mapM _ _) => apply preserves_mapM; intros ?
  | |- preserves _ (modify _) => apply preserves_modify; intros ? ?; assumption
  | |- preserves _ (match ?x with _ => _ end) => destruct x
  end.

Ltac preserves_auto := repeat (preserves_step || (progress eauto with preserves)).

(** *** The service keeps to its own state *)

(** The methods of [WebRTCService] change the service's fields, the browser
    objects and the console, and nothing else. *)
Section service_frame.
Context (v : Firestore * list Timer * CallState * option Call * option User * bool).
Local Abbreviation I := (fun w => outside w = v).

Lemma console_frame lvl msg : preserves I (console lvl msg).
Proof. unfold console. preserves_auto. Qed.

Lemma pc_call_frame ref op : preserves I (pc_call ref op).
Proof. unfold pc_call. preserves_auto. Qed.

Lemma pc_query_frame {A} ref (op : _ -> Err + A) : preserves I (pc_query ref op).
Proof. unfold pc_query. preserves_auto. Qed.

Hint Resolve console_frame pc_call_frame pc_query_frame : preserves.

Lemma initializeLocalStream_frame e audioOnly :
  preserves I (initializeLocalStream e audioOnly).
Proof.
  unfold initializeLocalStream, getUserMedia, stopTracks, alloc_track.
  preserves_auto; by intros w H.
Qed.

Lemma closePeerConnection_frame r : preserves I (closePeerConnection r).
Proof. unfold closePeerConnection. preserves_auto. Qed.

Hint Resolve closePeerConnection_frame : preserves.

Lemma createPeerConnection_frame r : preserves I (createPeerConnection r).
Proof. unfold createPeerConnection, newPeerConnection, attachTrack. preserves_auto. Qed.

Hint Resolve createPeerConnection_frame : preserves.

Lemma createOffer_frame e r : preserves I (createOffer e r).
Proof. unfold createOffer. preserves_auto. Qed.

Lemma createAnswer_frame e r o : preserves I (createAnswer e r o).
Proof. unfold createAnswer. preserves_auto. Qed.

Lemma handleAnswer_frame r a : preserves I (handleAnswer r a).
Proof. unfold handleAnswer. preserves_auto. Qed.

Lemma handleIceCandidate_frame r c : preserves I (handleIceCandidate r c).
Proof. unfold handleIceCandidate. preserves_auto. Qed.

Lemma setupRemoteStreamListener_frame r : preserves I (setupRemoteStreamListener r).
Proof. unfold setupRemoteStreamListener. preserves_auto. Qed.

Lemma listenForCandidates_frame c r : preserves I (listenForCandidates c r).
Proof. unfold listenForCandidates. preserves_auto. Qed.

Lemma setCallId_frame c : preserves I (setCallId c).
Proof. unfold setCallId. preserves_auto. Qed.

Lemma toggleTracks_frame k en : preserves I (toggleTracks k en).
Proof. unfold toggleTracks. preserves_auto. Qed.

Lemma cleanup_frame : preserves I cleanup.
Proof. unfold cleanup, stopTracks. preserves_auto. Qed.

Lemma onconnectionstatechange_frame r ref s :
  preserves I (onconnectionstatechange r ref s).
Proof. unfold onconnectionstatechange. preserves_auto. Qed.

Lemma alert_frame msg : preserves I (alert msg).
Proof. unfold alert. preserves_auto. Qed.

Lemma getUser_frame u : preserves I (getUser u).
Proof. unfold getUser. preserves_auto. Qed.
End service_frame.

(** An invariant that only looks outside the service survives a handler
    that keeps to the service. *)
Lemma frame_preserves {A} (m : M A) (I : World -> Prop) :
  (forall v, preserves (fun w => outside w = v) m) ->
  (forall w w', outside w' = outside w -> I w -> I w') ->
  preserves I m.
Proof. intros Hm HI w Hw. apply (HI w); [|done]. by apply (Hm (outside w)). Qed.

(** A handler of the service inside a handler of the provider: it keeps
    every invariant that only looks outside the service. *)
Ltac service_step :=
  lazymatch goal with
  | |- preserves _ (console _ _) =>
      apply frame_preserves; [intros ?; apply console_frame|]
  | |- preserves _ (initializeLocalStream _ _) =>
      apply frame_preserves; [intros ?; apply initializeLocalStream_frame|]
  | |- preserves _ (createOffer _ _) =>
      apply frame_preserves; [intros ?; apply createOffer_frame|]
  | |- preserves _ (createAnswer _ _ _) =>
      apply frame_preserves; [intros ?; apply createAnswer_frame|]
  | |- preserves _ (handleAnswer _ _) =>
      apply frame_preserves; [intros ?; apply handleAnswer_frame|]
  | |- preserves _ (handleIceCandidate _ _) =>
      apply frame_preserves; [intros ?; apply handleIceCandidate_frame|]
  | |- preserves _ (setupRemoteStreamListener _) =>
      apply frame_preserves; [intros ?; apply setupRemoteStreamListener_frame|]
  | |- preserves _ (listenForCandidates _ _) =>
      apply frame_preserves; [intros ?; apply listenForCandidates_frame|]
  | |- preserves _ (setCallId _) =>
      apply frame_preserves; [intros ?; apply setCallId_frame|]
  | |- preserves _ (toggleAudio _) =>
      apply frame_preserves; [intros ?; apply toggleTracks_frame|]
  | |- preserves _ (toggleVideo _) =>
      apply frame_preserves; [intros ?; apply toggleTracks_frame|]
  | |- preserves _ cleanup => apply frame_preserves; [intros ?; apply cleanup_frame|]
  | |- preserves _ (onconnectionstatechange _ _ _) =>
      apply frame_preserves; [intros ?; apply onconnectionstatechange_frame|]
  | |- preserves _ (alert _) => apply frame_preserves; [intros ?; apply alert_frame|]
  | |- preserves _ (getUser _) => apply frame_preserves; [intros ?; apply getUser_frame|]
  end;
  (let Hout := fresh in
   intros ? ? Hout ?; unfold outside in Hout; simplify_eq; cbn in *;
   repeat match goal with Heq : ?f _ = ?f _ |- _ => rewrite Heq; clear Heq end;
   assumption).

Ltac provider_auto :=
  repeat (service_step || preserves_step || (progress eauto with preserves)).

(* ===================================================================== *)
(** * Too many participants *)
(* ===================================================================== *)

(** C6, as the code has it.  When the receivers and the caller together
    are more than five, [startCall] stops at the check and returns
    normally: a signed-in client is told so by an alert, and that alert is
    the only thing that happens.  No error is raised, no call document and
    no offer are written, no media is acquired, no connection is
    created. *)
Theorem startCall_rejects_more_than_five (e : Env) (w : World)
    (receiverIds : list string) (ty : CallType) :
  length receiverIds + 1 > 5 ->
  let w' := (startCall e receiverIds ty w).2 in
  (is_Some (user w) -> webRTCService w = true ->
     startCall e receiverIds ty w
     = (Ok tt, said (Alert "Maximum 5 participants allowed in a group call") w)) /\
  (w' = w \/ w' = said (Alert "Maximum 5 participants allowed in a group call") w) /\
  db w' = db w /\ localStream w' = localStream w /\ trackHeap w' = trackHeap w /\
  peerConnections w' = peerConnections w /\ pcHeap w' = pcHeap w /\
  timers w' = timers w /\ callState w' = callState w.
Proof.
  intros Hlen.
  assert (Hrun : forall u, user w = Some u -> webRTCService w = true ->
            startCall e receiverIds ty w
            = (Ok tt, said (Alert "Maximum 5 participants allowed in a group call") w)).
  { intros u Hu Hs. unfold startCall, bind at 1, gets. unfold bind at 1.
    rewrite Hu, Hs. rewrite bool_decide_eq_true_2; [done|].
    unfold MAX_PARTICIPANTS. lia. }
  assert (Hcases : (startCall e receiverIds ty w).2 = w \/
                   (startCall e receiverIds ty w).2
                   = said (Alert "Maximum 5 participants allowed in a group call") w).
  { destruct (user w) as [u|] eqn:Hu; [destruct (webRTCService w) eqn:Hs|].
    - right. by rewrite (Hrun u).
    - left. unfold startCall, bind at 1, gets. unfold bind at 1. by rewrite Hu, Hs.
    - left. unfold startCall, bind at 1, gets. unfold bind at 1. by rewrite Hu. }
  cbv zeta. split; [|split; [exact Hcases|]].
  - intros [u Hu] Hs. by apply (Hrun u).
  - destruct Hcases as [-> | ->]; by split_and!.
Qed.

Lemma startCall_rejects_more_than_five_witness :
  startCall (env_ok 1000) ["bob"; "carol"; "dave"; "erin"; "frank"] video
    (idle alice db_users)
  = (Ok tt, said (Alert "Maximum 5 participants allowed in a group call")
              (idle alice db_users)).
Proof.
  refine (proj1 (startCall_rejects_more_than_five (env_ok 1000) (idle alice db_users)
                   ["bob"; "carol"; "dave"; "erin"; "frank"] video _) _ _).
  - cbn. lia.
  - by eexists.
  - reflexivity.
Defined.

(** C6, as the design document states it, fails: there is no
    [TooManyParticipants] error.  Alice starts a call to five receivers,
    six participants in all: [startCall] does not fail, it returns after
    the alert. *)
Lemma six_participants_raise_no_error :
  length ["bob"; "carol"; "dave"; "erin"; "frank"] + 1 > 5 /\
  (startCall (env_ok 1000) ["bob"; "carol"; "dave"; "erin"; "frank"] video
     (idle alice db_users)).1 = Ok tt /\
  (forall err,
     (startCall (env_ok 1000) ["bob"; "carol"; "dave"; "erin"; "frank"] video
        (idle alice db_users)).1 <> Throw err) /\
  trace (startCall (env_ok 1000) ["bob"; "carol"; "dave"; "erin"; "frank"] video
           (idle alice db_users)).2
  = [Alert "Maximum 5 participants allowed in a group call"].
Proof.
  assert (Hrun : (startCall (env_ok 1000) ["bob"; "carol"; "dave"; "erin"; "frank"] video
                    (idle alice db_users)).1 = Ok tt).
  { vm_compute. reflexivity. }
  split_and!.
  - cbn. lia.
  - exact Hrun.
  - intros err Herr. rewrite Hrun in Herr. discriminate.
  - vm_compute. reflexivity.
Qed.

(* ===================================================================== *)
(** * The session record *)
(* ===================================================================== *)

Lemma session_ok_members d d' :
  participants d' = participants d -> isGroupCall d' = isGroupCall d ->
  session_ok d -> session_ok d'.
Proof. unfold session_ok. by intros -> ->. Qed.

Section channel_ok.
Local Abbreviation I := (fun w => channel_ok (db w)).

Lemma updateDoc_call_started e callId s t :
  preserves I (updateDoc_call e callId (started s t)).
Proof.
  intros w H. unfold updateDoc_call. destruct (writeOk e _); [|done].
  destruct (calls (db w) !! callId) as [d|] eqn:Hd; [|done].
  unfold channel_ok in *. cbn. intros i doc. rewrite lookup_insert. case_decide.
  - intros [= <-]. apply (session_ok_members d); [done..|]. by apply (H callId).
  - apply H.
Qed.

Lemma updateDoc_call_finished e callId s t :
  preserves I (updateDoc_call e callId (finished s t)).
Proof.
  intros w H. unfold updateDoc_call. destruct (writeOk e _); [|done].
  destruct (calls (db w) !! callId) as [d|] eqn:Hd; [|done].
  unfold channel_ok in *. cbn. intros i doc. rewrite lookup_insert. case_decide.
  - intros [= <-]. apply (session_ok_members d); [done..|]. by apply (H callId).
  - apply H.
Qed.

Lemma setDoc_offer_ok e callId r d : preserves I (setDoc_offer e callId r d).
Proof. intros w H. unfold setDoc_offer. by destruct (writeOk e _). Qed.

Lemma setDoc_answer_ok e callId r d : preserves I (setDoc_answer e callId r d).
Proof. intros w H. unfold setDoc_answer. by destruct (writeOk e _). Qed.


Hint Resolve updateDoc_call_started updateDoc_call_finished setDoc_offer_ok
  setDoc_answer_ok : preserves.


End channel_ok.




Lemma distinct_participants_NoDup d :
  NoDup (participants d) -> distinct_participants d = length (participants d).
Proof.
  intros Hnd. unfold distinct_participants. by apply size_list_to_set.
Qed.




(* ===================================================================== *)
(** * Offers: one connection per receiver *)
(* ===================================================================== *)

Lemma ready_to_offer_insert w ref pc' :
  ready_to_offer w -> offerable_pc pc' ->
  ready_to_offer (set_pcHeap <[ref := pc']> w).
Proof.
  intros Hw Hpc r d Hd. cbn in *. destruct (Hw r d Hd) as (pc & Hpc0 & Hoff).
  destruct (decide (ref = connection d)) as [->|Hne].
  - exists pc'. by rewrite lookup_insert_eq.
  - exists pc. by rewrite lookup_insert_ne.
Qed.

Lemma ready_to_offer_said w o : ready_to_offer w -> ready_to_offer (said o w).
Proof. intros Hw r d Hd. by apply (Hw r d). Qed.

Lemma createPeerConnection_fresh w remoteUserId :
  peerConnections w !! remoteUserId = None ->
  createPeerConnection remoteUserId w = newPeerConnection remoteUserId w.
Proof. intros Hd. unfold createPeerConnection, bind at 1, gets. by rewrite Hd. Qed.

(** Whatever the table holds for [remoteUserId], [createPeerConnection]
    leaves it with an open connection for it. *)
Lemma createPeerConnection_ok w remoteUserId :
  ready_to_offer w ->
  exists ref w' pc,
    createPeerConnection remoteUserId w = (Ok ref, w') /\
    pcHeap w' !! ref = Some pc /\
    (signalingState pc = stable \/ signalingState pc = have_local_offer) /\
    dom (peerConnections w') = dom (peerConnections w) ∪ {[remoteUserId]} /\
    ready_to_offer w' /\
    beside_links w' = beside_links w.
Proof.
  intros Hw.
  assert (Hnew : forall d0 : option PeerConnection,
    let h := match d0 with
             | Some d => alter pc_close (connection d) (pcHeap w)
             | None => pcHeap w
             end in
    peerConnections w !! remoteUserId = d0 ->
    let ref := fresh (dom (pcHeap w)) in
    let pc' := with_senders (attach (default [] (localStream w)) []) pc_new in
    forall tr,
    let w' := set_trace (fun _ => tr)
                (set_peerConnections (fun m => <[remoteUserId := entry remoteUserId ref]>
                                                 (delete remoteUserId m))
                   (set_pcHeap (fun _ => <[ref := pc']> h) w)) in
    pcHeap w' !! ref = Some pc' /\
    dom (peerConnections w') = dom (peerConnections w) ∪ {[remoteUserId]} /\
    ready_to_offer w').
  { intros d0 h Hd0 ref pc' tr w'. split_and!.
    - cbn. apply lookup_insert_eq.
    - cbn. rewrite dom_insert_L, dom_delete_L. apply set_eq. intros x.
      rewrite !elem_of_union, elem_of_difference, !elem_of_singleton.
      destruct (decide (x = remoteUserId)); naive_solver.
    - intros r d Hd. cbn in Hd |- *. rewrite lookup_insert in Hd.
      destruct (decide (remoteUserId = r)) as [<-|Hne].
      + injection Hd as <-. exists pc'. cbn. rewrite lookup_insert_eq.
        split; [done|]. right. by left.
      + rewrite lookup_delete_ne in Hd by done.
        destruct (Hw r d Hd) as (pc & Hpc & Hoff).
        assert (ref ≠ connection d) by (by apply (fresh_ref_new w _ pc)).
        rewrite lookup_insert_ne by done. subst h. destruct d0 as [d1|].
        * rewrite lookup_alter. destruct (decide (connection d1 = connection d)) as [->|].
          -- rewrite Hpc. exists (pc_close pc). split; [done|]. by left.
          -- by exists pc.
        * by exists pc. }
  destruct (peerConnections w !! remoteUserId) as [d|] eqn:Hd.
  - destruct (Hw _ _ Hd) as (pc & Hpc & Hoff).
    destruct (decide (connectionState pc = conn_closed)) as [Hc|Hc].
    + destruct (createPeerConnection_replace w remoteUserId d pc Hd Hpc Hc) as [tr Hrun].
      cbv zeta in Hrun.
      destruct (Hnew (Some d) eq_refl tr) as (H1 & H2 & H3).
      eexists _, _, _. split; [exact Hrun|]. split; [exact H1|]. split; [by left|].
      split; [exact H2|]. split; [exact H3|]. reflexivity.
    + exists (connection d), (said (Console log ("Using existing peer connection for "
                                                 +:+ remoteUserId)) w), pc.
      split; [by apply (createPeerConnection_reuse w remoteUserId d pc)|].
      split; [exact Hpc|]. split; [by destruct Hoff|].
      split; [|split; [by apply ready_to_offer_said|reflexivity]].
      cbn. apply set_eq. intros x. rewrite elem_of_union, elem_of_singleton.
      split; [by left|]. intros [?| ->]; [done|]. apply elem_of_dom. by eexists.
  - rewrite (createPeerConnection_fresh _ _ Hd).
    destruct (newPeerConnection_spec w remoteUserId) as [tr Hrun]. cbv zeta in Hrun.
    destruct (Hnew None eq_refl tr) as (H1 & H2 & H3). cbv zeta in H1, H2, H3.
    unfold set_trace, set_peerConnections, set_pcHeap in H2, H3. cbn in H2, H3.
    rewrite (delete_id (peerConnections w)) in H2, H3 by done.
    eexists _, _, _. split; [exact Hrun|]. split; [exact H1|]. split; [by left|].
    split; [exact H2|]. split; [exact H3|]. reflexivity.
Qed.

Lemma pc_query_ok {A} w ref (op : RTCPeerConnection -> Err + A) pc a :
  pcHeap w !! ref = Some pc -> op pc = inr a -> pc_query ref op w = (Ok a, w).
Proof.
  intros H Hop. unfold pc_query. rewrite (bind_ok _ _ _ _ _ (deref_ok _ _ _ H)).
  by rewrite Hop.
Qed.

Lemma beside_links_kept w w' :
  beside_links w' = beside_links w -> kept w' = kept w /\ offers (db w') = offers (db w).
Proof.
  unfold beside_links, outside, kept. intros H. simplify_eq.
  repeat match goal with Heq : _ = _ |- _ => rewrite Heq; clear Heq end. done.
Qed.

Lemma createOffer_ok e w remoteUserId :
  ready_to_offer w ->
  exists o w',
    createOffer e remoteUserId w = (Ok o, w') /\
    dtype o = offer /\
    dom (peerConnections w') = dom (peerConnections w) ∪ {[remoteUserId]} /\
    ready_to_offer w' /\
    beside_links w' = beside_links w.
Proof.
  intros Hw.
  destruct (createPeerConnection_ok w remoteUserId Hw)
    as (ref & w1 & pc & Hrun & Hpc & Hs & Hdom & Hw1 & Hrest).
  set (o := {| dtype := offer; sdp := sdpGen e offer |}).
  exists o, (set_pcHeap <[ref := offered o pc]> w1).
  split; [|split_and!; [done|exact Hdom| |exact Hrest]].
  - unfold createOffer. rewrite (bind_ok _ _ _ _ _ Hrun).
    apply try_catch_ok.
    erewrite bind_ok.
    2:{ apply (pc_query_ok _ _ _ pc); [done|]. unfold pc_createOffer.
        rewrite decide_False; [done|]. by destruct Hs as [-> | ->]. }
    erewrite bind_ok; [reflexivity|].
    apply (pc_call_ok _ _ _ pc); [done|].
    unfold pc_setLocalDescription, offered. by destruct Hs as [-> | ->].
  - apply ready_to_offer_insert; [done|]. right. by right.
Qed.

Lemma offer_to_ok e callId u r w :
  ready_to_offer w -> writeOk e (OfferPath callId r) = true ->
  exists o w',
    offer_to e callId u r w = (Ok tt, w') /\
    dtype o = offer /\
    dom (peerConnections w') = dom (peerConnections w) ∪ {[r]} /\
    ready_to_offer w' /\
    kept w' = kept w /\
    offers (db w') = <[(callId, r) := offer_doc e u r o]> (offers (db w)).
Proof.
  intros Hw Hwrite.
  destruct (createOffer_ok e w r Hw) as (o & w1 & Hrun & Ho & Hdom & Hw1 & Hrest).
  destruct (beside_links_kept _ _ Hrest) as [Hkept Hoffers].
  assert (Hin : is_Some (peerConnections w1 !! r)).
  { apply elem_of_dom. rewrite Hdom. set_solver. }
  destruct Hin as [d Hd].
  eexists o, _. split.
  { unfold offer_to. rewrite (bind_ok _ _ _ _ _ Hrun).
    unfold setDoc_offer. rewrite Hwrite.
    unfold bind at 1, modify. unfold bind at 1, listenForCandidates, modify.
    unfold setupRemoteStreamListener, bind, gets. cbn [peerConnections set_db
      set_unsubscribes]. rewrite Hd. reflexivity. }
  split; [done|]. split; [exact Hdom|]. split.
  { intros r' d' Hd'. by apply (Hw1 r' d'). }
  split.
  { unfold kept in *. cbn. simplify_eq.
    repeat match goal with Heq : _ = _ |- _ => rewrite Heq; clear Heq end. done. }
  cbn. by rewrite Hoffers.
Qed.

Lemma offers_loop e callId u rs w :
  ready_to_offer w -> (forall p, writeOk e p = true) ->
  exists w',
    forEach rs (offer_to e callId u) w = (Ok tt, w') /\
    ready_to_offer w' /\
    dom (peerConnections w') = dom (peerConnections w) ∪ list_to_set rs /\
    kept w' = kept w /\
    (forall r, r ∈ rs ->
       exists o, offers (db w') !! (callId, r) = Some (offer_doc e u r o) /\ dtype o = offer) /\
    (forall k, (forall r, r ∈ rs -> k ≠ (callId, r)) ->
       offers (db w') !! k = offers (db w) !! k).
Proof.
  intros Hw Hwrite. revert w Hw. induction rs as [|r rs IH]; intros w Hw.
  - exists w. split; [done|]. split; [done|]. split; [set_solver|]. split; [done|].
    split; [|done]. intros r Hr. by apply elem_of_nil in Hr.
  - destruct (offer_to_ok e callId u r w Hw (Hwrite _))
      as (o & w1 & Hrun & Ho & Hdom & Hw1 & Hkept & Hoffers).
    destruct (IH w1 Hw1) as (w' & Hloop & Hw' & Hdom' & Hkept' & Hall & Hother).
    exists w'. split.
    { cbn [forEach]. by rewrite (bind_ok _ _ _ _ _ Hrun). }
    split; [done|]. split.
    { rewrite Hdom', Hdom. set_solver. }
    split; [by rewrite Hkept'|]. split.
    + intros r' Hr'. destruct (decide (r' ∈ rs)) as [Hin|Hnin]; [by apply Hall|].
      apply elem_of_cons in Hr' as [->|?]; [|done].
      exists o. split; [|done]. rewrite Hother.
      * rewrite Hoffers. apply lookup_insert_eq.
      * intros r0 Hr0 [= ->]. done.
    + intros k Hk. rewrite Hother.
      * rewrite Hoffers. apply lookup_insert_ne. intros <-.
        apply (Hk r); [left|done].
      * intros r0 Hr0. apply Hk. by right.
Qed.

Lemma stopTracks_spec tracks w :
  stopTracks tracks w
  = (Ok tt, set_trackHeap (fun h => foldl (fun h t => alter track_stop t h) h tracks) w).
Proof.
  unfold stopTracks. revert w. induction tracks as [|t tracks IH]; intros w.
  - cbn. unfold ret, set_trackHeap. by rewrite World_eta.
  - cbn [forEach foldl]. unfold bind at 1, modify at 1. by rewrite IH.
Qed.

Lemma initializeLocalStream_ok e audioOnly w :
  hasMediaDevices e = true -> secureContext e = true -> gumError e = None ->
  exists s w',
    initializeLocalStream e audioOnly w = (Ok s, w') /\
    localStream w' = Some s /\
    peerConnections w' = peerConnections w /\ pcHeap w' = pcHeap w /\
    outside w' = outside w.
Proof.
  intros Hm Hs Hg. unfold initializeLocalStream. rewrite Hm, Hs.
  unfold try_catch, bind at 1, ret at 1. unfold bind at 1, ret at 1.
  unfold bind at 1, gets.
  assert (Hstop : exists w1,
    (match localStream w with Some ts => stopTracks ts | None => ret tt end) w = (Ok tt, w1)
    /\ peerConnections w1 = peerConnections w /\ pcHeap w1 = pcHeap w
    /\ outside w1 = outside w).
  { destruct (localStream w) as [ts|].
    - rewrite stopTracks_spec. by eexists.
    - by exists w. }
  destruct Hstop as (w1 & Hstop & Hp1 & Hh1 & Ho1).
  rewrite (bind_ok _ _ _ _ _ Hstop).
  unfold getUserMedia. rewrite Hg. destruct audioOnly.
  - unfold bind, alloc_track, modify, ret. cbn. eexists _, _. split; [reflexivity|].
    cbn. by rewrite Hp1, Hh1, <- Ho1.
  - unfold bind, alloc_track, modify, ret. cbn. eexists _, _. split; [reflexivity|].
    cbn. by rewrite Hp1, Hh1, <- Ho1.
Qed.

Lemma mapM_getUser l w :
  mapM getUser l w = (Ok ((fun i => users (db w) !! i) <$> l), w).
Proof.
  induction l as [|x l IH]; [done|].
  cbn [mapM]. unfold bind at 1, getUser at 1, gets. unfold bind at 1. by rewrite IH.
Qed.

Lemma setDoc_call_run e callId d w :
  receiverId d <> jundefined -> writeOk e (CallPath callId) = true ->
  setDoc_call e callId d w = (Ok tt, set_db (set_calls <[callId := d]>) w).
Proof.
  intros Hr Hw. unfold setDoc_call. rewrite Hw.
  by destruct (receiverId d), (ignoreUndefinedProperties e).
Qed.

Lemma new_call_doc_receiver e u rs ty :
  rs <> [] -> receiverId (new_call_doc e u rs ty) <> jundefined.
Proof. intros Hne. cbn. case_bool_decide; [done|]. by destruct rs. Qed.

Lemma updateDoc_call_run e callId f d w :
  writeOk e (CallPath callId) = true -> calls (db w) !! callId = Some d ->
  updateDoc_call e callId f w = (Ok tt, set_db (set_calls <[callId := f d]>) w).
Proof. intros Hw Hd. unfold updateDoc_call. by rewrite Hw, Hd. Qed.

(** What [startCall] does when capture works and the channel accepts the
    writes. *)
Lemma startCall_spec e w rs ty u :
  user w = Some u -> webRTCService w = true -> good_env e ->
  ready_to_offer w -> rs <> [] -> length rs <= 4 ->
  exists w',
    startCall e rs ty w = (Ok tt, w') /\
    ready_to_offer w' /\
    dom (peerConnections w') = dom (peerConnections w) ∪ list_to_set rs /\
    calls (db w') = <[autoId e := new_call_doc e u rs ty]> (calls (db w)) /\
    answers (db w') = answers (db w) /\
    (forall r, r ∈ rs ->
       exists o, offers (db w') !! (autoId e, r) = Some (offer_doc e u r o) /\
                 dtype o = offer) /\
    (forall k, (forall r, r ∈ rs -> k ≠ (autoId e, r)) ->
       offers (db w') !! k = offers (db w) !! k) /\
    timers w' = timers w ++ [{| delay := 2000; task := ActivateCall (autoId e) |}] /\
    cs_callId (callState w') = Some (autoId e) /\
    is_Some (localStream w').
Proof.
  intros Hu Hready (Hm & Hs & Hg & Hwrite) Hw Hne Hlen.
  unfold startCall, bind at 1, gets. unfold bind at 1. rewrite Hu, Hready.
  rewrite bool_decide_eq_false_2 by (unfold MAX_PARTICIPANTS; lia).
  match goal with |- exists w', try_catch ?m ?h ?w0 = _ /\ @?Q w' =>
    enough (Hb : exists w', m w0 = (Ok tt, w') /\ Q w');
      [destruct Hb as (w' & Hb & HQ); exists w';
       split; [by apply try_catch_ok|exact HQ]|] end.
  unfold bind at 1, setCallState at 1, modify at 1.
  match goal with |- context [bind (initializeLocalStream e ?b) _ ?w1] =>
    destruct (initializeLocalStream_ok e b w1 Hm Hs Hg)
      as (s & w2 & Hinit & Hls & Hp2 & Hh2 & Ho2) end.
  rewrite (bind_ok _ _ _ _ _ Hinit).
  erewrite bind_ok.
  2:{ apply (setDoc_call_run e (autoId e) (new_call_doc e u rs ty));
        [by apply new_call_doc_receiver|apply Hwrite]. }
  unfold bind at 1, setCallId at 1, modify at 1.
  match goal with |- context [bind (forEach rs _) _ ?w4] =>
    destruct (offers_loop e (autoId e) u rs w4)
      as (w5 & Hloop & Hw5 & Hdom & Hkept & Hall & Hother) end.
  { intros r d Hd. cbn in Hd. rewrite Hp2 in Hd. cbn in Hd.
    destruct (Hw r d Hd) as (pc & Hpc & Hoff). exists pc. cbn. rewrite Hh2. by cbn. }
  { exact Hwrite. }
  rewrite (bind_ok _ _ _ _ _ Hloop).
  rewrite (bind_ok _ _ _ _ _ (mapM_getUser rs w5)).
  unfold bind, setCallState, setTimeout, modify.
  eexists. split; [reflexivity|].
  unfold kept, outside in *. cbn in *. simplify_eq.
  split_and!.
  - intros r d Hd. by apply (Hw5 r d).
  - rewrite Hdom. by rewrite Hp2.
  - congruence.
  - congruence.
  - exact Hall.
  - intros k Hk. rewrite Hother by done. congruence.
  - congruence.
  - reflexivity.
  - match goal with H : localStream w5 = _ |- _ => rewrite H end. by eexists.
Qed.

(* ===================================================================== *)
(** * Answers: one connection back to the caller *)
(* ===================================================================== *)

Lemma createAnswer_fresh e w remoteUserId o :
  peerConnections w !! remoteUserId = None -> dtype o = offer ->
  let ref := fresh (dom (pcHeap w)) in
  let a := {| dtype := answer; sdp := sdpGen e answer |} in
  exists tr,
    createAnswer e remoteUserId o w
    = (Ok a,
       set_trace (fun _ => tr)
         (set_peerConnections <[remoteUserId := entry remoteUserId ref]>
            (set_pcHeap <[ref := answering o a (default [] (localStream w))]> w))).
Proof.
  intros Hd Ho ref a. unfold createAnswer.
  destruct (newPeerConnection_spec w remoteUserId) as [tr Hrun]. cbv zeta in Hrun.
  fold ref in Hrun. rewrite <- (createPeerConnection_fresh _ _ Hd) in Hrun.
  rewrite (bind_ok _ _ _ _ _ Hrun). exists tr.
  set (pc0 := with_senders (attach (default [] (localStream w)) []) pc_new) in *.
  erewrite try_catch_ok; [reflexivity|].
  erewrite bind_ok.
  2:{ apply (pc_call_ok _ _ _ pc0); [cbn; apply lookup_insert_eq|].
      unfold pc_setRemoteDescription. rewrite Ho. cbn. reflexivity. }
  erewrite bind_ok.
  2:{ eapply pc_query_ok; [cbn; apply lookup_insert_eq|]. cbn. reflexivity. }
  erewrite bind_ok.
  2:{ eapply pc_call_ok; [cbn; apply lookup_insert_eq|]. cbn. reflexivity. }
  unfold ret. f_equal. unfold set_trace, set_peerConnections, set_pcHeap. cbn.
  by rewrite !insert_insert_eq.
Qed.

(** What [answerCall] does when capture works, the channel accepts the
    writes, the offer addressed to this client is there, and the client has
    no connection to the sender of the offer yet. *)
Lemma answerCall_spec e w callId u ic od cdoc :
  user w = Some u -> webRTCService w = true -> incomingCall w = Some ic ->
  good_env e ->
  offers (db w) !! (callId, uid u) = Some od -> dtype (description od) = offer ->
  calls (db w) !! callId = Some cdoc ->
  peerConnections w !! fromUserId od = None ->
  exists w' ref a tracks,
    answerCall e callId w = (Ok tt, w') /\
    peerConnections w'
    = <[fromUserId od := entry (fromUserId od) ref]> (peerConnections w) /\
    pcHeap w' = <[ref := answering (description od) a tracks]> (pcHeap w) /\
    pcHeap w !! ref = None /\
    dtype a = answer /\
    localStream w' = Some tracks /\
    answers (db w')
    = <[(callId, uid u) := answer_doc e u (fromUserId od) a]> (answers (db w)) /\
    calls (db w') = <[callId := started active (now e) cdoc]> (calls (db w)) /\
    offers (db w') = offers (db w) /\
    timers w' = timers w /\
    incomingCall w' = None.
Proof.
  intros Hu Hready Hic (Hm & Hs & Hg & Hwrite) Hod Ho Hcall Hnone.
  unfold answerCall. do 3 run_step. rewrite Hu, Hready, Hic.
  match goal with |- exists w' ref a tracks, try_catch ?m ?h ?w0 = _ /\ @?Q w' ref a tracks =>
    enough (Hb : exists w' ref a tracks, m w0 = (Ok tt, w') /\ Q w' ref a tracks);
      [destruct Hb as (w' & ref & a & tracks & Hb & HQ); exists w', ref, a, tracks;
       split; [by apply try_catch_ok|exact HQ]|] end.
  destruct (initializeLocalStream_ok e (bool_decide (type (data ic) = voice)) w Hm Hs Hg)
    as (s & w1 & Hinit & Hls & Hp1 & Hh1 & Ho1).
  rewrite (bind_ok _ _ _ _ _ Hinit).
  unfold setCallId, setCallState, setIncomingCall, listenForCandidates.
  do 2 run_step.
  unfold outside in Ho1. simplify_eq.
  cbn [db set_callId].
  match goal with H : db w1 = db w |- _ => rewrite H end. rewrite Hod.
  edestruct (createAnswer_fresh e (set_callId (Some callId) w1) (fromUserId od)
               (description od)) as [tr Hans]; [by (cbn; rewrite Hp1)|done|].
  cbv zeta in Hans.
  erewrite (bind_ok (bind (createAnswer _ _ _) _)).
  2:{ rewrite (bind_ok _ _ _ _ _ Hans). unfold setDoc_answer. rewrite Hwrite.
      do 2 run_step. unfold setupRemoteStreamListener. run_step.
      cbn [peerConnections set_db set_unsubscribes set_trace set_peerConnections].
      rewrite lookup_insert_eq. reflexivity. }
  erewrite bind_ok.
  2:{ apply (updateDoc_call_run _ _ _ cdoc); [apply Hwrite|]. cbn.
      match goal with H : db w1 = db w |- _ => by rewrite H end. }
  rewrite (bind_ok _ _ _ _ _ (mapM_getUser _ _)).
  run_step. rewrite modify_run.
  eexists _, (fresh (dom (pcHeap w1))), _, s. split; [reflexivity|].
  cbn. rewrite Hp1, Hh1, Hls.
  repeat match goal with H : _ w1 = _ w |- _ => rewrite H; clear H end.
  split_and!; try reflexivity.
  apply not_elem_of_dom. apply is_fresh.
Qed.

(* ===================================================================== *)
(** * Ending a call *)
(* ===================================================================== *)

Lemma foldl_alter_lookup {V} (g : V -> V) (ks : list nat) (h : gmap nat V) (k : nat) :
  (forall v, g (g v) = g v) ->
  foldl (fun h k => alter g k h) h ks !! k
  = if decide (k ∈ ks) then g <$> h !! k else h !! k.
Proof.
  intros Hg. revert h. induction ks as [|k0 ks IH]; intros h; [done|].
  cbn [foldl]. rewrite IH, lookup_alter.
  destruct (decide (k0 = k)) as [->|Hne].
  - rewrite (decide_True (P := k ∈ k :: ks)) by left.
    destruct (decide (k ∈ ks)); [|done]. destruct (h !! k); cbn; [by rewrite Hg|done].
  - destruct (decide (k ∈ ks)) as [Hin|Hnin].
    + by rewrite (decide_True (P := k ∈ k0 :: ks)) by (by right).
    + rewrite (decide_False (P := k ∈ k0 :: ks)); [done|].
      intros [->|?]%elem_of_cons; done.
Qed.

Lemma stop_all_lookup tracks h t tr :
  t ∈ tracks -> h !! t = Some tr -> stop_all tracks h !! t = Some (track_stop tr).
Proof.
  intros Hin Ht. unfold stop_all. rewrite foldl_alter_lookup by done.
  rewrite decide_True by done. by rewrite Ht.
Qed.

Lemma close_all_lookup entries h r d pc :
  (r, d) ∈ entries -> h !! connection d = Some pc ->
  close_all entries h !! connection d = Some (pc_close pc).
Proof.
  intros Hin Hpc. unfold close_all.
  rewrite <- (foldl_fmap (fun h k => alter pc_close k h) h entries
                (fun entry => connection entry.2)).
  rewrite foldl_alter_lookup by done.
  rewrite decide_True; [by rewrite Hpc|].
  apply list_elem_of_fmap. by exists (r, d).
Qed.

Lemma forEach_close entries w :
  forEach entries (fun entry => modify (set_pcHeap (alter pc_close (connection entry.2)))) w
  = (Ok tt, set_pcHeap (close_all entries) w).
Proof.
  revert w. induction entries as [|x entries IH]; intros w.
  - cbn. unfold ret, set_pcHeap. by rewrite World_eta.
  - cbn [forEach]. rewrite bind_modify, IH. reflexivity.
Qed.

(** [cleanup] stops the tracks of the local stream, closes the connection
    of every entry and empties the table. *)
Lemma cleanup_spec w :
  exists w',
    cleanup w = (Ok tt, w') /\
    peerConnections w' = ∅ /\
    pcHeap w' = close_all (map_to_list (peerConnections w)) (pcHeap w) /\
    localStream w' = None /\
    trackHeap w' = stop_all (default [] (localStream w)) (trackHeap w) /\
    unsubscribes w' = [] /\ callId w' = None /\
    outside w' = outside w.
Proof.
  unfold cleanup. run_step.
  destruct (localStream w) as [tracks|] eqn:Hls.
  - erewrite bind_ok.
    2:{ rewrite (bind_ok _ _ _ _ _ (stopTracks_spec tracks w)). apply modify_run. }
    run_step. cbn [peerConnections set_localStream set_trackHeap].
    erewrite bind_ok by apply forEach_close.
    do 2 run_step. rewrite modify_run. eexists. split; [reflexivity|]. by cbn.
  - do 2 run_step. erewrite bind_ok by apply forEach_close.
    do 2 run_step. rewrite modify_run. eexists. split; [reflexivity|]. by cbn.
Qed.

(** What [endCall] does when the channel accepts the status write. *)
Lemma endCall_spec e w callId cdoc :
  cs_callId (callState w) = Some callId -> webRTCService w = true ->
  writeOk e (CallPath callId) = true -> calls (db w) !! callId = Some cdoc ->
  exists w',
    endCall e w = (Ok tt, w') /\
    calls (db w') = <[callId := finished ended (now e) cdoc]> (calls (db w)) /\
    peerConnections w' = ∅ /\
    (forall r d pc, peerConnections w !! r = Some d ->
                    pcHeap w !! connection d = Some pc ->
                    pcHeap w' !! connection d = Some (pc_close pc)) /\
    localStream w' = None /\
    (forall tracks t tr, localStream w = Some tracks -> t ∈ tracks ->
                         trackHeap w !! t = Some tr ->
                         trackHeap w' !! t = Some (track_stop tr)) /\
    callState w' = initialCallState /\ incomingCall w' = None /\
    timers w' = timers w.
Proof.
  intros Hid Hready Hwrite Hdoc. unfold endCall. do 2 run_step. rewrite Hid, Hready.
  destruct (cleanup_spec (set_db (set_calls <[callId := finished ended (now e) cdoc]>) w))
    as (w1 & Hclean & Hp & Hh & Hls & Hth & _ & _ & Hout).
  exists (set_incomingCall None (set_callState (fun _ => initialCallState) w1)).
  split.
  { apply try_catch_ok.
    rewrite (bind_ok _ _ _ _ _ (updateDoc_call_run _ _ _ _ _ Hwrite Hdoc)).
    rewrite (bind_ok _ _ _ _ _ Hclean). unfold setCallState, setIncomingCall.
    run_step. apply modify_run. }
  unfold outside in Hout. simplify_eq. cbn in *.
  split_and!; try done.
  - match goal with H : db w1 = _ |- _ => by rewrite H end.
  - intros r d pc Hd Hpc. rewrite Hh. apply (close_all_lookup _ _ r); [|done].
    by apply elem_of_map_to_list.
  - intros tracks t tr Hls' Hin Ht. rewrite Hth, Hls'. by apply stop_all_lookup.
Qed.

(** When the channel rejects the status write, [endCall] logs the error and
    does nothing else. *)
Lemma endCall_write_rejected e w callId :
  cs_callId (callState w) = Some callId -> webRTCService w = true ->
  writeOk e (CallPath callId) = false ->
  endCall e w = (Ok tt, said (Console error "Error ending call:") w).
Proof.
  intros Hid Hready Hwrite. unfold endCall. do 2 run_step. rewrite Hid, Hready.
  erewrite try_catch_throw; [reflexivity|].
  apply bind_throw. unfold updateDoc_call. by rewrite Hwrite.
Qed.

(** C4 at the failing input.  Alice is in an active call with Bob and hangs
    up while the channel rejects the write of the new status.  [endCall]
    returns normally after logging the error, and nothing has been cleaned
    up: the connection to Bob is still in the table and not closed, the
    local stream is still held, both of its tracks are still live, and the
    session is still active. *)
Theorem endCall_cleans_nothing_when_the_write_fails :
  let w' := (endCall (env_rejecting 9000) w_active).2 in
  (status <$> calls (db w_active) !! "call-1") = Some active /\
  endCall (env_rejecting 9000) w_active
  = (Ok tt, said (Console error "Error ending call:") w_active) /\
  peerConnections w' !! "bob" = Some link_bob /\
  (signalingState <$> pcHeap w' !! 0) = Some stable /\
  (connectionState <$> pcHeap w' !! 0) = Some conn_new /\
  localStream w' = Some [0; 1] /\
  (readyState <$> trackHeap w' !! 0) = Some live /\
  (readyState <$> trackHeap w' !! 1) = Some live /\
  (status <$> calls (db w') !! "call-1") = Some active.
Proof.
  assert (Hrun : endCall (env_rejecting 9000) w_active
                 = (Ok tt, said (Console error "Error ending call:") w_active)).
  { apply (endCall_write_rejected _ _ "call-1").
    - vm_compute. reflexivity.
    - vm_compute. reflexivity.
    - vm_compute. reflexivity. }
  cbv zeta. rewrite Hrun.
  split_and!.
  - vm_compute. reflexivity.
  - exact Hrun.
  - vm_compute. reflexivity.
  - vm_compute. reflexivity.
  - vm_compute. reflexivity.
  - vm_compute. reflexivity.
  - vm_compute. reflexivity.
  - vm_compute. reflexivity.
  - vm_compute. reflexivity.
Qed.

(* ===================================================================== *)
(** * Sessions that are over *)
(* ===================================================================== *)

(** C5, as the code has it.  Neither [endCall] nor [answerCall] looks at
    the status of the session, and nothing raises an error for a session
    that is ended or missed.  On such a session [endCall], when the channel
    accepts the write, sets the status to ended with a new [endedAt] and
    releases connections and media; and [answerCall], for a client that
    still holds the session as its incoming call and finds the offer
    addressed to it, acquires media, creates the connection to the caller
    and sets the status to active. *)
Theorem terminal_sessions_are_not_protected (e : Env) (w : World) (callId : string)
    (cdoc : CallDoc) :
  calls (db w) !! callId = Some cdoc ->
  status cdoc = ended \/ status cdoc = missed ->
  good_env e -> webRTCService w = true ->
  (cs_callId (callState w) = Some callId ->
     exists w',
       endCall e w = (Ok tt, w') /\
       calls (db w') !! callId = Some (finished ended (now e) cdoc) /\
       peerConnections w' = ∅ /\ localStream w' = None /\
       callState w' = initialCallState) /\
  (forall u ic od,
     user w = Some u -> incomingCall w = Some ic ->
     offers (db w) !! (callId, uid u) = Some od -> dtype (description od) = offer ->
     peerConnections w !! fromUserId od = None ->
     exists w',
       answerCall e callId w = (Ok tt, w') /\
       calls (db w') !! callId = Some (started active (now e) cdoc) /\
       is_Some (localStream w') /\
       is_Some (peerConnections w' !! fromUserId od) /\
       is_Some (answers (db w') !! (callId, uid u))).
Proof.
  intros Hdoc _ He Hready. split.
  - intros Hid.
    destruct (endCall_spec e w callId cdoc Hid Hready) as
      (w' & Hrun & Hcalls & Hp & _ & Hls & _ & Hcs & _); [apply He|done|].
    exists w'. rewrite Hcalls, lookup_insert_eq. by split_and!.
  - intros u ic od Hu Hic Hod Ho Hnone.
    destruct (answerCall_spec e w callId u ic od cdoc Hu Hready Hic He Hod Ho Hdoc Hnone)
      as (w' & ref & a & tracks & Hrun & Htable & _ & _ & _ & Hls & Hans & Hcalls & _).
    exists w'. rewrite Hcalls, Htable, Hans, Hls, !lookup_insert_eq. by split_and!.
Qed.

Lemma terminal_sessions_are_not_protected_witness :
  (exists w', endCall (env_ok 3000) alice_declined = (Ok tt, w') /\
              (status <$> calls (db w') !! "call-1") = Some ended) /\
  (exists w', answerCall (env_ok 2000) "call-1" bob_late = (Ok tt, w') /\
              (status <$> calls (db w') !! "call-1") = Some active).
Proof.
  assert (Hgood : forall t, good_env (env_ok t)) by (intros t; by split_and!).
  split.
  - assert (Hdoc : calls (db alice_declined) !! "call-1"
                   = Some (finished missed 1500
                             (new_call_doc (env_ok 1000) alice ["bob"] video))).
    { vm_compute. reflexivity. }
    destruct (terminal_sessions_are_not_protected (env_ok 3000) alice_declined "call-1"
                _ Hdoc (or_intror eq_refl) (Hgood _)) as [Hend _].
    { vm_compute. reflexivity. }
    destruct Hend as (w' & Hrun & Hcalls & _).
    { vm_compute. reflexivity. }
    exists w'. split; [exact Hrun|]. by rewrite Hcalls.
  - assert (Hdoc : calls (db bob_late) !! "call-1"
                   = Some (finished ended 1500
                             (new_call_doc (env_ok 1000) alice ["bob"] video))).
    { vm_compute. reflexivity. }
    destruct (terminal_sessions_are_not_protected (env_ok 2000) bob_late "call-1"
                _ Hdoc (or_introl eq_refl) (Hgood _)) as [_ Hans].
    { vm_compute. reflexivity. }
    destruct (Hans bob call_to_bob
                (offer_doc (env_ok 1000) alice "bob" {| dtype := offer; sdp := "v=0 offer" |}))
      as (w' & Hrun & Hcalls & _).
    + vm_compute. reflexivity.
    + vm_compute. reflexivity.
    + vm_compute. reflexivity.
    + reflexivity.
    + vm_compute. reflexivity.
    + exists w'. split; [exact Hrun|]. by rewrite Hcalls.
Defined.

(** C5, as the design document states it, fails.  Bob answers a call that
    Alice has already ended: [answerCall] returns normally, Bob's camera and
    microphone are acquired and the session is active again.  Alice hangs up
    a call that Bob has declined: [endCall] returns normally and the status
    of the session changes from missed to ended. *)
Lemma an_ended_call_can_be_answered :
  (status <$> calls (db bob_late) !! "call-1") = Some ended /\
  (answerCall (env_ok 2000) "call-1" bob_late).1 = Ok tt /\
  (status <$> calls (db (answerCall (env_ok 2000) "call-1" bob_late).2) !! "call-1")
  = Some active /\
  localStream (answerCall (env_ok 2000) "call-1" bob_late).2 = Some [0; 1] /\
  (status <$> calls (db alice_declined) !! "call-1") = Some missed /\
  (endCall (env_ok 3000) alice_declined).1 = Ok tt /\
  (status <$> calls (db (endCall (env_ok 3000) alice_declined).2) !! "call-1")
  = Some ended.
Proof.
  split_and!.
  - vm_compute. reflexivity.
  - vm_compute. reflexivity.
  - vm_compute. reflexivity.
  - vm_compute. reflexivity.
  - vm_compute. reflexivity.
  - vm_compute. reflexivity.
  - vm_compute. reflexivity.
Qed.

(* ===================================================================== *)
(** * The ring timer *)
(* ===================================================================== *)

Section timer_kept.
Context (n : nat) (t : Timer).
Local Abbreviation I := (fun w => timers w !! n = Some t).

Lemma updateDoc_call_keeps_timer e callId f : preserves I (updateDoc_call e callId f).
Proof.
  intros w H. unfold updateDoc_call. destruct (writeOk e _); [|done].
  by destruct (calls (db w) !! callId).
Qed.

Lemma setDoc_call_keeps_timer e callId d : preserves I (setDoc_call e callId d).
Proof.
  intros w H. unfold setDoc_call.
  by destruct (receiverId d), (ignoreUndefinedProperties e),
       (writeOk e (CallPath callId)).
Qed.

Lemma setDoc_offer_keeps_timer e callId r d : preserves I (setDoc_offer e callId r d).
Proof. intros w H. unfold setDoc_offer. by destruct (writeOk e _). Qed.

Lemma setDoc_answer_keeps_timer e callId r d : preserves I (setDoc_answer e callId r d).
Proof. intros w H. unfold setDoc_answer. by destruct (writeOk e _). Qed.

Lemma setTimeout_keeps_timer task ms : preserves I (setTimeout task ms).
Proof. intros w H. cbn. by apply lookup_app_l_Some. Qed.

Hint Resolve updateDoc_call_keeps_timer setDoc_call_keeps_timer setDoc_offer_keeps_timer
  setDoc_answer_keeps_timer setTimeout_keeps_timer : preserves.

(** Only the firing of a timer takes a timer off the list. *)
Lemma perform_keeps_timer e a :
  (forall m, a <> DoFireTimer m) -> preserves I (perform e a).
Proof.
  intros Hnf. destruct a; cbn [perform].
  - unfold startCall, offer_to, setCallState. provider_auto.
  - unfold answerCall, setCallState, setIncomingCall. provider_auto.
  - unfold declineCall, clearReceiving, setCallState, setIncomingCall. provider_auto.
  - unfold endCall, setCallState, setIncomingCall. provider_auto.
  - unfold toggleMute, setCallState. provider_auto.
  - unfold toggleVideoOff, setCallState. provider_auto.
  - by destruct (Hnf n0).
  - unfold onCallAdded, setCallState, setIncomingCall. provider_auto.
  - unfold onCallModified, clearReceiving, setCallState, setIncomingCall. provider_auto.
  - unfold onCallRemoved, clearReceiving, setCallState, setIncomingCall. provider_auto.
  - provider_auto.
  - provider_auto.
  - provider_auto.
  - provider_auto.
Qed.
End timer_kept.

(** C2, as the code has it.  The transition that [startCall] schedules is
    a plain timeout.  No handler takes a pending timer off the list: after
    [endCall], [declineCall] or any other handler the timer is still
    pending.  When it fires and the channel accepts the write, the session
    record gets status active and a new [startedAt] whatever its status
    was, ended and missed included. *)
Theorem ring_timer_is_not_cancelled (e : Env) (w : World) (n : nat) (t : Timer)
    (callRef : string) :
  timers w !! n = Some t -> task t = ActivateCall callRef ->
  (forall e' a, (forall m, a <> DoFireTimer m) ->
                timers (perform e' a w).2 !! n = Some t) /\
  (forall cdoc, calls (db w) !! callRef = Some cdoc ->
                writeOk e (CallPath callRef) = true ->
     exists w',
       fireTimer e n w = (Ok tt, w') /\
       calls (db w') !! callRef = Some (started active (now e) cdoc) /\
       status (started active (now e) cdoc) = active /\
       timers w' = take n (timers w) ++ drop (S n) (timers w)).
Proof.
  intros Ht Htask. split.
  - intros e' a Hnf. by apply (perform_keeps_timer n t e' a Hnf w).
  - intros cdoc Hdoc Hwrite. unfold fireTimer. run_step. rewrite Ht. run_step.
    rewrite Htask. cbn [runTask].
    erewrite updateDoc_call_run; [|done|done].
    eexists. split; [reflexivity|]. cbn. by rewrite lookup_insert_eq.
Qed.

Lemma ring_timer_is_not_cancelled_witness :
  timers (endCall (env_ok 1500) w_ringing).2 !! 0
  = Some {| delay := 2000; task := ActivateCall "call-1" |} /\
  exists w',
    fireTimer (env_ok 3000) 0 (endCall (env_ok 1500) w_ringing).2 = (Ok tt, w') /\
    (status <$> calls (db w') !! "call-1") = Some active.
Proof.
  assert (Ht : timers w_ringing !! 0 = Some {| delay := 2000; task := ActivateCall "call-1" |}).
  { vm_compute. reflexivity. }
  assert (Hkept : timers (endCall (env_ok 1500) w_ringing).2 !! 0
                  = Some {| delay := 2000; task := ActivateCall "call-1" |}).
  { refine (proj1 (ring_timer_is_not_cancelled (env_ok 1500) w_ringing 0 _ "call-1"
                     Ht eq_refl) (env_ok 1500) DoEndCall _).
    intros m. discriminate. }
  split; [exact Hkept|].
  destruct (proj2 (ring_timer_is_not_cancelled (env_ok 3000)
                     (endCall (env_ok 1500) w_ringing).2 0 _ "call-1" Hkept eq_refl)
              (finished ended 1500 (new_call_doc (env_ok 1000) alice ["bob"] video)))
    as (w' & Hrun & Hcalls & _).
  - vm_compute. reflexivity.
  - reflexivity.
  - exists w'. split; [exact Hrun|]. by rewrite Hcalls.
Defined.

(** C2, as the design document states it, fails.  Alice starts a call to
    Bob and ends it before the ring delay has elapsed.  The session is
    ended and the timer is still pending; when it fires, the session is
    active. *)
Lemma ring_timer_revives_an_ended_call :
  let w1 := (endCall (env_ok 1500) w_ringing).2 in
  let w2 := (fireTimer (env_ok 3000) 0 w1).2 in
  (status <$> calls (db w_ringing) !! "call-1") = Some ringing /\
  (status <$> calls (db w1) !! "call-1") = Some ended /\
  timers w1 = [{| delay := 2000; task := ActivateCall "call-1" |}] /\
  (fireTimer (env_ok 3000) 0 w1).1 = Ok tt /\
  (status <$> calls (db w2) !! "call-1") = Some active.
Proof.
  cbv zeta. split_and!.
  - vm_compute. reflexivity.
  - vm_compute. reflexivity.
  - vm_compute. reflexivity.
  - vm_compute. reflexivity.
  - vm_compute. reflexivity.
Qed.

(* ===================================================================== *)
(** * The record of a new session *)
(* ===================================================================== *)

(** The record [startCall] writes: the caller followed by the receivers as
    given, flagged as a group call when there is more than one receiver. *)
Lemma startCall_creates_record e w rs ty u :
  user w = Some u -> webRTCService w = true -> good_env e ->
  ready_to_offer w -> rs <> [] -> length rs <= 4 ->
  exists w' doc,
    startCall e rs ty w = (Ok tt, w') /\
    calls (db w') !! autoId e = Some doc /\
    participants doc = uid u :: rs /\
    isGroupCall doc = bool_decide (1 < length rs) /\
    status doc = ringing /\
    session_ok doc.
Proof.
  intros Hu Hready He Hw Hne Hlen.
  destruct (startCall_spec e w rs ty u Hu Hready He Hw Hne Hlen)
    as (w' & Hrun & _ & _ & Hcalls & _).
  exists w', (new_call_doc e u rs ty). split; [exact Hrun|].
  rewrite Hcalls, lookup_insert_eq. split_and!; try reflexivity.
  unfold session_ok. cbn. destruct rs as [|r rs]; [done|]. cbn in *.
  split; [lia|]. apply bool_decide_ext. lia.
Qed.

(* ===================================================================== *)
(** * Acquiring the local stream *)
(* ===================================================================== *)

Lemma stop_all_other tracks h t :
  t ∉ tracks -> stop_all tracks h !! t = h !! t.
Proof.
  intros Hnin. unfold stop_all. rewrite foldl_alter_lookup by done.
  by rewrite decide_False.
Qed.

Lemma stop_all_dom tracks (h : gmap nat MediaStreamTrack) : dom (stop_all tracks h) = dom h.
Proof.
  unfold stop_all. revert h. induction tracks as [|t tracks IH]; intros h; [done|].
  cbn [foldl]. by rewrite IH, dom_alter_L.
Qed.

Lemma initializeLocalStream_run e audioOnly w :
  hasMediaDevices e = true -> secureContext e = true -> gumError e = None ->
  let h0 := stop_all (default [] (localStream w)) (trackHeap w) in
  initializeLocalStream e audioOnly w
  = (Ok (acquire audioOnly h0).1,
     set_localStream (Some (acquire audioOnly h0).1)
       (set_trackHeap (fun _ => (acquire audioOnly h0).2) w)).
Proof.
  intros Hm Hs Hg h0. unfold initializeLocalStream. rewrite Hm, Hs.
  apply try_catch_ok. do 3 run_step.
  assert (Hstop :
    (match localStream w with Some ts => stopTracks ts | None => ret tt end) w
    = (Ok tt, set_trackHeap (fun _ => h0) w)).
  { subst h0. destruct (localStream w) as [ts|]; cbn [default].
    - by rewrite stopTracks_spec.
    - unfold ret, set_trackHeap, stop_all. cbn. by rewrite World_eta. }
  rewrite (bind_ok _ _ _ _ _ Hstop).
  unfold getUserMedia. rewrite Hg. unfold acquire.
  destruct audioOnly; reflexivity.
Qed.

(** X1.  When capture is available, [initializeLocalStream] returns a new
    stream and keeps it as the local stream.  Every track of the stream held
    before has been stopped; the tracks of the new stream are new objects,
    live and enabled: one audio track, followed by one video track unless
    only audio was asked for.  Tracks of no stream, connections and
    everything outside the service are left alone. *)
Theorem initializeLocalStream_replaces_the_stream (e : Env) (audioOnly : bool) (w : World) :
  hasMediaDevices e = true -> secureContext e = true -> gumError e = None ->
  exists s w',
    initializeLocalStream e audioOnly w = (Ok s, w') /\
    localStream w' = Some s /\
    NoDup s /\
    ((fun t => kind <$> trackHeap w' !! t) <$> s)
    = (if audioOnly then [Some audio_track] else [Some audio_track; Some video_track]) /\
    (forall t, t ∈ s ->
       trackHeap w !! t = None /\
       exists tr, trackHeap w' !! t = Some tr /\ readyState tr = live /\ enabled tr = true) /\
    (forall t tr, trackHeap w !! t = Some tr ->
       trackHeap w' !! t
       = Some (if bool_decide (t ∈ default [] (localStream w)) then track_stop tr else tr)) /\
    peerConnections w' = peerConnections w /\ pcHeap w' = pcHeap w /\
    outside w' = outside w.
Proof.
  intros Hm Hs Hg.
  rewrite (initializeLocalStream_run e audioOnly w Hm Hs Hg). cbv zeta.
  set (old := default [] (localStream w)).
  set (h0 := stop_all old (trackHeap w)).
  assert (Hold : forall t tr, trackHeap w !! t = Some tr ->
            h0 !! t = Some (if bool_decide (t ∈ old) then track_stop tr else tr)).
  { intros t tr Ht. subst h0. case_bool_decide.
    - by apply stop_all_lookup.
    - by rewrite stop_all_other. }
  assert (Hfresh0 : forall t, t ∉ dom h0 -> trackHeap w !! t = None).
  { intros t Ht. subst h0. rewrite stop_all_dom in Ht. by apply not_elem_of_dom. }
  set (a := fresh (dom h0)).
  assert (Ha : a ∉ dom h0) by apply is_fresh.
  eexists _, _. split; [reflexivity|]. unfold acquire. fold a.
  destruct audioOnly; cbn [fst snd localStream set_localStream set_trackHeap trackHeap
                            peerConnections pcHeap].
  - split_and!; try reflexivity.
    + apply NoDup_singleton.
    + cbn. by rewrite lookup_insert_eq.
    + intros t ->%list_elem_of_singleton. split; [by apply Hfresh0|].
      exists (new_track audio_track). by rewrite lookup_insert_eq.
    + intros t tr Ht. rewrite lookup_insert_ne; [by apply Hold|].
      intros <-. apply Hfresh0 in Ha. congruence.
  - set (h1 := <[a := new_track audio_track]> h0).
    set (v := fresh (dom h1)).
    assert (Hv : v ∉ dom h1) by apply is_fresh.
    assert (Hva : v ≠ a).
    { intros Heq. apply Hv. rewrite Heq. subst h1. rewrite dom_insert_L. set_solver. }
    assert (Hv0 : v ∉ dom h0).
    { intros Hin. apply Hv. subst h1. rewrite dom_insert_L. set_solver. }
    split_and!; try reflexivity.
    + apply NoDup_cons. split; [|apply NoDup_singleton].
      intros Hin%list_elem_of_singleton. by apply Hva.
    + cbn. rewrite lookup_insert_eq. rewrite lookup_insert_ne by done.
      subst h1. by rewrite lookup_insert_eq.
    + intros t [->|Ht%list_elem_of_singleton]%elem_of_cons.
      * split; [by apply Hfresh0|]. exists (new_track audio_track).
        rewrite lookup_insert_ne by done. subst h1. by rewrite lookup_insert_eq.
      * subst t. split; [by apply Hfresh0|]. exists (new_track video_track).
        by rewrite lookup_insert_eq.
    + intros t tr Ht.
      rewrite lookup_insert_ne.
      2:{ intros <-. apply Hfresh0 in Hv0. congruence. }
      subst h1. rewrite lookup_insert_ne; [by apply Hold|].
      intros <-. apply Hfresh0 in Ha. congruence.
Qed.

Lemma initializeLocalStream_replaces_the_stream_witness :
  exists w', initializeLocalStream (env_ok 5000) true w_answered = (Ok [2], w') /\
             (readyState <$> trackHeap w' !! 0) = Some track_ended.
Proof.
  destruct (initializeLocalStream_replaces_the_stream (env_ok 5000) true w_answered
              eq_refl eq_refl eq_refl) as (s & w' & Hrun & _ & _ & _ & _ & Hold & _).
  assert (Hs : (initializeLocalStream (env_ok 5000) true w_answered).1 = Ok [2]).
  { vm_compute. reflexivity. }
  rewrite Hrun in Hs. cbn [fst] in Hs. injection Hs as ->.
  exists w'. split; [exact Hrun|].
  assert (H0 : trackHeap w_answered !! 0 = Some (new_track audio_track)).
  { vm_compute. reflexivity. }
  rewrite (Hold 0 _ H0).
  assert (Hin : bool_decide (0 ∈ default [] (localStream w_answered)) = true).
  { vm_compute. reflexivity. }
  rewrite Hin. reflexivity.
Defined.

Lemma initializeLocalStream_fails e audioOnly w :
  no_media e ->
  exists err,
    initializeLocalStream e audioOnly w
    = (Throw err,
       said (Console error "Error accessing media devices:")
         (if hasMediaDevices e && secureContext e
          then set_trackHeap
                 (fun _ => stop_all (default [] (localStream w)) (trackHeap w)) w
          else w)) /\
    err_message err ≠ "".
Proof.
  intros Hno. unfold initializeLocalStream.
  match goal with |- exists err, try_catch ?m ?h w = _ /\ _ =>
    assert (Hbody : exists err0,
      m w = (Throw err0,
             if hasMediaDevices e && secureContext e
             then set_trackHeap
                    (fun _ => stop_all (default [] (localStream w)) (trackHeap w)) w
             else w)) end.
  { destruct (hasMediaDevices e) eqn:Hm; [|by eexists].
    destruct (secureContext e) eqn:Hs; [|by eexists].
    destruct Hno as [?|[?|[err0 Hg]]]; [congruence..|].
    exists err0. do 3 run_step. cbn [andb].
    erewrite bind_ok.
    2:{ instantiate (1 := set_trackHeap
                            (fun _ => stop_all (default [] (localStream w)) (trackHeap w)) w).
        destruct (localStream w) as [ts|]; cbn [default].
        - by rewrite stopTracks_spec.
        - unfold ret, set_trackHeap, stop_all. cbn. by rewrite World_eta. }
    apply bind_throw. unfold getUserMedia. by rewrite Hg. }
  destruct Hbody as [err0 Hbody].
  rewrite (try_catch_throw _ _ _ _ _ Hbody). unfold console. run_step. unfold said.
  repeat (destruct (name_in err0 _); [eexists; split; [reflexivity|done]|]).
  case_bool_decide; eexists; (split; [reflexivity|done]).
Qed.

(** X2.  When capture is not available, [initializeLocalStream] logs the
    failure and throws an error whose message is never empty, keeps the
    local stream it held, and touches neither connections nor anything
    outside the service.  If the browser lacks the interface or the page is
    not secure, the tracks held are not stopped; if [getUserMedia] itself
    fails they have been stopped already, so the service is left holding a
    stream of ended tracks. *)
Theorem initializeLocalStream_failure (e : Env) (audioOnly : bool) (w : World) :
  no_media e ->
  exists err w',
    initializeLocalStream e audioOnly w = (Throw err, w') /\
    err_message err ≠ "" /\
    trace w' = trace w ++ [Console error "Error accessing media devices:"] /\
    localStream w' = localStream w /\
    peerConnections w' = peerConnections w /\ pcHeap w' = pcHeap w /\
    outside w' = outside w /\
    (hasMediaDevices e = false \/ secureContext e = false ->
       trackHeap w' = trackHeap w) /\
    (hasMediaDevices e = true -> secureContext e = true ->
       forall tracks t tr, localStream w = Some tracks -> t ∈ tracks ->
                           trackHeap w !! t = Some tr ->
                           trackHeap w' !! t = Some (track_stop tr)).
Proof.
  intros Hno. destruct (initializeLocalStream_fails e audioOnly w Hno) as (err & Hrun & Hmsg).
  eexists err, _. split; [exact Hrun|]. split; [exact Hmsg|].
  destruct (hasMediaDevices e), (secureContext e); cbn [andb];
    (split_and!; try reflexivity; try (by intros [?|?]); try done).
  intros _ _ tracks t tr Hls Hin Ht. cbn. rewrite Hls. by apply stop_all_lookup.
Qed.

Lemma initializeLocalStream_failure_witness :
  (initializeLocalStream (env_denied 5000) false w_answered).1
  = Throw (JsError "Camera/microphone access was denied. Please allow access in your browser settings and try again.") /\
  (readyState <$> trackHeap (initializeLocalStream (env_denied 5000) false w_answered).2 !! 0)
  = Some track_ended /\
  trackHeap (initializeLocalStream (env_insecure 5000) false w_answered).2
  = trackHeap w_answered.
Proof.
  assert (Hden : no_media (env_denied 5000)) by (right; right; by eexists).
  assert (Hins : no_media (env_insecure 5000)) by (right; by left).
  destruct (initializeLocalStream_failure (env_denied 5000) false w_answered Hden)
    as (err & w' & Hrun & _ & _ & _ & _ & _ & _ & _ & Hstop).
  destruct (initializeLocalStream_failure (env_insecure 5000) false w_answered Hins)
    as (err2 & w2 & Hrun2 & _ & _ & _ & _ & _ & _ & Hkeep & _).
  split_and!.
  - vm_compute. reflexivity.
  - rewrite Hrun. cbn [snd].
    rewrite (Hstop eq_refl eq_refl [0; 1] 0 (new_track audio_track)).
    + reflexivity.
    + vm_compute. reflexivity.
    + apply list_elem_of_here.
    + vm_compute. reflexivity.
  - rewrite Hrun2. cbn [snd]. apply Hkeep. by right.
Defined.

(* ===================================================================== *)
(** * Calls that cannot get media *)
(* ===================================================================== *)



Lemma answerCall_fails_without_media e w callId u ic :
  user w = Some u -> webRTCService w = true -> incomingCall w = Some ic ->
  no_media e ->
  exists err,
    answerCall e callId w
    = (Throw err,
       said (Console error "Error answering call:")
         (said (Console error "Error accessing media devices:")
            (if hasMediaDevices e && secureContext e
             then set_trackHeap
                    (fun _ => stop_all (default [] (localStream w)) (trackHeap w)) w
             else w))) /\
    err_message err ≠ "".
Proof.
  intros Hu Hready Hic Hno. unfold answerCall. do 3 run_step. rewrite Hu, Hready, Hic.
  destruct (initializeLocalStream_fails e (bool_decide (type (data ic) = voice)) w Hno)
    as (err & Hrun & Hmsg).
  exists err. split; [|exact Hmsg].
  erewrite try_catch_throw.
  2:{ apply bind_throw. exact Hrun. }
  unfold console. run_step. reflexivity.
Qed.

(** X4.  The handlers behind the buttons of the incoming-call notification
    never throw: whatever goes wrong in [answerCall] or [declineCall] ends
    in the console (and, for answering, in an alert).  In particular, when
    capture is not available, answering alerts the user, writes nothing to
    the channel, creates no connection, and leaves the call incoming, so
    that it can still be answered or declined. *)
Theorem notification_buttons_never_throw (e : Env) (w : World) :
  (notification_handleAnswer e w).1 = Ok tt /\
  (notification_handleDecline e w).1 = Ok tt /\
  (is_Some (user w) -> webRTCService w = true -> is_Some (incomingCall w) ->
   no_media e ->
   let w' := (notification_handleAnswer e w).2 in
   last (trace w') = Some (Alert "Failed to answer call. Please try again.") /\
   db w' = db w /\ incomingCall w' = incomingCall w /\
   peerConnections w' = peerConnections w /\ pcHeap w' = pcHeap w /\
   callState w' = callState w).
Proof.
  split_and!.
  - unfold notification_handleAnswer. run_step.
    destruct (incomingCall w) as [ic|]; [|done].
    unfold try_catch. by destruct (answerCall e (id ic) w) as [[[]|err] w1].
  - unfold notification_handleDecline. run_step.
    destruct (incomingCall w) as [ic|]; [|done].
    unfold try_catch. by destruct (declineCall e w) as [[[]|err] w1].
  - intros [u Hu] Hready [ic Hic] Hno.
    destruct (answerCall_fails_without_media e w (id ic) u ic Hu Hready Hic Hno)
      as (err & Hrun & _).
    cbv zeta. unfold notification_handleAnswer. run_step. rewrite Hic.
    rewrite (try_catch_throw _ _ _ _ _ Hrun). unfold console, alert. run_step.
    rewrite modify_run. cbn [snd].
    destruct (hasMediaDevices e && secureContext e); cbn; rewrite ?last_snoc;
      by split_and!.
Qed.

Lemma notification_buttons_never_throw_witness :
  last (trace (notification_handleAnswer (env_denied 5000) bob_invited).2)
  = Some (Alert "Failed to answer call. Please try again.") /\
  incomingCall (notification_handleAnswer (env_denied 5000) bob_invited).2
  = Some call_to_bob.
Proof.
  assert (Hden : no_media (env_denied 5000)) by (right; right; by eexists).
  destruct (proj2 (proj2 (notification_buttons_never_throw (env_denied 5000) bob_invited)))
    as (Hlast & _ & Hic & _).
  - by eexists.
  - reflexivity.
  - by eexists.
  - exact Hden.
  - split; [exact Hlast|]. rewrite Hic. reflexivity.
Defined.

(* ===================================================================== *)
(** * Declining and stale calls *)
(* ===================================================================== *)

(** X5.  [declineCall] without an incoming call does nothing.  With one,
    when the channel accepts the write and the call document exists, it sets
    the status to missed with a new [endedAt] and clears the incoming call;
    it acquires no media and creates no connection: everything but the
    channel, the incoming call and the receiving flag is as before.  When
    the write is rejected it only logs the error, and the call stays
    incoming. *)
Theorem declineCall_marks_the_call_missed (e : Env) (w : World) :
  (incomingCall w = None -> declineCall e w = (Ok tt, w)) /\
  (forall ic cdoc,
     incomingCall w = Some ic -> writeOk e (CallPath (id ic)) = true ->
     calls (db w) !! id ic = Some cdoc ->
     exists w',
       declineCall e w = (Ok tt, w') /\
       calls (db w') = <[id ic := finished missed (now e) cdoc]> (calls (db w)) /\
       incomingCall w' = None /\ isReceivingCall (callState w') = false /\
       localStream w' = localStream w /\ trackHeap w' = trackHeap w /\
       peerConnections w' = peerConnections w /\ pcHeap w' = pcHeap w /\
       timers w' = timers w /\ trace w' = trace w /\
       offers (db w') = offers (db w) /\ answers (db w') = answers (db w)) /\
  (forall ic,
     incomingCall w = Some ic -> writeOk e (CallPath (id ic)) = false ->
     declineCall e w = (Ok tt, said (Console error "Error declining call:") w)).
Proof.
  split_and!.
  - intros Hic. unfold declineCall. run_step. by rewrite Hic.
  - intros ic cdoc Hic Hwrite Hdoc. unfold declineCall. run_step. rewrite Hic.
    eexists. split.
    + apply try_catch_ok.
      rewrite (bind_ok _ _ _ _ _ (updateDoc_call_run _ _ _ _ _ Hwrite Hdoc)).
      unfold setIncomingCall, clearReceiving, setCallState. run_step. apply modify_run.
    + by split_and!.
  - intros ic Hic Hwrite. unfold declineCall. run_step. rewrite Hic.
    erewrite try_catch_throw; [reflexivity|].
    apply bind_throw. unfold updateDoc_call. by rewrite Hwrite.
Qed.

Lemma declineCall_marks_the_call_missed_witness :
  exists w', declineCall (env_ok 1500) bob_invited = (Ok tt, w') /\
             (status <$> calls (db w') !! "call-1") = Some missed /\
             localStream w' = None /\ peerConnections w' = ∅.
Proof.
  destruct (proj1 (proj2 (declineCall_marks_the_call_missed (env_ok 1500) bob_invited))
              call_to_bob (new_call_doc (env_ok 1000) alice ["bob"] video))
    as (w' & Hrun & Hcalls & _ & _ & Hls & _ & Hp & _).
  - reflexivity.
  - reflexivity.
  - vm_compute. reflexivity.
  - exists w'. split; [exact Hrun|]. rewrite Hcalls, Hls, Hp.
    split; [|split; reflexivity]. cbn [id call_to_bob]. by rewrite lookup_insert_eq.
Defined.

(** X6.  A ringing call newly seen by the listener of a signed-in client.
    If it was created more than sixty seconds ago it is marked missed (when
    the channel accepts the write) and is not shown, whoever the caller is
    and whether or not the client is in a call.  Otherwise, sixty seconds
    sharp included, it becomes the incoming call if the client is not its
    caller and is not in a call, and is ignored if it is. *)
Theorem onCallAdded_stale_or_incoming (e : Env) (w : World) (c : Call) (u : User) :
  user w = Some u ->
  let age := (now e - createdAt (data c))%Z in
  (forall cdoc, (60000 < age)%Z -> writeOk e (CallPath (id c)) = true ->
                calls (db w) !! id c = Some cdoc ->
     onCallAdded e c w
     = (Ok tt, set_db (set_calls <[id c := finished missed (now e) cdoc]>) w)) /\
  ((age <= 60000)%Z -> callerId (data c) ≠ uid u -> isInCall (callState w) = false ->
     exists w',
       onCallAdded e c w = (Ok tt, w') /\
       incomingCall w' = Some c /\ isReceivingCall (callState w') = true /\
       db w' = db w /\ localStream w' = localStream w /\
       peerConnections w' = peerConnections w) /\
  ((age <= 60000)%Z -> callerId (data c) = uid u \/ isInCall (callState w) = true ->
     onCallAdded e c w = (Ok tt, w)).
Proof.
  intros Hu age. split_and!.
  - intros cdoc Hage Hwrite Hdoc. unfold onCallAdded. run_step. rewrite Hu.
    rewrite bool_decide_eq_true_2 by done.
    apply try_catch_ok. by apply updateDoc_call_run.
  - intros Hage Hcaller Hin. unfold onCallAdded. run_step. rewrite Hu.
    rewrite bool_decide_eq_false_2 by (subst age; lia).
    run_step. rewrite Hin. rewrite bool_decide_eq_true_2 by done. cbn [andb negb].
    unfold setIncomingCall, setCallState. run_step. rewrite modify_run.
    eexists. split; [reflexivity|]. by split_and!.
  - intros Hage Hor. unfold onCallAdded. run_step. rewrite Hu.
    rewrite bool_decide_eq_false_2 by (subst age; lia).
    run_step. destruct Hor as [Hcaller|Hin].
    + by rewrite bool_decide_eq_false_2 by (by intros ?).
    + rewrite Hin. by rewrite andb_false_r.
Qed.

Lemma onCallAdded_stale_or_incoming_witness :
  (exists w', onCallAdded (env_ok 61000) call_to_bob (idle bob (db w_ringing)) = (Ok tt, w') /\
              incomingCall w' = Some call_to_bob) /\
  (status <$> calls (db (onCallAdded (env_ok 61001) call_to_bob
                           (idle bob (db w_ringing))).2) !! "call-1") = Some missed.
Proof.
  destruct (onCallAdded_stale_or_incoming (env_ok 61000) (idle bob (db w_ringing))
              call_to_bob bob eq_refl) as (_ & Hshow & _).
  destruct (onCallAdded_stale_or_incoming (env_ok 61001) (idle bob (db w_ringing))
              call_to_bob bob eq_refl) as (Hstale & _ & _).
  split.
  - destruct Hshow as (w' & Hrun & Hic & _).
    + cbn. lia.
    + cbn. discriminate.
    + reflexivity.
    + exists w'. split; [exact Hrun|exact Hic].
  - rewrite (Hstale (new_call_doc (env_ok 1000) alice ["bob"] video)).
    + cbn [snd db set_db calls set_calls id call_to_bob]. by rewrite lookup_insert_eq.
    + cbn. lia.
    + reflexivity.
    + vm_compute. reflexivity.
Defined.

(* ===================================================================== *)
(** * Closing connections and releasing the service *)
(* ===================================================================== *)

Lemma alter_at {V} (g : V -> V) (h : gmap nat V) k v :
  h !! k = Some v -> alter g k h = <[k := g v]> h.
Proof.
  intros Hk. apply map_eq. intros i. rewrite lookup_alter, lookup_insert.
  destruct (decide (k = i)) as [<-|]; [by rewrite Hk|done].
Qed.

(** X7.  [closePeerConnection] for a remote participant in the table
    closes the connection stored for it and removes the entry; the other
    entries, the local stream and everything outside the service stay as
    they are.  Doing it again changes nothing. *)
Theorem closePeerConnection_closes_and_forgets (w : World) (remoteUserId : string)
    (d : PeerConnection) (pc : RTCPeerConnection) :
  peerConnections w !! remoteUserId = Some d ->
  pcHeap w !! connection d = Some pc ->
  exists w',
    closePeerConnection remoteUserId w = (Ok tt, w') /\
    peerConnections w' = delete remoteUserId (peerConnections w) /\
    pcHeap w' = <[connection d := pc_close pc]> (pcHeap w) /\
    signalingState (pc_close pc) = sig_closed /\
    connectionState (pc_close pc) = conn_closed /\
    (forall other, other ≠ remoteUserId ->
                   peerConnections w' !! other = peerConnections w !! other) /\
    beside_links w' = beside_links w /\
    closePeerConnection remoteUserId w' = (Ok tt, w').
Proof.
  intros Hd Hpc. eexists. split; [by apply closePeerConnection_spec|].
  split_and!; try reflexivity.
  - cbn. by apply alter_at.
  - intros other Hne. cbn. by apply lookup_delete_ne.
  - unfold closePeerConnection. run_step. cbn. by rewrite lookup_delete_eq.
Qed.

Lemma closePeerConnection_closes_and_forgets_witness :
  exists w', closePeerConnection "bob" w_group = (Ok tt, w') /\
             peerConnections w' !! "bob" = None /\
             is_Some (peerConnections w' !! "carol").
Proof.
  assert (Hd : peerConnections w_group !! "bob" = Some link_bob).
  { vm_compute. reflexivity. }
  assert (Hpc : pcHeap w_group !! connection link_bob = Some pc_offered).
  { vm_compute. reflexivity. }
  destruct (closePeerConnection_closes_and_forgets w_group "bob" link_bob pc_offered Hd Hpc)
    as (w' & Hrun & Htable & _ & _ & _ & Hother & _).
  exists w'. split; [exact Hrun|]. split.
  - rewrite Htable. apply lookup_delete_eq.
  - rewrite (Hother "carol") by discriminate. vm_compute. by eexists.
Defined.

Lemma cleanup_noop w :
  peerConnections w = ∅ -> localStream w = None -> unsubscribes w = [] ->
  callId w = None ->
  cleanup w = (Ok tt, w).
Proof.
  intros Hp Hls Hu Hc. unfold cleanup. run_step. rewrite Hls. do 2 run_step.
  rewrite Hp, map_to_list_empty. cbn [forEach]. do 3 run_step. rewrite modify_run.
  f_equal. destruct w. cbn in *. by subst.
Qed.

(** X8.  [cleanup] always returns.  Afterwards the table is empty, the
    connection of every entry it held is closed, the local stream is gone
    and each of its tracks is stopped, no listener is left and no call is
    set; nothing outside the service has changed.  A second [cleanup]
    changes nothing. *)
Theorem cleanup_releases_everything (w : World) :
  exists w',
    cleanup w = (Ok tt, w') /\
    peerConnections w' = ∅ /\ localStream w' = None /\
    unsubscribes w' = [] /\ callId w' = None /\
    (forall r d pc, peerConnections w !! r = Some d ->
                    pcHeap w !! connection d = Some pc ->
                    pcHeap w' !! connection d = Some (pc_close pc)) /\
    (forall tracks t tr, localStream w = Some tracks -> t ∈ tracks ->
                         trackHeap w !! t = Some tr ->
                         trackHeap w' !! t = Some (track_stop tr)) /\
    outside w' = outside w /\
    cleanup w' = (Ok tt, w').
Proof.
  destruct (cleanup_spec w) as (w' & Hrun & Hp & Hh & Hls & Hth & Hu & Hc & Hout).
  exists w'. split_and!; try done.
  - intros r d pc Hd Hpc. rewrite Hh. apply (close_all_lookup _ _ r); [|done].
    by apply elem_of_map_to_list.
  - intros tracks t tr Hls' Hin Ht. rewrite Hth, Hls'. by apply stop_all_lookup.
  - by apply cleanup_noop.
Qed.

Lemma cleanup_releases_everything_witness :
  exists w', cleanup w_group = (Ok tt, w') /\
             pcHeap w' !! 0 = Some (pc_close pc_offered) /\ peerConnections w' = ∅.
Proof.
  destruct (cleanup_releases_everything w_group)
    as (w' & Hrun & Hp & _ & _ & _ & Hclosed & _).
  exists w'. split_and!; [exact Hrun| |exact Hp].
  apply (Hclosed "bob" link_bob pc_offered).
  - vm_compute. reflexivity.
  - vm_compute. reflexivity.
Defined.

(* ===================================================================== *)
(** * Muting *)
(* ===================================================================== *)

Lemma forEach_alter_tracks (G : MediaStreamTrack -> MediaStreamTrack) tracks w :
  forEach tracks (fun t => modify (set_trackHeap (alter G t))) w
  = (Ok tt, set_trackHeap (fun h => foldl (fun h t => alter G t h) h tracks) w).
Proof.
  revert w. induction tracks as [|t tracks IH]; intros w.
  - cbn. unfold ret, set_trackHeap. by rewrite World_eta.
  - cbn [forEach]. rewrite bind_modify, IH. reflexivity.
Qed.

Lemma toggleTracks_run k en w :
  toggleTracks k en w
  = (Ok tt, set_trackHeap (toggle_all k en (default [] (localStream w))) w).
Proof.
  unfold toggleTracks. run_step. destruct (localStream w) as [tracks|]; cbn [default].
  - apply (forEach_alter_tracks (set_enabled_if k en)).
  - unfold ret, set_trackHeap, toggle_all. cbn. by rewrite World_eta.
Qed.

Lemma set_enabled_if_idem k en tr :
  set_enabled_if k en (set_enabled_if k en tr) = set_enabled_if k en tr.
Proof. unfold set_enabled_if. repeat case_decide; done. Qed.

Lemma toggle_all_lookup k en tracks h t :
  toggle_all k en tracks h !! t
  = if decide (t ∈ tracks) then set_enabled_if k en <$> h !! t else h !! t.
Proof. unfold toggle_all. apply foldl_alter_lookup, set_enabled_if_idem. Qed.

(** X9.  [toggleAudio] and [toggleVideo] set the [enabled] flag of the
    tracks of their kind in the local stream and nothing else: tracks of the
    other kind and tracks outside the stream keep their flag, no track is
    stopped, and connections (their senders included) are not touched. *)
Theorem toggleTracks_only_flips_enabled (k : TrackKind) (en : bool) (w : World) :
  let w' := (toggleTracks k en w).2 in
  (toggleTracks k en w).1 = Ok tt /\
  (forall t tr, trackHeap w !! t = Some tr ->
     exists tr', trackHeap w' !! t = Some tr' /\
                 kind tr' = kind tr /\ readyState tr' = readyState tr /\
                 enabled tr'
                 = if bool_decide (t ∈ default [] (localStream w) /\ kind tr = k)
                   then en else enabled tr) /\
  dom (trackHeap w') = dom (trackHeap w) /\
  pcHeap w' = pcHeap w /\ peerConnections w' = peerConnections w /\
  localStream w' = localStream w /\ outside w' = outside w /\
  toggleAudio en = toggleTracks audio_track en /\
  toggleVideo en = toggleTracks video_track en.
Proof.
  cbv zeta. rewrite toggleTracks_run. cbn [fst snd].
  split_and!; try reflexivity.
  - intros t tr Ht. cbn. rewrite toggle_all_lookup, Ht.
    destruct (decide (t ∈ default [] (localStream w))) as [Hin|Hnin]; cbn.
    + unfold set_enabled_if. destruct (decide (kind tr = k)) as [Hk|Hk].
      * eexists. split; [reflexivity|]. cbn.
        by rewrite bool_decide_eq_true_2.
      * exists tr. split_and!; try done.
        by rewrite bool_decide_eq_false_2 by (by intros [? ?]).
    + exists tr. split_and!; try done.
      by rewrite bool_decide_eq_false_2 by (by intros [? ?]).
  - cbn. unfold toggle_all. generalize (trackHeap w).
    induction (default [] (localStream w)) as [|t ts IH]; intros h; [done|].
    cbn [foldl]. by rewrite IH, dom_alter_L.
Qed.

Lemma toggleTracks_only_flips_enabled_witness :
  (enabled <$> trackHeap (toggleTracks video_track false w_answered).2 !! 1) = Some false /\
  (enabled <$> trackHeap (toggleTracks video_track false w_answered).2 !! 0) = Some true.
Proof.
  destruct (toggleTracks_only_flips_enabled video_track false w_answered)
    as (_ & Htracks & _).
  split.
  - destruct (Htracks 1 (new_track video_track)) as (tr' & Hlook & _ & _ & Hen).
    + vm_compute. reflexivity.
    + rewrite Hlook. cbn. rewrite Hen.
      assert (H : bool_decide (1 ∈ default [] (localStream w_answered)
                               /\ kind (new_track video_track) = video_track) = true).
      { vm_compute. reflexivity. }
      by rewrite H.
  - destruct (Htracks 0 (new_track audio_track)) as (tr' & Hlook & _ & _ & Hen).
    + vm_compute. reflexivity.
    + rewrite Hlook. cbn. rewrite Hen.
      assert (H : bool_decide (0 ∈ default [] (localStream w_answered)
                               /\ kind (new_track audio_track) = video_track) = false).
      { vm_compute. reflexivity. }
      by rewrite H.
Defined.

(** X10.  [toggleMute] does nothing without a service.  With one it flips
    [isMuted] and makes the audio tracks of the local stream agree with it:
    each is enabled exactly when the client is not muted.  Video tracks and
    connections are left alone, and a second [toggleMute] brings [isMuted]
    back. *)
Theorem toggleMute_keeps_tracks_and_flag_together (w : World) :
  (webRTCService w = false -> toggleMute w = (Ok tt, w)) /\
  (webRTCService w = true ->
   exists w',
     toggleMute w = (Ok tt, w') /\
     isMuted (callState w') = negb (isMuted (callState w)) /\
     (forall t tr, t ∈ default [] (localStream w) -> trackHeap w !! t = Some tr ->
        exists tr', trackHeap w' !! t = Some tr' /\
                    enabled tr'
                    = if decide (kind tr = audio_track)
                      then negb (isMuted (callState w')) else enabled tr) /\
     pcHeap w' = pcHeap w /\ localStream w' = localStream w /\ db w' = db w /\
     isMuted (callState (toggleMute w').2) = isMuted (callState w)).
Proof.
  split.
  - intros Hs. unfold toggleMute. run_step. by rewrite Hs.
  - intros Hs.
    assert (Hrun : forall w0, webRTCService w0 = true ->
      toggleMute w0
      = (Ok tt, set_callState (fun prev =>
                  mkCallState (cs_callId prev) (isInCall prev) (isCalling prev)
                    (isReceivingCall prev) (callType prev) (cs_localStream prev)
                    (remoteStreams prev) (cs_participants prev)
                    (negb (isMuted (callState w0))) (isVideoOff prev))
                (set_trackHeap
                   (toggle_all audio_track (negb (negb (isMuted (callState w0))))
                      (default [] (localStream w0))) w0))).
    { intros w0 Hs0. unfold toggleMute. run_step. rewrite Hs0. run_step.
      unfold toggleAudio. rewrite (bind_ok _ _ _ _ _ (toggleTracks_run _ _ _)).
      unfold setCallState. apply modify_run. }
    eexists. split; [by apply Hrun|]. split_and!; try reflexivity.
    + intros t tr Hin Ht. cbn. rewrite toggle_all_lookup, Ht.
      rewrite decide_True by done. cbn. unfold set_enabled_if.
      destruct (decide (kind tr = audio_track)); eexists; (split; [reflexivity|]).
      * cbn. by rewrite negb_involutive.
      * done.
    + rewrite Hrun by done. cbn. apply negb_involutive.
Qed.

Lemma toggleMute_keeps_tracks_and_flag_together_witness :
  isMuted (callState (toggleMute w_answered).2) = true /\
  (enabled <$> trackHeap (toggleMute w_answered).2 !! 0) = Some false.
Proof.
  destruct (proj2 (toggleMute_keeps_tracks_and_flag_together w_answered))
    as (w' & Hrun & Hflag & Htracks & _).
  - reflexivity.
  - rewrite Hrun. cbn [snd]. split.
    + rewrite Hflag. vm_compute. reflexivity.
    + destruct (Htracks 0 (new_track audio_track)) as (tr' & Hlook & Hen).
      * vm_compute. apply list_elem_of_here.
      * vm_compute. reflexivity.
      * rewrite Hlook. cbn. rewrite Hen, Hflag. vm_compute. reflexivity.
Defined.

(* ===================================================================== *)
(** * Losing a connection *)
(* ===================================================================== *)

(** X11.  When the transport reports [disconnected] or [failed] for a
    remote participant in the table, the entry is removed and the
    connection it named is closed; any other state leaves the table as it
    is.  In both cases the local stream, its tracks and the state of the
    call are untouched: the client stays in the call. *)
Theorem connection_loss_drops_the_link (w : World) (remoteUserId : string) (ref : nat)
    (s : ConnectionState) (d : PeerConnection) (pc : RTCPeerConnection) :
  peerConnections w !! remoteUserId = Some d ->
  pcHeap w !! connection d = Some pc ->
  exists w',
    onconnectionstatechange remoteUserId ref s w = (Ok tt, w') /\
    (s = disconnected \/ s = failed ->
     peerConnections w' = delete remoteUserId (peerConnections w) /\
     exists pc', pcHeap w' !! connection d = Some pc' /\
                 signalingState pc' = sig_closed /\ connectionState pc' = conn_closed) /\
    (s ≠ disconnected -> s ≠ failed -> peerConnections w' = peerConnections w) /\
    localStream w' = localStream w /\ trackHeap w' = trackHeap w /\
    outside w' = outside w.
Proof.
  intros Hd Hpc. unfold onconnectionstatechange, console. do 2 run_step.
  destruct (bool_decide (s = disconnected \/ s = failed)) eqn:Hs.
  - apply bool_decide_eq_true in Hs.
    rewrite (closePeerConnection_spec _ _ d) by exact Hd.
    eexists. split; [reflexivity|]. split_and!; try reflexivity.
    + intros _. split; [reflexivity|]. cbn.
      destruct (decide (ref = connection d)) as [->|Hne].
      * rewrite !lookup_alter_eq, Hpc. cbn. by eexists.
      * rewrite lookup_alter_eq, lookup_alter_ne, Hpc by done. cbn. by eexists.
    + intros H1 H2. destruct Hs; contradiction.
  - apply bool_decide_eq_false in Hs.
    eexists. split; [reflexivity|]. split_and!; try reflexivity.
    intros Hs'. contradiction.
Qed.

Lemma connection_loss_drops_the_link_witness :
  peerConnections (onconnectionstatechange "bob" 0 failed w_group).2 !! "bob" = None.
Proof.
  assert (Hd : peerConnections w_group !! "bob" = Some link_bob).
  { vm_compute. reflexivity. }
  assert (Hpc : pcHeap w_group !! connection link_bob = Some pc_offered).
  { vm_compute. reflexivity. }
  destruct (connection_loss_drops_the_link w_group "bob" 0 failed link_bob pc_offered Hd Hpc)
    as (w' & Hrun & Hlost & _).
  rewrite Hrun. cbn [snd].
  destruct Hlost as [Htable _]; [by right|].
  rewrite Htable. apply lookup_delete_eq.
Defined.

(* ===================================================================== *)
(** * Timers *)
(* ===================================================================== *)

(** X12.  Firing a timer that is not pending does nothing.  Firing a
    pending timer removes it and keeps the others in order, whether or not
    its callback succeeds; when the session record it names is gone the
    callback fails, and no record is created. *)
Theorem fireTimer_runs_a_timer_once (e : Env) (n : nat) (w : World) :
  (timers w !! n = None -> fireTimer e n w = (Ok tt, w)) /\
  (forall t callRef, timers w !! n = Some t -> task t = ActivateCall callRef ->
     let w' := (fireTimer e n w).2 in
     timers w' = take n (timers w) ++ drop (S n) (timers w) /\
     S (length (timers w')) = length (timers w) /\
     (calls (db w) !! callRef = None ->
      (exists err, (fireTimer e n w).1 = Throw err) /\ db w' = db w)).
Proof.
  split.
  - intros Hn. unfold fireTimer. run_step. by rewrite Hn.
  - intros t callRef Hn Ht. cbv zeta.
    assert (Hrun : fireTimer e n w
                   = updateDoc_call e callRef (started active (now e))
                       (set_timers (fun l => take n l ++ drop (S n) l) w)).
    { unfold fireTimer. run_step. rewrite Hn. run_step. unfold runTask. by rewrite Ht. }
    rewrite Hrun.
    assert (Htimers : forall w0, timers (updateDoc_call e callRef (started active (now e)) w0).2
                                 = timers w0).
    { intros w0. unfold updateDoc_call.
      destruct (writeOk e (CallPath callRef)); [|done].
      by destruct (calls (db w0) !! callRef). }
    split_and!.
    + by rewrite Htimers.
    + rewrite Htimers. cbn. rewrite length_app, length_take, length_drop.
      apply lookup_lt_Some in Hn. lia.
    + intros Hnone. unfold updateDoc_call. cbn.
      destruct (writeOk e (CallPath callRef)); [|by split; [eexists|]].
      rewrite Hnone. by split; [eexists|].
Qed.

Lemma fireTimer_runs_a_timer_once_witness :
  timers (fireTimer (env_ok 3000) 0 w_ringing).2 = [] /\
  fireTimer (env_ok 3000) 1 w_ringing = (Ok tt, w_ringing).
Proof.
  destruct (fireTimer_runs_a_timer_once (env_ok 3000) 0 w_ringing) as [_ Hfire].
  destruct (fireTimer_runs_a_timer_once (env_ok 3000) 1 w_ringing) as [Hnone _].
  split.
  - destruct (Hfire {| delay := 2000; task := ActivateCall "call-1" |} "call-1")
      as (Htimers & _).
    + vm_compute. reflexivity.
    + reflexivity.
    + rewrite Htimers. vm_compute. reflexivity.
  - apply Hnone. vm_compute. reflexivity.
Defined.

(* ===================================================================== *)
(** * Hanging up *)
(* ===================================================================== *)

(** X13.  When the write goes through, [endCall] marks the session record
    [ended] with the time of the call, closes every connection of the
    table and empties it, stops the tracks of the local stream and resets
    the state of the provider.  After that the client has no call, and
    [endCall] does nothing. *)
Theorem endCall_ends_and_releases (e : Env) (w : World) (callId : string)
    (cdoc : CallDoc) :
  cs_callId (callState w) = Some callId -> webRTCService w = true ->
  writeOk e (CallPath callId) = true -> calls (db w) !! callId = Some cdoc ->
  exists w' doc,
    endCall e w = (Ok tt, w') /\
    calls (db w') !! callId = Some doc /\
    status doc = ended /\ endedAt doc = Some (now e) /\
    participants doc = participants cdoc /\
    peerConnections w' = ∅ /\ localStream w' = None /\
    (forall r d pc, peerConnections w !! r = Some d ->
                    pcHeap w !! connection d = Some pc ->
                    pcHeap w' !! connection d = Some (pc_close pc)) /\
    (forall tracks t tr, localStream w = Some tracks -> t ∈ tracks ->
                         trackHeap w !! t = Some tr ->
                         (readyState <$> trackHeap w' !! t) = Some track_ended) /\
    callState w' = initialCallState /\
    (forall e', endCall e' w' = (Ok tt, w')).
Proof.
  intros Hcid Hs Hw Hdoc.
  destruct (endCall_spec e w callId cdoc Hcid Hs Hw Hdoc)
    as (w' & Hrun & Hcalls & Hp & Hh & Hls & Hth & Hcs & _).
  exists w', (finished ended (now e) cdoc). split_and!; try done.
  - rewrite Hcalls. apply lookup_insert_eq.
  - intros tracks t tr Hls' Hin Ht. by rewrite (Hth tracks t tr).
  - intros e'. unfold endCall. run_step. by rewrite Hcs.
Qed.

Lemma endCall_ends_and_releases_witness :
  exists w', endCall (env_ok 9000) w_active = (Ok tt, w') /\
             (status <$> calls (db w') !! "call-1") = Some ended /\
             peerConnections w' = ∅.
Proof.
  assert (Hdoc : calls (db w_active) !! "call-1"
                 = Some (started active 3000 (new_call_doc (env_ok 1000) alice ["bob"] video))).
  { vm_compute. reflexivity. }
  destruct (endCall_ends_and_releases (env_ok 9000) w_active "call-1" _
              eq_refl eq_refl eq_refl Hdoc)
    as (w' & doc & Hrun & Hlook & Hst & _ & _ & Hp & _).
  exists w'. split_and!; [exact Hrun| |exact Hp].
  rewrite Hlook. cbn. by rewrite Hst.
Defined.

(* ===================================================================== *)
(** * Answering before the offer is there *)
(* ===================================================================== *)

(** X14.  [startCall] writes the session record before the offers, so a
    receiver can answer while no offer is stored for it.  [answerCall] then
    succeeds all the same: the record becomes [active] and the client is in
    the call with its local stream, but it has created no connection and
    published no answer. *)
Theorem answerCall_without_an_offer (e : Env) (w : World) (callId : string) (u : User)
    (ic : Call) (cdoc : CallDoc) :
  user w = Some u -> webRTCService w = true -> incomingCall w = Some ic ->
  good_env e ->
  offers (db w) !! (callId, uid u) = None ->
  calls (db w) !! callId = Some cdoc ->
  exists w',
    answerCall e callId w = (Ok tt, w') /\
    calls (db w') = <[callId := started active (now e) cdoc]> (calls (db w)) /\
    isInCall (callState w') = true /\ cs_callId (callState w') = Some callId /\
    is_Some (localStream w') /\ incomingCall w' = None /\
    peerConnections w' = peerConnections w /\ pcHeap w' = pcHeap w /\
    answers (db w') = answers (db w) /\ unsubscribes w' = unsubscribes w.
Proof.
  intros Hu Hs Hic (Hm & Hsec & Hg & Hw) Hoff Hdoc.
  unfold answerCall. do 3 run_step. rewrite Hu, Hs, Hic.
  eexists. split.
  - apply try_catch_ok.
    rewrite (bind_ok _ _ _ _ _ (initializeLocalStream_run e _ w Hm Hsec Hg)).
    unfold setCallId. do 2 run_step.
    match goal with |- context [match ?x with Some _ => _ | None => _ end] =>
      replace x with (@None SignalDoc) by (symmetry; exact Hoff) end.
    run_step.
    erewrite bind_ok by (apply updateDoc_call_run; [apply Hw|exact Hdoc]).
    rewrite (bind_ok _ _ _ _ _ (mapM_getUser _ _)).
    unfold setCallState, setIncomingCall. run_step. apply modify_run.
  - split_and!; try reflexivity. cbn. by eexists.
Qed.

Lemma answerCall_without_an_offer_witness :
  exists w', answerCall (env_ok 1200) "call-1" bob_early = (Ok tt, w') /\
             isInCall (callState w') = true /\ peerConnections w' = ∅.
Proof.
  assert (Hgood : good_env (env_ok 1200)) by (by split_and!).
  assert (Hdoc : calls (db bob_early) !! "call-1"
                 = Some (new_call_doc (env_ok 1000) alice ["bob"] video)).
  { vm_compute. reflexivity. }
  assert (Hoff : offers (db bob_early) !! ("call-1", uid bob) = None).
  { vm_compute. reflexivity. }
  assert (Hu : user bob_early = Some bob) by (vm_compute; reflexivity).
  assert (Hs : webRTCService bob_early = true) by (vm_compute; reflexivity).
  assert (Hic : incomingCall bob_early = Some call_to_bob) by (vm_compute; reflexivity).
  destruct (answerCall_without_an_offer (env_ok 1200) bob_early "call-1" bob call_to_bob _
              Hu Hs Hic Hgood Hoff Hdoc)
    as (w' & Hrun & _ & Hin & _ & _ & _ & Hp & _).
  exists w'. split_and!; [exact Hrun|exact Hin|].
  rewrite Hp. vm_compute. reflexivity.
Defined.

(* ===================================================================== *)
(** * Signals touch one connection *)
(* ===================================================================== *)


Lemma handleAnswer_shape w remoteUserId a :
  exists w', handleAnswer remoteUserId a w = (Ok tt, w') /\
    ((exists o, w' = said o w) \/ w' = w \/
     exists d pc', peerConnections w !! remoteUserId = Some d /\
                   is_Some (pcHeap w !! connection d) /\
                   w' = set_pcHeap <[connection d := pc']> w).
Proof.
  destruct (peerConnections w !! remoteUserId) as [d|] eqn:Hd.
  - unfold handleAnswer. run_step. rewrite Hd. unfold try_catch, bind at 1, deref.
    destruct (pcHeap w !! connection d) as [pc|] eqn:Hpc.
    + case_bool_decide.
      * unfold pc_call, bind, deref. rewrite Hpc.
        destruct (pc_setRemoteDescription a pc) as [err|pc'].
        -- cbn. eexists. split; [reflexivity|]. left. by eexists.
        -- cbn. eexists. split; [reflexivity|]. right. right.
           exists d, pc'. by split_and!.
      * cbn. eexists. split; [reflexivity|]. left. by eexists.
    + cbn. eexists. split; [reflexivity|]. left. by eexists.
  - unfold handleAnswer. run_step. rewrite Hd.
    eexists. split; [reflexivity|]. left. by eexists.
Qed.

Lemma handleIceCandidate_shape w remoteUserId c :
  exists w', handleIceCandidate remoteUserId c w = (Ok tt, w') /\
    ((exists o, w' = said o w) \/ w' = w \/
     exists d pc', peerConnections w !! remoteUserId = Some d /\
                   is_Some (pcHeap w !! connection d) /\
                   w' = set_pcHeap <[connection d := pc']> w).
Proof.
  destruct (peerConnections w !! remoteUserId) as [d|] eqn:Hd.
  - unfold handleIceCandidate. run_step. rewrite Hd. unfold try_catch, bind at 1, deref.
    destruct (pcHeap w !! connection d) as [pc|] eqn:Hpc.
    + case_bool_decide.
      * unfold pc_call, bind, deref. rewrite Hpc.
        destruct (pc_addIceCandidate c pc) as [err|pc'].
        -- cbn. eexists. split; [reflexivity|]. left. by eexists.
        -- cbn. eexists. split; [reflexivity|]. right. right.
           exists d, pc'. by split_and!.
      * cbn. eexists. split; [reflexivity|]. right. by left.
    + cbn. eexists. split; [reflexivity|]. left. by eexists.
  - unfold handleIceCandidate. run_step. rewrite Hd.
    eexists. split; [reflexivity|]. left. by eexists.
Qed.

Lemma shape_isolated w w' remoteUserId :
  ((exists o, w' = said o w) \/ w' = w \/
   exists d pc', peerConnections w !! remoteUserId = Some d /\
                 is_Some (pcHeap w !! connection d) /\
                 w' = set_pcHeap <[connection d := pc']> w) ->
  peerConnections w' = peerConnections w /\
  dom (pcHeap w') = dom (pcHeap w) /\
  (forall ref, (forall d, peerConnections w !! remoteUserId = Some d -> ref ≠ connection d) ->
               pcHeap w' !! ref = pcHeap w !! ref) /\
  localStream w' = localStream w /\ trackHeap w' = trackHeap w /\
  outside w' = outside w.
Proof.
  intros [[o ->]|[->|(d & pc' & Hd & Hin & ->)]]; try by split_and!.
  split_and!; try reflexivity.
  - cbn. rewrite dom_insert_L. apply elem_of_dom in Hin. set_solver.
  - intros ref Href. cbn. rewrite lookup_insert_ne; [done|].
    intros Heq. by apply (Href d).
Qed.

(** X15.  A signal from a remote participant, an answer or a candidate,
    never makes its handler throw and reaches at most the connection stored
    for that participant: the table, every other connection, the local
    stream and everything outside the service are as before, and no
    connection is created. *)
Theorem signals_touch_one_connection (w : World) (remoteUserId : string)
    (a : Description) (candidate : string) :
  forall m, m = handleAnswer remoteUserId a \/ m = handleIceCandidate remoteUserId candidate ->
  (m w).1 = Ok tt /\
  peerConnections (m w).2 = peerConnections w /\
  dom (pcHeap (m w).2) = dom (pcHeap w) /\
  (forall ref, (forall d, peerConnections w !! remoteUserId = Some d -> ref ≠ connection d) ->
               pcHeap (m w).2 !! ref = pcHeap w !! ref) /\
  localStream (m w).2 = localStream w /\ trackHeap (m w).2 = trackHeap w /\
  outside (m w).2 = outside w.
Proof.
  intros m [->| ->].
  - destruct (handleAnswer_shape w remoteUserId a) as (w' & -> & Hshape).
    split; [reflexivity|]. by apply shape_isolated.
  - destruct (handleIceCandidate_shape w remoteUserId candidate) as (w' & -> & Hshape).
    split; [reflexivity|]. by apply shape_isolated.
Qed.

Lemma signals_touch_one_connection_witness :
  pcHeap (handleAnswer "bob" answer_bob w_group).2 !! 1 = pcHeap w_group !! 1.
Proof.
  destruct (signals_touch_one_connection w_group "bob" answer_bob "candidate:1"
              (handleAnswer "bob" answer_bob) (or_introl eq_refl))
    as (_ & _ & _ & Hother & _).
  apply Hother. intros d Hd.
  assert (Hd' : peerConnections w_group !! "bob" = Some link_bob).
  { vm_compute. reflexivity. }
  rewrite Hd' in Hd. injection Hd as <-. discriminate.
Defined.

(* ===================================================================== *)
(** * Offer and answer *)
(* ===================================================================== *)

Lemma attach_fresh tracks ss : NoDup (ss ++ tracks) -> attach tracks ss = ss ++ tracks.
Proof.
  revert ss. induction tracks as [|t tracks IH]; intros ss Hnd.
  - cbn. by rewrite app_nil_r.
  - rewrite attach_cons. apply NoDup_app in Hnd as (Hss & Hdisj & Hts).
    apply NoDup_cons in Hts as [Ht Hts].
    rewrite bool_decide_eq_false_2.
    + rewrite IH; [by rewrite <- app_assoc|].
      apply NoDup_app. split_and!; [|set_solver|done].
      apply NoDup_app. split_and!; [done|set_solver|apply NoDup_singleton].
    + intros Hin. apply (Hdisj t Hin). left.
Qed.

Lemma acquire_NoDup audioOnly h : NoDup (acquire audioOnly h).1.
Proof.
  unfold acquire. destruct audioOnly; cbn.
  - apply NoDup_singleton.
  - apply NoDup_cons. split; [|apply NoDup_singleton].
    intros Hin%list_elem_of_singleton.
    pose proof (is_fresh (dom (<[fresh (dom h) := new_track audio_track]> h))) as Hf.
    rewrite <- Hin in Hf. apply Hf. rewrite dom_insert_L. set_solver.
Qed.

Lemma createOffer_fresh e w remoteUserId :
  peerConnections w !! remoteUserId = None ->
  let ref := fresh (dom (pcHeap w)) in
  let o := {| dtype := offer; sdp := sdpGen e offer |} in
  exists tr,
    createOffer e remoteUserId w
    = (Ok o,
       set_trace (fun _ => tr)
         (set_peerConnections <[remoteUserId := entry remoteUserId ref]>
            (set_pcHeap
               <[ref := offered o (with_senders (attach (default [] (localStream w)) [])
                                     pc_new)]> w))).
Proof.
  intros Hd ref o. unfold createOffer.
  destruct (newPeerConnection_spec w remoteUserId) as [tr Hrun]. cbv zeta in Hrun.
  fold ref in Hrun. rewrite <- (createPeerConnection_fresh _ _ Hd) in Hrun.
  rewrite (bind_ok _ _ _ _ _ Hrun). exists tr.
  set (pc0 := with_senders (attach (default [] (localStream w)) []) pc_new) in *.
  erewrite try_catch_ok; [reflexivity|].
  erewrite bind_ok.
  2:{ eapply (pc_query_ok _ _ _ pc0); [cbn; apply lookup_insert_eq|]. cbn. reflexivity. }
  erewrite bind_ok.
  2:{ eapply (pc_call_ok _ _ _ pc0); [cbn; apply lookup_insert_eq|]. cbn. reflexivity. }
  unfold ret. f_equal. unfold set_trace, set_peerConnections, set_pcHeap. cbn.
  by rewrite !insert_insert_eq.
Qed.

(** The state of the links once the loop of [startCall] has gone through
    the receivers [rs], none of which had an entry before. *)
Lemma offers_loop_links e callId u rs w :
  NoDup rs -> (forall r, r ∈ rs -> peerConnections w !! r = None) ->
  (forall p, writeOk e p = true) ->
  let o := {| dtype := offer; sdp := sdpGen e offer |} in
  let pc0 := with_senders (attach (default [] (localStream w)) []) pc_new in
  exists w',
    forEach rs (offer_to e callId u) w = (Ok tt, w') /\
    (forall r, r ∈ rs ->
       exists ref, peerConnections w' !! r = Some (entry r ref) /\
                   pcHeap w' !! ref = Some (offered o pc0) /\
                   pcHeap w !! ref = None /\
                   offers (db w') !! (callId, r) = Some (offer_doc e u r o)) /\
    (forall r, r ∉ rs -> peerConnections w' !! r = peerConnections w !! r) /\
    (forall ref pc, pcHeap w !! ref = Some pc -> pcHeap w' !! ref = Some pc) /\
    (forall k, (forall r, r ∈ rs -> k ≠ (callId, r)) ->
       offers (db w') !! k = offers (db w) !! k) /\
    kept w' = kept w.
Proof.
  intros Hnd Hnone Hwrite o. revert w Hnone.
  induction rs as [|r rs IH]; intros w Hnone pc0.
  - exists w. split; [done|]. split_and!; try done.
    intros r Hr. by apply elem_of_nil in Hr.
  - apply NoDup_cons in Hnd as [Hr Hnd].
    destruct (createOffer_fresh e w r) as [tr Hoffer]; [apply Hnone; left|].
    cbv zeta in Hoffer. fold o pc0 in Hoffer.
    set (ref := fresh (dom (pcHeap w))) in *.
    set (w1 := set_unsubscribes (fun l => l ++ [(callId, r)])
                 (set_db (set_offers <[(callId, r) := offer_doc e u r o]>)
                    (set_trace (fun _ => tr)
                       (set_peerConnections <[r := entry r ref]>
                          (set_pcHeap <[ref := offered o pc0]> w))))).
    assert (Hrun : offer_to e callId u r w = (Ok tt, w1)).
    { unfold offer_to. rewrite (bind_ok _ _ _ _ _ Hoffer).
      unfold setDoc_offer. rewrite Hwrite. run_step.
      unfold listenForCandidates. run_step.
      unfold setupRemoteStreamListener. run_step. cbn.
      by rewrite lookup_insert_eq. }
    destruct (IH Hnd w1) as (w' & Hloop & Hall & Hframe & Hheap & Hother & Hkept).
    { intros r' Hr'. cbn. rewrite lookup_insert_ne by (intros ->; done).
      apply Hnone. by right. }
    assert (Hfresh : pcHeap w !! ref = None).
    { apply not_elem_of_dom, is_fresh. }
    exists w'. split.
    { cbn [forEach]. by rewrite (bind_ok _ _ _ _ _ Hrun). }
    split_and!.
    + intros r' Hr'. apply elem_of_cons in Hr' as [->|Hr'].
      * exists ref. split_and!.
        -- rewrite Hframe by done. cbn. apply lookup_insert_eq.
        -- apply Hheap. cbn. apply lookup_insert_eq.
        -- exact Hfresh.
        -- rewrite Hother; [cbn; apply lookup_insert_eq|].
           intros r0 Hr0 [= ->]. done.
      * destruct (Hall r' Hr') as (ref' & Hentry & Hpc & Hnew & Hdoc).
        exists ref'. split_and!; try done.
        cbn in Hnew. apply lookup_insert_None in Hnew. tauto.
    + intros r' Hr'. apply not_elem_of_cons in Hr' as [Hne Hr'].
      rewrite Hframe by done. cbn. by apply lookup_insert_ne.
    + intros ref' pc Hpc. apply Hheap. cbn. rewrite lookup_insert_ne; [done|].
      intros <-. by rewrite Hfresh in Hpc.
    + intros k Hk. rewrite Hother.
      * cbn. apply lookup_insert_ne. intros <-. apply (Hk r); [left|done].
      * intros r0 Hr0. apply Hk. by right.
    + rewrite Hkept. reflexivity.
Qed.

(** What [startCall] leaves on the caller's side for receivers it had no
    connection to. *)
Lemma startCall_links e w rs ty u :
  user w = Some u -> webRTCService w = true -> good_env e ->
  NoDup rs -> (forall r, r ∈ rs -> peerConnections w !! r = None) ->
  rs <> [] -> length rs <= 4 ->
  let o := {| dtype := offer; sdp := sdpGen e offer |} in
  exists w' s,
    startCall e rs ty w = (Ok tt, w') /\
    localStream w' = Some s /\ NoDup s /\
    length s = (if bool_decide (ty = voice) then 1 else 2) /\
    (forall r, r ∈ rs ->
       exists ref, peerConnections w' !! r = Some (entry r ref) /\
                   pcHeap w' !! ref = Some (offered o (with_senders s pc_new)) /\
                   pcHeap w !! ref = None /\
                   offers (db w') !! (autoId e, r) = Some (offer_doc e u r o)) /\
    (forall r, r ∉ rs -> peerConnections w' !! r = peerConnections w !! r) /\
    calls (db w') = <[autoId e := new_call_doc e u rs ty]> (calls (db w)) /\
    answers (db w') = answers (db w) /\
    isInCall (callState w') = true /\ isCalling (callState w') = false /\
    length (cs_participants (callState w')) = length rs /\
    cs_participants (callState w') = (fun i => users (db w) !! i) <$> rs /\
    callType (callState w') = Some ty.
Proof.
  intros Hu Hready (Hm & Hs & Hg & Hwrite) Hnd Hnone Hne Hlen o.
  unfold startCall. do 2 run_step. rewrite Hu, Hready.
  rewrite bool_decide_eq_false_2 by (unfold MAX_PARTICIPANTS; lia).
  match goal with |- exists w' s, try_catch ?m ?h ?w0 = _ /\ @?Q w' s =>
    enough (Hb : exists w' s, m w0 = (Ok tt, w') /\ Q w' s);
      [destruct Hb as (w' & s & Hb & HQ); exists w', s;
       split; [by apply try_catch_ok|exact HQ]|] end.
  unfold setCallState at 1. run_step.
  match goal with |- context [bind (initializeLocalStream e ?b) _ ?w1] =>
    rewrite (bind_ok _ _ _ _ _ (initializeLocalStream_run e b w1 Hm Hs Hg)) end.
  match goal with |- context [acquire ?b ?h] => set (acq := acquire b h) end.
  erewrite bind_ok.
  2:{ apply (setDoc_call_run e (autoId e) (new_call_doc e u rs ty));
        [by apply new_call_doc_receiver|apply Hwrite]. }
  unfold setCallId at 1. run_step.
  match goal with |- context [bind (forEach rs _) _ ?w4] =>
    destruct (offers_loop_links e (autoId e) u rs w4 Hnd)
      as (w5 & Hloop & Hall & Hframe & Hheap & Hother & Hkept) end.
  { intros r Hr. cbn. by apply Hnone. }
  { exact Hwrite. }
  rewrite (bind_ok _ _ _ _ _ Hloop).
  rewrite (bind_ok _ _ _ _ _ (mapM_getUser rs w5)).
  unfold setCallState, setTimeout. run_step. rewrite modify_run.
  eexists _, acq.1. split; [reflexivity|].
  unfold kept in Hkept. cbn in Hkept. simplify_eq. cbn.
  split_and!.
  - congruence.
  - apply acquire_NoDup.
  - unfold acq, acquire. by destruct (bool_decide (ty = voice)).
  - intros r Hr. destruct (Hall r Hr) as (ref & Hentry & Hpc & Hnew & Hdoc).
    exists ref. split_and!; try done.
    change (pcHeap w5 !! ref
            = Some (offered o (with_senders (attach acq.1 []) pc_new))) in Hpc.
    rewrite attach_fresh in Hpc by apply acquire_NoDup. exact Hpc.
  - exact Hframe.
  - congruence.
  - congruence.
  - reflexivity.
  - reflexivity.
  - apply length_fmap.
  - match goal with H : users (db w5) = _ |- _ => by rewrite H end.
  - match goal with H : callState w5 = _ |- _ => by rewrite H end.
Qed.



(** X17.  The offer/answer exchange.  A caller without a connection to the
    receivers starts a call; one of the receivers, which has no connection
    to the caller, answers it on the channel the caller wrote to; the
    caller's listener hands the published answer to [handleAnswer].  Then
    both ends of the link are [stable] and mirror each other: the caller's
    local description is the receiver's remote description (the offer) and
    the receiver's local description is the caller's remote description
    (the answer); the session record is [active]. *)
Theorem offer_answer_handshake (e eb : Env) (wa wb : World) (receiverIds : list string)
    (ty : CallType) (caller receiver : User) (ic : Call) :
  user wa = Some caller -> webRTCService wa = true -> good_env e ->
  NoDup receiverIds ->
  (forall r, r ∈ receiverIds -> peerConnections wa !! r = None) ->
  length receiverIds <= 4 -> uid receiver ∈ receiverIds ->
  user wb = Some receiver -> webRTCService wb = true -> incomingCall wb = Some ic ->
  good_env eb -> peerConnections wb !! uid caller = None ->
  let wa1 := (startCall e receiverIds ty wa).2 in
  let wb1 := (answerCall eb (autoId e) (set_db (fun _ => db wa1) wb)).2 in
  exists o a dA pcA dB pcB,
    (description <$> offers (db wa1) !! (autoId e, uid receiver)) = Some o /\
    (description <$> answers (db wb1) !! (autoId e, uid receiver)) = Some a /\
    dtype o = offer /\ dtype a = answer /\
    peerConnections (handleAnswer (uid receiver) a wa1).2 !! uid receiver = Some dA /\
    pcHeap (handleAnswer (uid receiver) a wa1).2 !! connection dA = Some pcA /\
    signalingState pcA = stable /\
    localDescription pcA = Some o /\ remoteDescription pcA = Some a /\
    peerConnections wb1 !! uid caller = Some dB /\
    pcHeap wb1 !! connection dB = Some pcB /\
    signalingState pcB = stable /\
    localDescription pcB = Some a /\ remoteDescription pcB = Some o /\
    (status <$> calls (db wb1) !! autoId e) = Some active.
Proof.
  intros Hu Hs Hgood Hnd Hnone Hlen Hin Hub Hsb Hic Hgoodb Hnoneb wa1 wb1.
  assert (Hne : receiverIds <> []) by (intros ->; by apply elem_of_nil in Hin).
  destruct (startCall_links e wa receiverIds ty caller Hu Hs Hgood Hnd Hnone Hne Hlen)
    as (w' & s & Hrun & Hls & _ & _ & Hall & _ & Hcalls & _).
  assert (Hwa1 : wa1 = w') by (unfold wa1; by rewrite Hrun).
  destruct (Hall _ Hin) as (ref & Hentry & Hpc & _ & Hdoc).
  set (o := {| dtype := offer; sdp := sdpGen e offer |}) in *.
  destruct (answerCall_spec eb (set_db (fun _ => db w') wb) (autoId e) receiver ic
              (offer_doc e caller (uid receiver) o) (new_call_doc e caller receiverIds ty))
    as (wb' & refb & a & tracks & Hrunb & Htable & Hheap & _ & Ha & _ & Hans & Hcallsb & _);
    try done.
  { cbn. rewrite Hcalls. apply lookup_insert_eq. }
  assert (Hwb1 : wb1 = wb').
  { unfold wb1. rewrite Hwa1. by rewrite Hrunb. }
  cbn [fromUserId offer_doc description] in *.
  exists o, a, (entry (uid receiver) ref), (answered a (offered o (with_senders s pc_new))),
    (entry (uid caller) refb), (answering o a tracks).
  rewrite Hwa1, Hwb1.
  rewrite (handleAnswer_applies w' (uid receiver) _ _ a Hentry Hpc eq_refl Ha).
  split_and!; try reflexivity.
  - by rewrite Hdoc.
  - rewrite Hans, lookup_insert_eq. reflexivity.
  - exact Ha.
  - exact Hentry.
  - cbn. apply lookup_insert_eq.
  - rewrite Htable. apply lookup_insert_eq.
  - rewrite Hheap. apply lookup_insert_eq.
  - rewrite Hcallsb, lookup_insert_eq. reflexivity.
Qed.

Lemma offer_answer_handshake_witness :
  exists a,
    (description <$> answers (db (answerCall (env_ok 2000) "call-1"
                                    (set_db (fun _ => db w_ringing)
                                       (set_incomingCall (Some call_to_bob)
                                          (idle bob db_users)))).2)
                     !! ("call-1", "bob")) = Some a /\
    (signalingState <$> pcHeap (handleAnswer "bob" a w_ringing).2 !! 0) = Some stable.
Proof.
  assert (Hgood : forall t, good_env (env_ok t)) by (intros t; by split_and!).
  assert (Hnd : NoDup ["bob"]) by apply NoDup_singleton.
  assert (Hnone : forall r, r ∈ ["bob"] ->
                    peerConnections (idle alice db_users) !! r = None).
  { intros r _. apply lookup_empty. }
  assert (Hlen : length ["bob"] <= 4) by (cbn; lia).
  assert (Hin : uid bob ∈ ["bob"]) by apply list_elem_of_here.
  assert (Hnoneb : peerConnections (set_incomingCall (Some call_to_bob) (idle bob db_users))
                   !! uid alice = None).
  { apply lookup_empty. }
  destruct (offer_answer_handshake (env_ok 1000) (env_ok 2000) (idle alice db_users)
              (set_incomingCall (Some call_to_bob) (idle bob db_users))
              ["bob"] video alice bob call_to_bob eq_refl eq_refl (Hgood _) Hnd
              Hnone Hlen Hin eq_refl eq_refl eq_refl (Hgood _) Hnoneb)
    as (o & a & dA & pcA & dB & pcB & _ & Hans & _ & _ & HdA & HpcA & HsA & _).
  exists a. split; [exact Hans|].
    change (startCall (env_ok 1000) ["bob"] video (idle alice db_users)).2
      with w_ringing in HdA, HpcA.
    change (uid bob) with "bob" in HdA, HpcA.
    assert (Href : connection dA = 0).
    { assert (Htab : peerConnections (handleAnswer "bob" a w_ringing).2
                     = peerConnections w_ringing).
      { destruct (handleAnswer_shape w_ringing "bob" a) as (w' & -> & Hshape).
        by destruct (shape_isolated _ _ _ Hshape) as [? _]. }
      rewrite Htab in HdA.
      assert (Hd : peerConnections w_ringing !! "bob" = Some link_bob).
      { vm_compute. reflexivity. }
      rewrite Hd in HdA. by injection HdA as <-. }
    rewrite Href in HpcA. rewrite HpcA. cbn. by rewrite HsA.
Defined.

(* ===================================================================== *)
(** * A call that fails half way *)
(* ===================================================================== *)

(** X18.  When the channel takes the session record but rejects the offer
    for the first receiver, [startCall] fails with the channel's error and
    [isCalling] is reset, but nothing else is undone: the record stays on
    the channel as [ringing], no timer is set for it, the local stream
    stays on and the connection created for the receiver stays in the
    table. *)
Theorem startCall_stops_at_a_rejected_offer (e : Env) (w : World) (r : string)
    (rest : list string) (ty : CallType) (u : User) :
  user w = Some u -> webRTCService w = true ->
  hasMediaDevices e = true -> secureContext e = true -> gumError e = None ->
  writeOk e (CallPath (autoId e)) = true ->
  writeOk e (OfferPath (autoId e) r) = false ->
  peerConnections w !! r = None -> length (r :: rest) <= 4 ->
  exists w',
    startCall e (r :: rest) ty w = (Throw (FirebaseError "permission-denied"), w') /\
    calls (db w') !! autoId e = Some (new_call_doc e u (r :: rest) ty) /\
    status (new_call_doc e u (r :: rest) ty) = ringing /\
    offers (db w') = offers (db w) /\
    timers w' = timers w /\
    isCalling (callState w') = false /\ isInCall (callState w') = isInCall (callState w) /\
    is_Some (localStream w') /\
    is_Some (peerConnections w' !! r).
Proof.
  intros Hu Hs Hm Hsec Hg Hcall Hoff Hnone Hlen.
  unfold startCall. do 2 run_step. rewrite Hu, Hs.
  rewrite bool_decide_eq_false_2 by (unfold MAX_PARTICIPANTS; cbn in *; lia).
  destruct (createOffer_fresh e
              (set_callId (Some (autoId e))
                 (set_db (set_calls <[autoId e := new_call_doc e u (r :: rest) ty]>)
                    (set_localStream
                       (Some (acquire (bool_decide (ty = voice))
                                (stop_all (default [] (localStream w)) (trackHeap w))).1)
                       (set_trackHeap
                          (fun _ => (acquire (bool_decide (ty = voice))
                                       (stop_all (default [] (localStream w))
                                          (trackHeap w))).2)
                          (set_callState (fun prev =>
                             mkCallState (cs_callId prev) (isInCall prev) true
                               (isReceivingCall prev) (Some ty) (cs_localStream prev)
                               (remoteStreams prev) (cs_participants prev) (isMuted prev)
                               (isVideoOff prev)) w))))) r)
    as [tr Hoffer]; [exact Hnone|]. cbv zeta in Hoffer.
  eexists. split.
  - erewrite try_catch_throw.
    2:{ unfold setCallState at 1. run_step.
        match goal with |- context [bind (initializeLocalStream e ?b) _ ?w1] =>
          rewrite (bind_ok _ _ _ _ _ (initializeLocalStream_run e b w1 Hm Hsec Hg)) end.
        erewrite bind_ok.
        2:{ apply (setDoc_call_run e (autoId e) (new_call_doc e u (r :: rest) ty));
              [by apply new_call_doc_receiver|exact Hcall]. }
        unfold setCallId at 1. run_step.
        apply bind_throw. cbn [forEach]. apply bind_throw.
        unfold offer_to. cbn [localStream set_callState trackHeap].
        rewrite (bind_ok _ _ _ _ _ Hoffer).
        apply bind_throw. unfold setDoc_offer. rewrite Hoff. reflexivity. }
    unfold console, setCallState. do 2 run_step. reflexivity.
  - cbn. split_and!; try reflexivity.
    + apply lookup_insert_eq.
    + by eexists.
    + rewrite lookup_insert_eq. by eexists.
Qed.

Lemma startCall_stops_at_a_rejected_offer_witness :
  exists w', startCall (env_no_offers 900) ["alice"] video (idle bob db_users)
             = (Throw (FirebaseError "permission-denied"), w') /\
             is_Some (calls (db w') !! "call-4") /\ timers w' = [].
Proof.
  destruct (startCall_stops_at_a_rejected_offer (env_no_offers 900) (idle bob db_users)
              "alice" [] video bob eq_refl eq_refl eq_refl eq_refl eq_refl eq_refl eq_refl)
    as (w' & Hrun & Hdoc & _ & _ & Htimers & _).
  - apply lookup_empty.
  - cbn. lia.
  - exists w'. split_and!; [exact Hrun| |exact Htimers].
    change (autoId (env_no_offers 900)) with "call-4" in Hdoc. rewrite Hdoc. by eexists.
Defined.

(* ===================================================================== *)
(** * Answering on a link that is already there *)
(* ===================================================================== *)

Lemma acquire_new audioOnly (h : gmap nat MediaStreamTrack) t :
  t ∈ (acquire audioOnly h).1 -> h !! t = None.
Proof.
  unfold acquire. set (a := fresh (dom h)).
  assert (Ha : a ∉ dom h) by apply is_fresh.
  destruct audioOnly; cbn.
  - intros ->%list_elem_of_singleton. by apply not_elem_of_dom.
  - set (v := fresh (dom (<[a := new_track audio_track]> h))).
    assert (Hv : v ∉ dom (<[a := new_track audio_track]> h)) by apply is_fresh.
    intros [->|Ht%list_elem_of_singleton]%elem_of_cons.
    + by apply not_elem_of_dom.
    + subst t. apply not_elem_of_dom. intros Hin. apply Hv.
      rewrite dom_insert_L. set_solver.
Qed.

Lemma acquire_old audioOnly (h : gmap nat MediaStreamTrack) t tr :
  h !! t = Some tr -> (acquire audioOnly h).2 !! t = Some tr.
Proof.
  intros Ht. unfold acquire. set (a := fresh (dom h)).
  assert (Ha : a ≠ t).
  { intros <-. apply (is_fresh (dom h)). by apply elem_of_dom_2 in Ht. }
  destruct audioOnly; cbn.
  - by rewrite lookup_insert_ne.
  - set (v := fresh (dom (<[a := new_track audio_track]> h))).
    assert (Hv : v ≠ t).
    { intros Heq. apply (is_fresh (dom (<[a := new_track audio_track]> h))).
      fold v. rewrite Heq, dom_insert_L. apply elem_of_union_r.
      eapply elem_of_dom_2. exact Ht. }
    by rewrite !lookup_insert_ne.
Qed.

(** [createAnswer] on an open connection to the sender of the offer: the
    connection is used as it is. *)
Lemma createAnswer_on_open_link e w remoteUserId d pc o :
  peerConnections w !! remoteUserId = Some d ->
  pcHeap w !! connection d = Some pc ->
  connectionState pc ≠ conn_closed ->
  signalingState pc = stable \/ signalingState pc = have_local_offer ->
  dtype o = offer ->
  let a := {| dtype := answer; sdp := sdpGen e answer |} in
  createAnswer e remoteUserId o w
  = (Ok a,
     set_pcHeap <[connection d := answering_on o a pc]>
       (said (Console log ("Using existing peer connection for " +:+ remoteUserId)) w)).
Proof.
  intros Hd Hpc Hc Hsig Ho a. unfold createAnswer.
  rewrite (bind_ok _ _ _ _ _ (createPeerConnection_reuse _ _ _ _ Hd Hpc Hc)).
  apply try_catch_ok.
  assert (Hset : exists pc1,
    pc_setRemoteDescription o pc = inr pc1 /\
    signalingState pc1 = have_remote_offer /\
    connectionState pc1 = connectionState pc /\ remoteDescription pc1 = Some o /\
    senders pc1 = senders pc /\ remoteCandidates pc1 = remoteCandidates pc).
  { unfold pc_setRemoteDescription. rewrite Ho.
    destruct Hsig as [Hsig|Hsig]; rewrite Hsig; cbn;
      (eexists; split; [reflexivity|]); by split_and!. }
  destruct Hset as (pc1 & Hset & Hs1 & Hc1 & Hr1 & Hse1 & Hrc1).
  erewrite bind_ok by (eapply pc_call_ok; [exact Hpc|exact Hset]).
  erewrite bind_ok.
  2:{ eapply (pc_query_ok _ _ _ pc1); [cbn; apply lookup_insert_eq|].
      unfold pc_createAnswer. rewrite Hs1. reflexivity. }
  erewrite bind_ok.
  2:{ eapply (pc_call_ok _ _ _ pc1); [cbn; apply lookup_insert_eq|].
      unfold pc_setLocalDescription. cbn. rewrite Hs1. cbn. reflexivity. }
  unfold ret. f_equal. unfold set_pcHeap, answering_on. cbn.
  rewrite insert_insert_eq, Hc1, Hr1, Hse1, Hrc1. reflexivity.
Qed.

(** X19.  A receiver answers a call while it holds an open connection to
    the caller, left over from an earlier call ([stable]) or carrying an
    offer of its own because both sides called each other
    ([have-local-offer]).  When capture works and the channel accepts the
    writes, [answerCall] goes through on that connection: no connection is
    created, the link ends [stable] with the caller's offer as remote and
    the published answer as local description (a pending offer of its own
    is gone), and the session record is [active].  But the connection keeps
    the senders it had: the tracks of the stream held before have all been
    stopped by [initializeLocalStream], and no track of the new local
    stream is attached to it. *)
Theorem answerCall_reuses_an_open_link (e : Env) (w : World) (callId : string)
    (u : User) (ic : Call) (od : SignalDoc) (cdoc : CallDoc) (d : PeerConnection)
    (pc : RTCPeerConnection) :
  user w = Some u -> webRTCService w = true -> incomingCall w = Some ic ->
  good_env e ->
  offers (db w) !! (callId, uid u) = Some od -> dtype (description od) = offer ->
  calls (db w) !! callId = Some cdoc ->
  peerConnections w !! fromUserId od = Some d ->
  pcHeap w !! connection d = Some pc ->
  connectionState pc ≠ conn_closed ->
  signalingState pc = stable \/ signalingState pc = have_local_offer ->
  (forall t, t ∈ senders pc -> is_Some (trackHeap w !! t)) ->
  exists w' a pc' tracks,
    answerCall e callId w = (Ok tt, w') /\
    peerConnections w' = peerConnections w /\
    dom (pcHeap w') = dom (pcHeap w) /\
    pcHeap w' !! connection d = Some pc' /\
    signalingState pc' = stable /\
    remoteDescription pc' = Some (description od) /\
    localDescription pc' = Some a /\ dtype a = answer /\
    answers (db w') !! (callId, uid u) = Some (answer_doc e u (fromUserId od) a) /\
    (status <$> calls (db w') !! callId) = Some active /\
    senders pc' = senders pc /\
    localStream w' = Some tracks /\
    (forall t, t ∈ tracks -> t ∉ senders pc') /\
    (forall old t tr, localStream w = Some old -> t ∈ old -> trackHeap w !! t = Some tr ->
       trackHeap w' !! t = Some (track_stop tr)).
Proof.
  intros Hu Hs Hic (Hm & Hsec & Hg & Hwrite) Hod Ho Hdoc Hd Hpc Hc Hsig Hsenders.
  unfold answerCall. do 3 run_step. rewrite Hu, Hs, Hic.
  set (h0 := stop_all (default [] (localStream w)) (trackHeap w)).
  set (acq := acquire (bool_decide (type (data ic) = voice)) h0).
  set (a := {| dtype := answer; sdp := sdpGen e answer |}).
  eexists _, a, (answering_on (description od) a pc), acq.1. split.
  - apply try_catch_ok.
    rewrite (bind_ok _ _ _ _ _ (initializeLocalStream_run e _ w Hm Hsec Hg)).
    fold h0 acq. unfold setCallId. do 2 run_step.
    cbn [db set_callId set_localStream set_trackHeap]. rewrite Hod.
    erewrite (bind_ok (bind (createAnswer _ _ _) _)).
    2:{ erewrite bind_ok.
        2:{ apply (createAnswer_on_open_link e _ _ d pc); [exact Hd|exact Hpc|done..]. }
        unfold setDoc_answer. rewrite Hwrite. run_step.
        unfold listenForCandidates. run_step.
        unfold setupRemoteStreamListener. run_step. cbn. rewrite Hd. reflexivity. }
    erewrite bind_ok.
    2:{ apply (updateDoc_call_run _ _ _ cdoc); [apply Hwrite|exact Hdoc]. }
    rewrite (bind_ok _ _ _ _ _ (mapM_getUser _ _)).
    unfold setCallState, setIncomingCall. run_step. apply modify_run.
  - cbn. split_and!; try reflexivity.
    + rewrite dom_insert_L. apply elem_of_dom_2 in Hpc. set_solver.
    + apply lookup_insert_eq.
    + apply lookup_insert_eq.
    + by rewrite lookup_insert_eq.
    + intros t Ht Hin. destruct (Hsenders t Hin) as [tr Htr].
      apply acquire_new in Ht. unfold h0 in Ht.
      assert (Hdom : t ∈ dom (stop_all (default [] (localStream w)) (trackHeap w))).
      { rewrite stop_all_dom. by apply elem_of_dom_2 in Htr. }
      apply not_elem_of_dom in Ht. by apply Ht.
    + intros old t tr Hls Hin Ht. apply acquire_old. unfold h0. rewrite Hls.
      by apply stop_all_lookup.
Qed.

Lemma answerCall_reuses_an_open_link_witness :
  exists w',
    answerCall (env_ok 2000) "call-1" bob_calling_too = (Ok tt, w') /\
    (signalingState <$> pcHeap w' !! 0) = Some stable /\
    (senders <$> pcHeap w' !! 0) = Some [0; 1] /\
    localStream w' = Some [2; 3].
Proof.
  assert (Hgood : good_env (env_ok 2000)) by (by split_and!).
  assert (Hu : user bob_calling_too = Some bob) by (vm_compute; reflexivity).
  assert (Hs : webRTCService bob_calling_too = true) by (vm_compute; reflexivity).
  assert (Hic : incomingCall bob_calling_too = Some call_to_bob)
    by (vm_compute; reflexivity).
  assert (Hod : offers (db bob_calling_too) !! ("call-1", uid bob)
                = Some (offer_doc (env_ok 1000) alice "bob"
                          {| dtype := offer; sdp := "v=0 offer" |})).
  { vm_compute. reflexivity. }
  assert (Hdoc : calls (db bob_calling_too) !! "call-1" = Some (data call_to_bob)).
  { vm_compute. reflexivity. }
  assert (Hd : peerConnections bob_calling_too
               !! fromUserId (offer_doc (env_ok 1000) alice "bob"
                                {| dtype := offer; sdp := "v=0 offer" |})
               = Some (entry "alice" 0)).
  { vm_compute. reflexivity. }
  assert (Hpc : pcHeap bob_calling_too !! connection (entry "alice" 0) = Some pc_offered).
  { vm_compute. reflexivity. }
  assert (Hc : connectionState pc_offered ≠ conn_closed) by discriminate.
  assert (Hsig : signalingState pc_offered = stable \/
                 signalingState pc_offered = have_local_offer) by (by right).
  assert (Hsenders : forall t, t ∈ senders pc_offered ->
                               is_Some (trackHeap bob_calling_too !! t)).
  { intros t Ht. change (t ∈ [0; 1]) in Ht.
    apply elem_of_cons in Ht as [->|Ht]; [vm_compute; by eexists|].
    apply list_elem_of_singleton in Ht as ->. vm_compute. by eexists. }
  destruct (answerCall_reuses_an_open_link (env_ok 2000) bob_calling_too "call-1" bob
              call_to_bob _ _ (entry "alice" 0) pc_offered
              Hu Hs Hic Hgood Hod eq_refl Hdoc Hd Hpc Hc Hsig Hsenders)
    as (w' & a & pc' & tracks & Hrun & _ & _ & Hpc' & Hst & _ & _ & _ & _ & _ & Hse & Hls & _).
  exists w'. split_and!.
  - exact Hrun.
  - change (connection (entry "alice" 0)) with 0 in Hpc'. rewrite Hpc'. cbn. by rewrite Hst.
  - change (connection (entry "alice" 0)) with 0 in Hpc'. rewrite Hpc'. cbn. by rewrite Hse.
  - assert (Hls' : localStream (answerCall (env_ok 2000) "call-1" bob_calling_too).2
                   = Some [2; 3]).
    { vm_compute. reflexivity. }
    rewrite Hrun in Hls'. exact Hls'.
Defined.

(* ===================================================================== *)
(** * One connection per remote participant, at all times *)
(* ===================================================================== *)

Lemma links_ok_same w w' :
  peerConnections w' = peerConnections w -> dom (pcHeap w') = dom (pcHeap w) ->
  links_ok w -> links_ok w'.
Proof.
  intros Hp Hh [Hentry Hinj]. split.
  - intros r d Hd. rewrite Hp in Hd. destruct (Hentry r d Hd) as [Hid Hin].
    split; [done|]. apply elem_of_dom. rewrite Hh. by apply elem_of_dom.
  - intros r r' d d'. rewrite Hp. apply Hinj.
Qed.

Lemma links_ok_fewer w w' :
  peerConnections w' ⊆ peerConnections w -> dom (pcHeap w') = dom (pcHeap w) ->
  links_ok w -> links_ok w'.
Proof.
  intros Hp Hh [Hentry Hinj]. split.
  - intros r d Hd. apply (lookup_weaken _ _ _ _ Hd) in Hp.
    destruct (Hentry r d Hp) as [Hid Hin].
    split; [done|]. apply elem_of_dom. rewrite Hh. by apply elem_of_dom.
  - intros r r' d d' Hd Hd'. apply (Hinj r r' d d'); by eapply lookup_weaken.
Qed.

(** One step through a handler for [links_ok]: state changes that leave the
    table and the set of connections alone are discharged. *)
Ltac links_step :=
  lazymatch goal with
  | |- preserves _ (modify _) =>
      apply preserves_modify; intros ? ?;
      first [ assumption
            | eapply links_ok_same; [| |eassumption];
              [reflexivity|cbn; rewrite ?dom_alter_L; reflexivity] ]
  | |- _ => preserves_step
  end.

Ltac links_auto := repeat (links_step || (progress eauto with preserves)).

Lemma links_pc_call ref op : preserves links_ok (pc_call ref op).
Proof.
  intros w Hw. unfold pc_call, bind, deref.
  destruct (pcHeap w !! ref) as [pc|] eqn:Hpc; [|done].
  destruct (op pc) as [err|pc']; [done|]. cbn.
  apply (links_ok_same w); [done| |done]. cbn.
  rewrite dom_insert_L. apply elem_of_dom_2 in Hpc. set_solver.
Qed.

Lemma links_pc_query {A} ref (op : RTCPeerConnection -> Err + A) :
  preserves links_ok (pc_query ref op).
Proof. unfold pc_query. links_auto. Qed.

Lemma links_console lvl msg : preserves links_ok (console lvl msg).
Proof. unfold console. links_auto. Qed.

Lemma links_alert msg : preserves links_ok (alert msg).
Proof. unfold alert. links_auto. Qed.

Lemma links_alloc_track k : preserves links_ok (alloc_track k).
Proof. intros w Hw. by apply (links_ok_same w). Qed.

Lemma links_updateDoc_call e callId f : preserves links_ok (updateDoc_call e callId f).
Proof.
  intros w Hw. unfold updateDoc_call. destruct (writeOk e _); [|done].
  destruct (calls (db w) !! callId); [|done]. by apply (links_ok_same w).
Qed.

Lemma links_newPeerConnection r : preserves links_ok (newPeerConnection r).
Proof.
  intros w [Hentry Hinj].
  destruct (newPeerConnection_spec w r) as [tr Hrun]. cbv zeta in Hrun.
  rewrite Hrun. cbn [snd].
  assert (Hfresh : pcHeap w !! fresh (dom (pcHeap w)) = None).
  { apply not_elem_of_dom, is_fresh. }
  split.
  - intros r' d. cbn. rewrite lookup_insert. case_decide as Hr.
    + intros [= <-]. split; [done|]. cbn. rewrite lookup_insert_eq. by eexists.
    + intros Hd. destruct (Hentry r' d Hd) as [Hid [pc Hpc]]. split; [done|].
      rewrite lookup_insert_ne; [by eexists|]. intros Heq. rewrite <- Heq in Hpc.
      by rewrite Hfresh in Hpc.
  - intros r1 r2 d1 d2. cbn. rewrite !lookup_insert.
    case_decide as H1; case_decide as H2; subst.
    + done.
    + intros [= <-] Hd2 Heq. cbn in Heq.
      destruct (Hentry r2 d2 Hd2) as [_ [pc Hpc]]. rewrite <- Heq in Hpc.
      by rewrite Hfresh in Hpc.
    + intros Hd1 [= <-] Heq. cbn in Heq.
      destruct (Hentry r1 d1 Hd1) as [_ [pc Hpc]]. rewrite Heq in Hpc.
      by rewrite Hfresh in Hpc.
    + apply Hinj.
Qed.

Lemma links_closePeerConnection r : preserves links_ok (closePeerConnection r).
Proof.
  unfold closePeerConnection.
  links_step; [links_auto|]. destruct a as [d|]; [|links_auto].
  links_step; [links_auto|]. links_step; [|apply links_console].
  apply preserves_modify. intros w Hw. apply (links_ok_fewer w); [|done|done].
  cbn. apply delete_subseteq.
Qed.

Hint Resolve links_pc_call links_pc_query links_console links_alert links_alloc_track
  links_updateDoc_call links_newPeerConnection links_closePeerConnection : preserves.

Lemma links_createPeerConnection r : preserves links_ok (createPeerConnection r).
Proof. unfold createPeerConnection. links_auto. Qed.

Hint Resolve links_createPeerConnection : preserves.

Lemma links_initializeLocalStream e audioOnly :
  preserves links_ok (initializeLocalStream e audioOnly).
Proof. unfold initializeLocalStream, getUserMedia, stopTracks. links_auto. Qed.

Lemma links_createOffer e r : preserves links_ok (createOffer e r).
Proof. unfold createOffer. links_auto. Qed.

Lemma links_createAnswer e r o : preserves links_ok (createAnswer e r o).
Proof. unfold createAnswer. links_auto. Qed.

Lemma links_handleAnswer r a : preserves links_ok (handleAnswer r a).
Proof. unfold handleAnswer. links_auto. Qed.

Lemma links_handleIceCandidate r c : preserves links_ok (handleIceCandidate r c).
Proof. unfold handleIceCandidate. links_auto. Qed.

Lemma links_toggleTracks k en : preserves links_ok (toggleTracks k en).
Proof. unfold toggleTracks. links_auto. Qed.

Lemma links_cleanup : preserves links_ok cleanup.
Proof.
  unfold cleanup, stopTracks.
  links_step; [links_auto|]. links_step; [links_auto|].
  links_step; [links_auto|]. links_step; [links_auto|].
  links_step; [|links_auto].
  apply preserves_modify. intros w Hw. apply (links_ok_fewer w); [|done|done].
  cbn. apply map_empty_subseteq.
Qed.

Lemma links_onconnectionstatechange r ref s :
  preserves links_ok (onconnectionstatechange r ref s).
Proof. unfold onconnectionstatechange. links_auto. Qed.

Hint Resolve links_initializeLocalStream links_createOffer links_createAnswer
  links_handleAnswer links_handleIceCandidate links_toggleTracks links_cleanup
  links_onconnectionstatechange : preserves.

Lemma links_perform e a : preserves links_ok (perform e a).
Proof.
  destruct a; cbn [perform].
  - unfold startCall, offer_to, setDoc_call, setDoc_offer, setCallId,
      listenForCandidates, setupRemoteStreamListener, getUser, setCallState, setTimeout.
    links_auto.
  - unfold answerCall, setDoc_answer, setCallId, listenForCandidates,
      setupRemoteStreamListener, getUser, setCallState, setIncomingCall.
    links_auto.
  - unfold declineCall, clearReceiving, setCallState, setIncomingCall. links_auto.
  - unfold endCall, setCallState, setIncomingCall. links_auto.
  - unfold toggleMute, toggleAudio, setCallState. links_auto.
  - unfold toggleVideoOff, toggleVideo, setCallState. links_auto.
  - unfold fireTimer, runTask. links_auto.
  - unfold onCallAdded, setCallState, setIncomingCall. links_auto.
  - unfold onCallModified, clearReceiving, setCallState, setIncomingCall. links_auto.
  - unfold onCallRemoved, clearReceiving, setCallState, setIncomingCall. links_auto.
  - links_auto.
  - links_auto.
  - links_auto.
  - links_auto.
Qed.

Lemma links_client_after steps w : links_ok w -> links_ok (client_after steps w).
Proof.
  revert w. induction steps as [|[e a] steps IH]; intros w Hw; [done|].
  cbn. apply IH. by apply links_perform.
Qed.

(** X20.  Whatever handlers a client runs, in whatever environments and
    whether they succeed or fail, its connection table stays sound: every
    entry is filed under the user it is for, names a connection that exists,
    and shares it with no other entry.  A client that starts without
    connections is therefore always in this state. *)
Theorem connections_are_never_shared (steps : list (Env * Action)) (w : World) :
  links_ok w ->
  forall r r' d d',
    peerConnections (client_after steps w) !! r = Some d ->
    peerConnections (client_after steps w) !! r' = Some d' ->
    pc_userId d = r /\
    is_Some (pcHeap (client_after steps w) !! connection d) /\
    (r ≠ r' -> connection d ≠ connection d').
Proof.
  intros Hw r r' d d' Hd Hd'.
  destruct (links_client_after steps w Hw) as [Hentry Hinj].
  destruct (Hentry r d Hd) as [Hid Hin]. split_and!; [done..|].
  intros Hne Heq. apply Hne. by apply (Hinj r r' d d').
Qed.

Lemma connections_are_never_shared_witness :
  exists d,
    peerConnections (client_after [(env_ok 1000, DoStartCall ["bob"; "carol"] video);
                                   (env_ok 1500, DoHandleAnswer "bob" answer_bob)]
                       (idle alice db_users)) !! "bob" = Some d /\
    connection d ≠ 1.
Proof.
  set (steps := [(env_ok 1000, DoStartCall ["bob"; "carol"] video);
                 (env_ok 1500, DoHandleAnswer "bob" answer_bob)]).
  assert (Hw : links_ok (idle alice db_users)).
  { split.
    - intros r d Hd. cbn in Hd. by rewrite lookup_empty in Hd.
    - intros r r' d d' Hd. cbn in Hd. by rewrite lookup_empty in Hd. }
  assert (Hb : peerConnections (client_after steps (idle alice db_users)) !! "bob"
               = Some (entry "bob" 0)).
  { vm_compute. reflexivity. }
  assert (Hc : peerConnections (client_after steps (idle alice db_users)) !! "carol"
               = Some (entry "carol" 1)).
  { vm_compute. reflexivity. }
  destruct (connections_are_never_shared steps (idle alice db_users) Hw
              "bob" "carol" _ _ Hb Hc) as (_ & _ & Hne).
  exists (entry "bob" 0). split; [exact Hb|]. by apply Hne.
Defined.

(* ===================================================================== *)
(** * A declined call *)
(* ===================================================================== *)

(** X21.  A receiver declines a call.  The session record then says
    [missed], and when the listener of any other client is told of the
    change (as a modification of the record, or as its leaving the ringing
    calls) that client's prompt for this call is taken down.  The same
    handlers never end a call: on the caller's client, which is in the call
    since [startCall], they change nothing it is in. *)
Theorem a_declined_call_stops_ringing_everywhere (e : Env) (wb : World) (ic : Call)
    (cdoc : CallDoc) :
  incomingCall wb = Some ic -> writeOk e (CallPath (id ic)) = true ->
  calls (db wb) !! id ic = Some cdoc ->
  exists doc,
    calls (db (declineCall e wb).2) !! id ic = Some doc /\ status doc = missed /\
    forall (w : World) (m : M unit),
      m = onCallModified doc \/ m = onCallRemoved (id ic) ->
      (m w).1 = Ok tt /\
      ((id <$> incomingCall w) = Some (id ic) ->
       incomingCall (m w).2 = None /\ isReceivingCall (callState (m w).2) = false) /\
      isInCall (callState (m w).2) = isInCall (callState w) /\
      cs_callId (callState (m w).2) = cs_callId (callState w) /\
      peerConnections (m w).2 = peerConnections w /\
      localStream (m w).2 = localStream w /\ timers (m w).2 = timers w /\
      db (m w).2 = db w.
Proof.
  intros Hic Hwrite Hdoc. exists (finished missed (now e) cdoc). split_and!.
  - unfold declineCall. run_step. rewrite Hic.
    erewrite try_catch_ok.
    2:{ rewrite (bind_ok _ _ _ _ _ (updateDoc_call_run _ _ _ _ _ Hwrite Hdoc)).
        unfold setIncomingCall, clearReceiving, setCallState. run_step. apply modify_run. }
    cbn. apply lookup_insert_eq.
  - reflexivity.
  - intros w m [-> | ->].
    + unfold onCallModified. rewrite bool_decide_eq_true_2 by (by right).
      unfold setIncomingCall, clearReceiving, setCallState. run_step. rewrite modify_run.
      by split_and!.
    + unfold onCallRemoved. run_step. case_bool_decide as Hid.
      * unfold setIncomingCall, clearReceiving, setCallState. run_step. rewrite modify_run.
        by split_and!.
      * by split_and!.
Qed.

Lemma a_declined_call_stops_ringing_everywhere_witness :
  incomingCall (onCallRemoved "call-1" bob_ringing).2 = None /\
  isInCall (callState (onCallRemoved "call-1" w_group).2) = true.
Proof.
  assert (Hdoc : calls (db bob_invited) !! id call_to_bob
                 = Some (new_call_doc (env_ok 1000) alice ["bob"] video)).
  { vm_compute. reflexivity. }
  assert (Hic : incomingCall bob_invited = Some call_to_bob) by (vm_compute; reflexivity).
  destruct (a_declined_call_stops_ringing_everywhere (env_ok 1500) bob_invited call_to_bob _
              Hic eq_refl Hdoc) as (doc & _ & _ & Hall).
  split.
  - destruct (Hall bob_ringing (onCallRemoved "call-1") (or_intror eq_refl))
      as (_ & Hclear & _).
    apply Hclear. vm_compute. reflexivity.
  - destruct (Hall w_group (onCallRemoved "call-1") (or_intror eq_refl))
      as (_ & _ & Hin & _).
    rewrite Hin. vm_compute. reflexivity.
Defined.

(* ===================================================================== *)
(** * Turning the camera off *)
(* ===================================================================== *)

(** X22.  [toggleVideo] of the provider does nothing without a service.
    With one it flips [isVideoOff] and makes the video tracks of the local
    stream agree with it: each is enabled exactly when video is not off.
    Audio tracks, [isMuted] and connections are left alone; in a voice
    call, whose stream has no video track, only the flag changes. *)
Theorem toggleVideo_keeps_tracks_and_flag_together (w : World) :
  (webRTCService w = false -> toggleVideoOff w = (Ok tt, w)) /\
  (webRTCService w = true ->
   exists w',
     toggleVideoOff w = (Ok tt, w') /\
     isVideoOff (callState w') = negb (isVideoOff (callState w)) /\
     isMuted (callState w') = isMuted (callState w) /\
     (forall t tr, t ∈ default [] (localStream w) -> trackHeap w !! t = Some tr ->
        exists tr', trackHeap w' !! t = Some tr' /\
                    enabled tr'
                    = if decide (kind tr = video_track)
                      then negb (isVideoOff (callState w')) else enabled tr) /\
     ((forall t tr, t ∈ default [] (localStream w) -> trackHeap w !! t = Some tr ->
                    kind tr = audio_track) ->
      forall t, trackHeap w' !! t = trackHeap w !! t) /\
     pcHeap w' = pcHeap w /\ localStream w' = localStream w /\ db w' = db w).
Proof.
  split.
  - intros Hs. unfold toggleVideoOff. run_step. by rewrite Hs.
  - intros Hs. eexists. split.
    { unfold toggleVideoOff. run_step. rewrite Hs. run_step.
      unfold toggleVideo. rewrite (bind_ok _ _ _ _ _ (toggleTracks_run _ _ _)).
      unfold setCallState. apply modify_run. }
    split_and!; try reflexivity.
    + intros t tr Hin Ht. cbn. rewrite toggle_all_lookup, Ht.
      rewrite decide_True by done. cbn. unfold set_enabled_if.
      destruct (decide (kind tr = video_track)); eexists; (split; [reflexivity|]).
      * cbn. by rewrite negb_involutive.
      * done.
    + intros Haudio t. cbn. rewrite toggle_all_lookup.
      destruct (decide (t ∈ default [] (localStream w))) as [Hin|]; [|done].
      destruct (trackHeap w !! t) as [tr|] eqn:Ht; [|done]. cbn.
      unfold set_enabled_if. rewrite decide_False; [done|].
      rewrite (Haudio t tr Hin Ht). discriminate.
Qed.

Lemma toggleVideo_keeps_tracks_and_flag_together_witness :
  isVideoOff (callState (toggleVideoOff w_answered).2) = true /\
  (enabled <$> trackHeap (toggleVideoOff w_answered).2 !! 1) = Some false.
Proof.
  destruct (proj2 (toggleVideo_keeps_tracks_and_flag_together w_answered))
    as (w' & Hrun & Hflag & _ & Htracks & _).
  - reflexivity.
  - rewrite Hrun. cbn [snd]. split.
    + rewrite Hflag. vm_compute. reflexivity.
    + destruct (Htracks 1 (new_track video_track)) as (tr' & Hlook & Hen).
      * vm_compute. apply list_elem_of_further, list_elem_of_here.
      * vm_compute. reflexivity.
      * rewrite Hlook. cbn. rewrite Hen, Hflag. vm_compute. reflexivity.
Defined.

(* ===================================================================== *)
(** * The dashboard *)
(* ===================================================================== *)

Lemma elem_of_toggleUserSelection i userId prev :
  i ∈ toggleUserSelection userId prev
  <-> (i ≠ userId /\ i ∈ prev) \/ (i = userId /\ userId ∉ prev).
Proof.
  unfold toggleUserSelection. case_bool_decide as Hin.
  - rewrite list_elem_of_filter. naive_solver.
  - rewrite elem_of_app, list_elem_of_singleton.
    destruct (decide (i = userId)); naive_solver.
Qed.

Lemma NoDup_toggleUserSelection userId prev :
  NoDup prev -> NoDup (toggleUserSelection userId prev).
Proof.
  intros Hnd. unfold toggleUserSelection. case_bool_decide as Hin.
  - by apply NoDup_filter.
  - apply NoDup_app. split_and!; [done| |apply NoDup_singleton].
    intros x Hx Hx'%list_elem_of_singleton. by subst.
Qed.

Lemma selection_from prev clicks i :
  bool_decide (i ∈ foldl (fun prev userId => toggleUserSelection userId prev) prev clicks)
  = xorb (bool_decide (i ∈ prev)) (Nat.odd (clicks_on i clicks)).
Proof.
  revert prev. induction clicks as [|x clicks IH]; intros prev.
  - cbn. by rewrite xorb_false_r.
  - cbn [foldl]. rewrite IH. unfold clicks_on. rewrite filter_cons.
    assert (Hmem : bool_decide (i ∈ toggleUserSelection x prev)
                   = if decide (x = i) then negb (bool_decide (i ∈ prev))
                     else bool_decide (i ∈ prev)).
    { destruct (decide (x = i)) as [->|Hne].
      - destruct (decide (i ∈ prev)) as [Hin|Hnin].
        + rewrite (bool_decide_eq_true_2 (i ∈ prev)) by done. cbn.
          apply bool_decide_eq_false_2. rewrite elem_of_toggleUserSelection. naive_solver.
        + rewrite (bool_decide_eq_false_2 (i ∈ prev)) by done. cbn.
          apply bool_decide_eq_true_2. rewrite elem_of_toggleUserSelection. naive_solver.
      - apply bool_decide_ext. rewrite elem_of_toggleUserSelection. naive_solver. }
    rewrite Hmem. destruct (decide (x = i)) as [->|Hne].
    + cbn [length]. rewrite Nat.odd_succ, <- Nat.negb_odd.
      by destruct (bool_decide (i ∈ prev)), (Nat.odd _).
    + done.
Qed.

Lemma selection_after_NoDup clicks : NoDup (selection_after clicks).
Proof.
  unfold selection_after. generalize (NoDup_nil_2 (A := string)).
  generalize (@nil string). induction clicks as [|x clicks IH]; intros prev Hnd; [done|].
  cbn [foldl]. apply IH. by apply NoDup_toggleUserSelection.
Qed.

Lemma selection_after_clicked clicks i : i ∈ selection_after clicks -> i ∈ clicks.
Proof.
  intros Hin'. pose proof (bool_decide_eq_true_2 _ Hin') as Hin. clear Hin'.
  unfold selection_after in Hin. rewrite selection_from in Hin.
  rewrite (bool_decide_eq_false_2 (i ∈ [])) in Hin by apply not_elem_of_nil.
  cbn in Hin. unfold clicks_on in Hin.
  destruct (filter (fun x => x = i) clicks) as [|y l] eqn:Hf; [done|].
  assert (Hy : y ∈ filter (fun x => x = i) clicks) by (rewrite Hf; left).
  apply list_elem_of_filter in Hy as [-> Hy]. done.
Qed.

(** X23.  The selection of the group-call dialog follows the clicks: a
    user is selected exactly when clicked an odd number of times, and is
    never listed twice.  One more click on a user changes the selection for
    that user only. *)
Theorem selection_follows_the_clicks (clicks : list string) :
  NoDup (selection_after clicks) /\
  (forall i, i ∈ selection_after clicks <-> Nat.odd (clicks_on i clicks) = true) /\
  (forall userId i,
     i ∈ selection_after (clicks ++ [userId])
     <-> (if decide (i = userId) then i ∉ selection_after clicks
          else i ∈ selection_after clicks)) /\
  (forall userId,
     selection_after (clicks ++ [userId])
     = toggleUserSelection userId (selection_after clicks)).
Proof.
  split_and!.
  - apply selection_after_NoDup.
  - intros i. unfold selection_after.
    rewrite <- (bool_decide_eq_true (i ∈ _)), selection_from.
    rewrite (bool_decide_eq_false_2 (i ∈ [])) by apply not_elem_of_nil. done.
  - intros userId i. unfold selection_after. rewrite foldl_app. cbn [foldl].
    rewrite elem_of_toggleUserSelection. case_decide; naive_solver.
  - intros userId. unfold selection_after. by rewrite foldl_app.
Qed.

Lemma selection_follows_the_clicks_witness :
  "bob" ∈ selection_after ["bob"; "carol"; "bob"; "bob"] /\
  "dave" ∉ selection_after ["bob"; "dave"; "dave"].
Proof.
  split.
  - apply (proj1 (proj2 (selection_follows_the_clicks ["bob"; "carol"; "bob"; "bob"]))).
    vm_compute. reflexivity.
  - intros Hin.
    apply (proj1 (proj2 (selection_follows_the_clicks ["bob"; "dave"; "dave"]))) in Hin.
    vm_compute in Hin. discriminate.
Defined.

Lemma startCall_without_media e w rs ty :
  is_Some (user w) -> webRTCService w = true -> length rs <= 4 -> no_media e ->
  exists err w',
    startCall e rs ty w = (Throw err, w') /\
    trace w' = trace w ++ [Console error "Error accessing media devices:";
                           Console error "Error starting call:"] /\
    db w' = db w /\ peerConnections w' = peerConnections w /\ timers w' = timers w /\
    isCalling (callState w') = false /\
    isInCall (callState w') = isInCall (callState w).
Proof.
  intros [u Hu] Hready Hlen Hno. unfold startCall. do 2 run_step. rewrite Hu, Hready.
  rewrite bool_decide_eq_false_2 by (unfold MAX_PARTICIPANTS; lia).
  unfold setCallState at 1.
  match goal with |- context [initializeLocalStream e ?b] =>
    match goal with |- context [modify ?f] =>
      destruct (initializeLocalStream_fails e b (f w) Hno) as (err & Hrun & Hmsg) end end.
  exists err. eexists. split.
  - erewrite try_catch_throw.
    2:{ run_step. apply bind_throw. exact Hrun. }
    unfold console, setCallState. do 2 run_step. reflexivity.
  - destruct (hasMediaDevices e && secureContext e); cbn;
      rewrite <- app_assoc; by split_and!.
Qed.

(** X24.  The dashboard starts calls without waiting for them.  When
    capture is not available, a click on a call button, or the confirmation
    of a group call with one to four users selected, fails without the user
    being told: the handler returns, the dialog is closed and the selection
    cleared, the console gets two errors and no alert is shown; no session
    record is written and the client is not in a call. *)
Theorem dashboard_calls_fail_silently (e : Env) (w : World) (ty : CallType)
    (d : Dashboard) (receiverId : string) :
  is_Some (user w) -> webRTCService w = true -> no_media e ->
  1 <= length (selectedUsers d) <= 4 ->
  let failed w' :=
    trace w' = trace w ++ [Console error "Error accessing media devices:";
                           Console error "Error starting call:"] /\
    db w' = db w /\ isInCall (callState w') = isInCall (callState w) /\
    isCalling (callState w') = false in
  (exists w', handleGroupCall e ty d w = (Ok (mkDashboard (onlineUsers d) [] false), w') /\
              failed w') /\
  (exists w', handleOneToOneCall e receiverId ty w = (Ok tt, w') /\ failed w').
Proof.
  intros Hu Hs Hno Hlen failed. split.
  - destruct (startCall_without_media e w (selectedUsers d) ty Hu Hs (proj2 Hlen) Hno)
      as (err & w' & Hrun & Htrace & Hdb & _ & _ & Hcalling & Hin).
    exists w'. split; [|by split_and!].
    unfold handleGroupCall.
    rewrite bool_decide_eq_false_2 by lia. rewrite bool_decide_eq_false_2 by lia.
    unfold bind, not_awaited. by rewrite Hrun.
  - destruct (startCall_without_media e w [receiverId] ty Hu Hs) as
      (err & w' & Hrun & Htrace & Hdb & _ & _ & Hcalling & Hin); [cbn; lia|done|].
    exists w'. split; [|by split_and!].
    unfold handleOneToOneCall, not_awaited. by rewrite Hrun.
Qed.

Lemma dashboard_calls_fail_silently_witness :
  exists w', handleOneToOneCall (env_denied 5000) "bob" video (idle alice db_users)
             = (Ok tt, w') /\ db w' = db_users.
Proof.
  assert (Hden : no_media (env_denied 5000)) by (right; right; by eexists).
  assert (Hu : is_Some (user (idle alice db_users))) by (by eexists).
  assert (Hlen : 1 <= length (selectedUsers (mkDashboard [bob] ["bob"] true)) <= 4).
  { cbn. lia. }
  destruct (dashboard_calls_fail_silently (env_denied 5000) (idle alice db_users) video
              (mkDashboard [bob] ["bob"] true) "bob" Hu eq_refl Hden Hlen)
    as [_ (w' & Hrun & _ & Hdb & _)].
  exists w'. split; [exact Hrun|exact Hdb].
Defined.

(** X25.  A group call from the dashboard.  The users to choose from are
    the online users other than the signed-in one; the selection is what
    clicks on them leave.  With one to four users selected, on a client
    without connections, when capture works and the channel accepts the
    writes, confirming the dialog starts the call, closes the dialog and
    clears the selection.  The session record lists the caller and the
    selected users, each once, so two to five distinct participants; it is
    a group call exactly when more than one user was selected; and there is
    a connection and a published offer for every selected user. *)
Theorem group_call_from_the_dashboard (e : Env) (w : World) (ty : CallType)
    (self : User) (docs : list User) (clicks : list string) (d : Dashboard) :
  user w = Some self -> webRTCService w = true -> good_env e ->
  peerConnections w = ∅ ->
  onlineUsers d = onlineUsersSnapshot self docs ->
  (forall i, i ∈ clicks -> i ∈ uid <$> onlineUsers d) ->
  selectedUsers d = selection_after clicks ->
  1 <= length (selectedUsers d) <= 4 ->
  exists w' doc,
    handleGroupCall e ty d w = (Ok (mkDashboard (onlineUsers d) [] false), w') /\
    calls (db w') !! autoId e = Some doc /\
    participants doc = uid self :: selectedUsers d /\
    NoDup (participants doc) /\
    2 <= distinct_participants doc <= 5 /\
    isGroupCall doc = bool_decide (1 < length (selectedUsers d)) /\
    status doc = ringing /\
    (forall r, r ∈ selectedUsers d ->
       is_Some (peerConnections w' !! r) /\ is_Some (offers (db w') !! (autoId e, r))).
Proof.
  intros Hu Hs Hgood Hempty Honline Hclicks Hsel Hlen.
  assert (Hnd : NoDup (selectedUsers d)).
  { rewrite Hsel. apply selection_after_NoDup. }
  assert (Hself : uid self ∉ selectedUsers d).
  { rewrite Hsel. intros Hin%selection_after_clicked%Hclicks.
    rewrite Honline in Hin. unfold onlineUsersSnapshot in Hin.
    apply list_elem_of_fmap in Hin as (userData & Heq & Hin).
    apply list_elem_of_filter in Hin as [Hne _]. by apply Hne. }
  destruct (startCall_links e w (selectedUsers d) ty self Hu Hs Hgood Hnd)
    as (w' & s & Hrun & _ & _ & _ & Hall & _ & Hcalls & _).
  { intros r _. rewrite Hempty. apply lookup_empty. }
  { intros Hnil. rewrite Hnil in Hlen. cbn in Hlen. lia. }
  { lia. }
  assert (Hnd' : NoDup (uid self :: selectedUsers d)) by (by apply NoDup_cons).
  exists w', (new_call_doc e self (selectedUsers d) ty). split_and!.
  - unfold handleGroupCall.
    rewrite bool_decide_eq_false_2 by lia. rewrite bool_decide_eq_false_2 by lia.
    unfold bind, not_awaited. by rewrite Hrun.
  - rewrite Hcalls. apply lookup_insert_eq.
  - reflexivity.
  - exact Hnd'.
  - rewrite distinct_participants_NoDup by exact Hnd'. cbn. lia.
  - rewrite distinct_participants_NoDup by exact Hnd'. cbn. lia.
  - reflexivity.
  - reflexivity.
  - intros r Hr. destruct (Hall r Hr) as (ref & Hentry & _ & _ & Hdoc).
    split; by eexists.
Qed.

Lemma group_call_from_the_dashboard_witness :
  exists w' doc,
    handleGroupCall (env_ok 1000) video
      (mkDashboard [bob; carol] (selection_after ["bob"; "carol"; "bob"; "bob"]) true)
      (idle alice db_users)
    = (Ok (mkDashboard [bob; carol] [] false), w') /\
    calls (db w') !! "call-1" = Some doc /\
    participants doc = ["alice"; "carol"; "bob"].
Proof.
  assert (Hgood : good_env (env_ok 1000)) by (by split_and!).
  set (d := mkDashboard [bob; carol] (selection_after ["bob"; "carol"; "bob"; "bob"]) true).
  assert (Honline : onlineUsers d = onlineUsersSnapshot alice [alice; bob; carol]).
  { vm_compute. reflexivity. }
  assert (Hclicks : forall i, i ∈ ["bob"; "carol"; "bob"; "bob"] -> i ∈ uid <$> onlineUsers d).
  { intros i Hi. cbn. set_solver. }
  assert (Hlen : 1 <= length (selectedUsers d) <= 4).
  { vm_compute. lia. }
  destruct (group_call_from_the_dashboard (env_ok 1000) (idle alice db_users) video alice
              [alice; bob; carol] ["bob"; "carol"; "bob"; "bob"] d
              eq_refl eq_refl Hgood eq_refl Honline Hclicks eq_refl Hlen)
    as (w' & doc & Hrun & Hdoc & Hparts & _).
  exists w', doc. split_and!; [exact Hrun|exact Hdoc|].
  rewrite Hparts. vm_compute. reflexivity.
Defined.

(* ===================================================================== *)
(** * The call screen *)
(* ===================================================================== *)

Lemma find_participant_defined userId (ids : list string) (f : string -> option User) :
  (forall r, r ∈ ids -> is_Some (f r)) ->
  exists p, find_participant userId (f <$> ids) = inr p.
Proof.
  induction ids as [|r ids IH]; intros Hall; [by eexists|].
  cbn. destruct (Hall r) as [p Hp]; [left|]. rewrite Hp.
  case_decide; [by eexists|]. apply IH. intros r' Hr'. apply Hall. by right.
Qed.

Lemma forallb_true {A} (g : A -> bool) l : (forall x, g x = true) -> forallb g l = true.
Proof. intros Hg. induction l as [|x l IH]; [done|]. cbn. by rewrite Hg, IH. Qed.

Lemma forallb_defined (ids : list string) (f : string -> option User) :
  (forall r, r ∈ ids -> is_Some (f r)) ->
  forallb (fun participant => bool_decide (is_Some participant)) (f <$> ids) = true.
Proof.
  induction ids as [|r ids IH]; intros Hall; [done|]. cbn.
  rewrite bool_decide_eq_true_2 by (apply Hall; left). cbn.
  apply IH. intros r' Hr'. apply Hall. by right.
Qed.

Lemma forallb_undefined (ids : list string) (f : string -> option User) r :
  r ∈ ids -> f r = None ->
  forallb (fun participant => bool_decide (is_Some participant)) (f <$> ids) = false.
Proof.
  induction ids as [|r' ids IH]; intros Hin Hr; [by apply elem_of_nil in Hin|].
  cbn. apply elem_of_cons in Hin as [<-|Hin].
  - rewrite Hr. rewrite bool_decide_eq_false_2; [done|]. by intros [? ?].
  - rewrite IH by done. apply andb_false_r.
Qed.

(** The call screen of a client in a call whose participants are the user
    documents of [ids]. *)
Lemma CallUI_in_call cs (ids : list string) (f : string -> option User) :
  isInCall cs = true -> cs_participants cs = f <$> ids -> ids <> [] ->
  ((forall r, r ∈ ids -> is_Some (f r)) ->
   CallUI cs
   = inr (Some (if bool_decide (1 < length ids) then GroupCallHeader (length ids + 1)
                else PeerHeader (nameOrUnknown (f (default "" (head ids))))
                       (isCalling cs)))) /\
  (callType cs ≠ Some video -> (exists r, r ∈ ids /\ f r = None) ->
   CallUI cs = inl TypeError).
Proof.
  intros Hin Hparts Hne. unfold CallUI. rewrite Hin, Hparts, length_fmap.
  cbn [negb andb]. split.
  - intros Hall.
    assert (Hbody :
      (if decide (callType cs = Some video)
       then forallb (fun entry : string * list nat =>
                       match find_participant entry.1 (f <$> ids) with
                       | inl _ => false
                       | inr _ => true
                       end) (map_to_list (remoteStreams cs))
       else forallb (fun participant => bool_decide (is_Some participant)) (f <$> ids))
      = true).
    { case_decide.
      - apply forallb_true. intros entry.
        by destruct (find_participant_defined entry.1 ids f Hall) as [p ->].
      - by apply forallb_defined. }
    rewrite Hbody. do 2 f_equal. case_bool_decide as Hlen; [done|].
    destruct ids as [|r [|r2 ids]]; [done|done|]. cbn in Hlen. lia.
  - intros Hvoice (r & Hr & Hnone). rewrite decide_False by done.
    by rewrite (forallb_undefined ids f r).
Qed.

(** The state of the provider after [answerCall], under the conditions of
    [answerCall_spec]. *)
Lemma answerCall_state e w callId u ic od cdoc :
  user w = Some u -> webRTCService w = true -> incomingCall w = Some ic ->
  good_env e ->
  offers (db w) !! (callId, uid u) = Some od -> dtype (description od) = offer ->
  calls (db w) !! callId = Some cdoc ->
  peerConnections w !! fromUserId od = None ->
  exists w',
    answerCall e callId w = (Ok tt, w') /\
    isInCall (callState w') = true /\
    isCalling (callState w') = isCalling (callState w) /\
    callType (callState w') = Some (type (data ic)) /\
    cs_participants (callState w')
    = (fun i => users (db w) !! i)
        <$> filter (fun i => i ≠ uid u) (participants (data ic)) /\
    incomingCall w' = None.
Proof.
  intros Hu Hready Hic (Hm & Hs & Hg & Hwrite) Hod Ho Hcall Hnone.
  unfold answerCall. do 3 run_step. rewrite Hu, Hready, Hic.
  match goal with |- exists w', try_catch ?m ?h ?w0 = _ /\ @?Q w' =>
    enough (Hb : exists w', m w0 = (Ok tt, w') /\ Q w');
      [destruct Hb as (w' & Hb & HQ); exists w';
       split; [by apply try_catch_ok|exact HQ]|] end.
  destruct (initializeLocalStream_ok e (bool_decide (type (data ic) = voice)) w Hm Hs Hg)
    as (s & w1 & Hinit & Hls & Hp1 & Hh1 & Ho1).
  rewrite (bind_ok _ _ _ _ _ Hinit).
  unfold setCallId, setCallState, setIncomingCall, listenForCandidates.
  do 2 run_step.
  unfold outside in Ho1. simplify_eq.
  cbn [db set_callId].
  match goal with H : db w1 = db w |- _ => rewrite H end. rewrite Hod.
  edestruct (createAnswer_fresh e (set_callId (Some callId) w1) (fromUserId od)
               (description od)) as [tr Hans]; [by (cbn; rewrite Hp1)|done|].
  cbv zeta in Hans.
  erewrite (bind_ok (bind (createAnswer _ _ _) _)).
  2:{ rewrite (bind_ok _ _ _ _ _ Hans). unfold setDoc_answer. rewrite Hwrite.
      do 2 run_step. unfold setupRemoteStreamListener. run_step.
      cbn [peerConnections set_db set_unsubscribes set_trace set_peerConnections].
      rewrite lookup_insert_eq. reflexivity. }
  erewrite bind_ok.
  2:{ apply (updateDoc_call_run _ _ _ cdoc); [apply Hwrite|]. cbn.
      match goal with H : db w1 = db w |- _ => by rewrite H end. }
  rewrite (bind_ok _ _ _ _ _ (mapM_getUser _ _)).
  run_step. rewrite modify_run.
  eexists. split; [reflexivity|]. cbn.
  repeat match goal with H : _ w1 = _ w |- _ => rewrite H; clear H end.
  by split_and!.
Qed.

Lemma filter_other (u : string) (l : list string) :
  u ∉ l -> filter (fun i => i ≠ u) l = l.
Proof.
  induction l as [|x l IH]; [done|]. intros Hnin. apply not_elem_of_cons in Hnin as [Hne Hnin].
  rewrite filter_cons_True by done. by rewrite IH.
Qed.

Lemma length_filter_other (u : string) (l : list string) :
  NoDup l -> u ∈ l -> S (length (filter (fun i => i ≠ u) l)) = length l.
Proof.
  induction l as [|x l IH]; intros Hnd Hin; [by apply elem_of_nil in Hin|].
  apply NoDup_cons in Hnd as [Hx Hnd]. destruct (decide (x = u)) as [->|Hne].
  - rewrite filter_cons_False by (intros H; by apply H).
    by rewrite filter_other.
  - rewrite filter_cons_True by done. cbn. f_equal. apply IH; [done|].
    apply elem_of_cons in Hin as [->|Hin]; done.
Qed.

(** X26.  The call screen on the caller's client once [startCall] has gone
    through (one to four distinct receivers, no connection to them before,
    capture and channel working).  When every receiver has a user
    document, the screen renders and its header agrees with the session
    record: for a group call it shows the number of participants of the
    record, otherwise the name of the receiver, and it no longer says
    [Calling...].  When a receiver has no user document and the call is a
    voice call, rendering fails: the avatars read a field of an undefined
    participant. *)
Theorem call_screen_of_the_caller (e : Env) (w : World) (receiverIds : list string)
    (ty : CallType) (caller : User) :
  user w = Some caller -> webRTCService w = true -> good_env e ->
  NoDup receiverIds ->
  (forall r, r ∈ receiverIds -> peerConnections w !! r = None) ->
  receiverIds <> [] -> length receiverIds <= 4 ->
  exists w' doc,
    startCall e receiverIds ty w = (Ok tt, w') /\
    calls (db w') !! autoId e = Some doc /\
    ((forall r, r ∈ receiverIds -> is_Some (users (db w) !! r)) ->
     CallUI (callState w')
     = inr (Some (if isGroupCall doc then GroupCallHeader (length (participants doc))
                  else PeerHeader
                         (nameOrUnknown (users (db w) !! default "" (head receiverIds)))
                         false))) /\
    (ty = voice -> (exists r, r ∈ receiverIds /\ users (db w) !! r = None) ->
     CallUI (callState w') = inl TypeError).
Proof.
  intros Hu Hs Hgood Hnd Hnone Hne Hlen.
  destruct (startCall_links e w receiverIds ty caller Hu Hs Hgood Hnd Hnone Hne Hlen)
    as (w' & s & Hrun & _ & _ & _ & _ & _ & Hcalls & _ & Hin & Hcalling & _ & Hparts & Hty).
  destruct (CallUI_in_call (callState w') receiverIds (fun i => users (db w) !! i)
              Hin Hparts Hne) as [Hrender Hfail].
  exists w', (new_call_doc e caller receiverIds ty). split_and!.
  - exact Hrun.
  - rewrite Hcalls. apply lookup_insert_eq.
  - intros Hall. rewrite (Hrender Hall), Hcalling. cbn [isGroupCall new_call_doc participants].
    cbn [length]. by rewrite Nat.add_1_r.
  - intros -> Hmissing. apply Hfail; [|done]. by rewrite Hty.
Qed.

Lemma call_screen_of_the_caller_witness :
  CallUI (callState (startCall (env_ok 1000) ["bob"; "alice"] video
                       (idle carol db_users)).2)
  = inr (Some (GroupCallHeader 3)) /\
  CallUI (callState (startCall (env_ok 1000) ["bob"; "dave"] voice
                       (idle alice db_users)).2)
  = inl TypeError.
Proof.
  assert (Hgood : good_env (env_ok 1000)) by (by split_and!).
  split.
  - assert (Hnd : NoDup ["bob"; "alice"]).
    { apply (bool_decide_unpack _). vm_compute. exact I. }
    assert (Hnone : forall r, r ∈ ["bob"; "alice"] ->
                      peerConnections (idle carol db_users) !! r = None).
    { intros r _. apply lookup_empty. }
    assert (Hne : ["bob"; "alice"] <> []) by discriminate.
    assert (Hlen : length ["bob"; "alice"] <= 4) by (cbn; lia).
    destruct (call_screen_of_the_caller (env_ok 1000) (idle carol db_users)
                ["bob"; "alice"] video carol eq_refl eq_refl Hgood Hnd Hnone Hne Hlen)
      as (w' & doc & Hrun & Hdoc & Hrender & _).
    rewrite Hrun. cbn [snd]. rewrite Hrender.
    + assert (Hdoc' : calls (db (startCall (env_ok 1000) ["bob"; "alice"] video
                                   (idle carol db_users)).2) !! autoId (env_ok 1000)
                      = Some (new_call_doc (env_ok 1000) carol ["bob"; "alice"] video)).
      { vm_compute. reflexivity. }
      rewrite Hrun in Hdoc'. cbn [snd] in Hdoc'. rewrite Hdoc' in Hdoc.
      injection Hdoc as <-. vm_compute. reflexivity.
    + intros r Hr. apply elem_of_cons in Hr as [->|Hr]; [vm_compute; by eexists|].
      apply list_elem_of_singleton in Hr as ->. vm_compute. by eexists.
  - assert (Hnd : NoDup ["bob"; "dave"]).
    { apply (bool_decide_unpack _). vm_compute. exact I. }
    assert (Hnone : forall r, r ∈ ["bob"; "dave"] ->
                      peerConnections (idle alice db_users) !! r = None).
    { intros r _. apply lookup_empty. }
    assert (Hne : ["bob"; "dave"] <> []) by discriminate.
    assert (Hlen : length ["bob"; "dave"] <= 4) by (cbn; lia).
    destruct (call_screen_of_the_caller (env_ok 1000) (idle alice db_users)
                ["bob"; "dave"] voice alice eq_refl eq_refl Hgood Hnd Hnone Hne Hlen)
      as (w' & doc & Hrun & _ & _ & Hfail).
    rewrite Hrun. cbn [snd]. apply Hfail; [reflexivity|].
    exists "dave". split; [apply list_elem_of_further, list_elem_of_here|].
    vm_compute. reflexivity.
Defined.

(** X27.  The call screen on a receiver's client once [answerCall] has gone
    through; the record the client was shown lists each participant once,
    the receiver among them, and satisfies the invariant of session
    records.  The prompt is gone.  When every other participant has a user
    document, the screen renders and its header agrees with the record: for
    a group call it shows the number of participants of the record,
    otherwise the name of the other participant.  When one of them has no
    user document and the call is a voice call, rendering fails. *)
Theorem call_screen_of_the_receiver (e : Env) (w : World) (callId : string) (u : User)
    (ic : Call) (od : SignalDoc) (cdoc : CallDoc) :
  user w = Some u -> webRTCService w = true -> incomingCall w = Some ic ->
  good_env e ->
  offers (db w) !! (callId, uid u) = Some od -> dtype (description od) = offer ->
  calls (db w) !! callId = Some cdoc ->
  peerConnections w !! fromUserId od = None ->
  NoDup (participants (data ic)) -> uid u ∈ participants (data ic) ->
  session_ok (data ic) ->
  let others := filter (fun i => i ≠ uid u) (participants (data ic)) in
  exists w',
    answerCall e callId w = (Ok tt, w') /\
    incomingCall w' = None /\
    ((forall r, r ∈ others -> is_Some (users (db w) !! r)) ->
     CallUI (callState w')
     = inr (Some (if isGroupCall (data ic)
                  then GroupCallHeader (length (participants (data ic)))
                  else PeerHeader (nameOrUnknown (users (db w) !! default "" (head others)))
                         (isCalling (callState w))))) /\
    (type (data ic) = voice -> (exists r, r ∈ others /\ users (db w) !! r = None) ->
     CallUI (callState w') = inl TypeError).
Proof.
  intros Hu Hs Hic Hgood Hod Ho Hdoc Hnone Hnd Hin [Hsize Hgroup] others.
  destruct (answerCall_state e w callId u ic od cdoc Hu Hs Hic Hgood Hod Ho Hdoc Hnone)
    as (w' & Hrun & Hcall & Hcalling & Hty & Hparts & Hnoic).
  pose proof (length_filter_other (uid u) _ Hnd Hin) as Hlen. fold others in Hlen, Hparts.
  assert (Hne : others <> []).
  { intros Hnil. rewrite Hnil in Hlen. cbn in Hlen. lia. }
  destruct (CallUI_in_call (callState w') others (fun i => users (db w) !! i)
              Hcall Hparts Hne) as [Hrender Hfail].
  exists w'. split_and!.
  - exact Hrun.
  - exact Hnoic.
  - intros Hall. rewrite (Hrender Hall), Hcalling, Hgroup.
    repeat case_bool_decide; try lia; [|done]. do 3 f_equal. lia.
  - intros Hvoice Hmissing. apply Hfail; [|done]. by rewrite Hty, Hvoice.
Qed.

Lemma call_screen_of_the_receiver_witness :
  exists w', answerCall (env_ok 2000) "call-1" bob_invited = (Ok tt, w') /\
             CallUI (callState w') = inr (Some (PeerHeader "Alice" false)).
Proof.
  assert (Hgood : good_env (env_ok 2000)) by (by split_and!).
  assert (Hu : user bob_invited = Some bob) by (vm_compute; reflexivity).
  assert (Hs : webRTCService bob_invited = true) by (vm_compute; reflexivity).
  assert (Hic : incomingCall bob_invited = Some call_to_bob) by (vm_compute; reflexivity).
  assert (Hod : offers (db bob_invited) !! ("call-1", uid bob)
                = Some (offer_doc (env_ok 1000) alice "bob"
                          {| dtype := offer; sdp := "v=0 offer" |})).
  { vm_compute. reflexivity. }
  assert (Hdoc : calls (db bob_invited) !! "call-1" = Some (data call_to_bob)).
  { vm_compute. reflexivity. }
  assert (Hnone : peerConnections bob_invited
                  !! fromUserId (offer_doc (env_ok 1000) alice "bob"
                                   {| dtype := offer; sdp := "v=0 offer" |}) = None).
  { vm_compute. reflexivity. }
  assert (Hnd : NoDup (participants (data call_to_bob))).
  { apply (bool_decide_unpack _). vm_compute. exact I. }
  assert (Hin : uid bob ∈ participants (data call_to_bob)).
  { apply (bool_decide_unpack _). vm_compute. exact I. }
  assert (Hok : session_ok (data call_to_bob)).
  { split; [cbn; lia|]. vm_compute. reflexivity. }
  destruct (call_screen_of_the_receiver (env_ok 2000) bob_invited "call-1" bob call_to_bob
              _ _ Hu Hs Hic Hgood Hod eq_refl Hdoc Hnone Hnd Hin Hok)
    as (w' & Hrun & _ & Hrender & _).
  exists w'. split; [exact Hrun|].
  rewrite Hrender.
  - vm_compute. reflexivity.
  - intros r Hr.
    assert (Hothers : filter (fun i => i ≠ uid bob) (participants (data call_to_bob))
                      = ["alice"]) by (vm_compute; reflexivity).
    rewrite Hothers in Hr. apply list_elem_of_singleton in Hr as ->.
    vm_compute. by eexists.
Defined.

(* ===================================================================== *)
(** * Star topology *)
(* ===================================================================== *)






